(** * MyCoroutine: scheduler, timer manager, I/O manager, fd registry, hook

    A shallow embedding of the C++ sources of the coroutine runtime
    (namespace [nsCoroutine]) and the properties proved about it.

    Conventions of the embedding
    - C++ integers are [Z]; where the source relies on a fixed width
      (the [size_t] pending counter, the [(int)] cast of a vector size,
      the [uint32_t] epoll mask) the wrap-around is written out.
    - [std::function<void()>] and [std::shared_ptr<Fiber>] are modelled by
      the identity of the closure / fiber they hold ([nat]), [None] being
      the empty function / null pointer.
    - [assert(...)] aborts the process: the operation returns
      [AssertFail].  Dereferencing a null pointer or indexing a vector out
      of bounds is [Undefined].
    - Locks are not modelled: every operation below is the body of a
      critical section and is executed atomically. *)

From Stdlib Require Import ZArith List Bool Lia Sorted.
From stdpp Require Import base option list gmap strings.

Local Open Scope Z_scope.

(** ** Outcomes of a call *)

Inductive outcome (A : Type) : Type :=
| Ok (a : A)
| AssertFail
| Undefined.
Arguments Ok {A} a.
Arguments AssertFail {A}.
Arguments Undefined {A}.

Definition obind {A B} (m : outcome A) (k : A -> outcome B) : outcome B :=
  match m with
  | Ok a => k a
  | AssertFail => AssertFail
  | Undefined => Undefined
  end.

Notation "'do' x <- m ; k" := (obind m (fun x => k))
  (at level 10, x pattern, m at level 100, k at level 200).

Definition assert (b : bool) : outcome unit :=
  if b then Ok tt else AssertFail.

(** Identities of closures, fibers and schedulers. *)
Abbreviation Callback := nat.
Abbreviation FiberId := nat.

(** Fixed-width arithmetic. *)
Definition UINT64_MOD : Z := 2 ^ 64.
Definition UINT64_MAX : Z := 2 ^ 64 - 1.
Definition INT_MAX : Z := 2 ^ 31 - 1.

Definition wrap64 (z : Z) : Z := z mod UINT64_MOD.

(** [(int)v] for an unsigned [v]: reduction modulo 2^32 into
    [-2^31, 2^31). *)
Definition to_int (z : Z) : Z := (z + 2 ^ 31) mod 2 ^ 32 - 2 ^ 31.

(** [(size_t)(fd * 1.5)] for an [int fd]: the product is exact in a
    [double] and the conversion truncates; it is undefined for a
    negative value. *)
Definition one_and_a_half (fd : Z) : outcome nat :=
  if fd <? 0 then Undefined else Ok (Z.to_nat (Z.quot (fd * 3) 2)).

(** The index [v[fd]] of a vector for an [int fd]: the argument of
    [operator[]] is a [size_t]. *)
Definition index_of (fd : Z) : nat := Z.to_nat (wrap64 fd).

(** ** Scheduler (scheduler.h, scheduler.cc) *)

Module Scheduler.

(** [struct ScheduleTask]. *)
Record ScheduleTask : Type := mkTask {
  _fiber : option FiberId;
  _cb : option Callback;
  _thread : Z
}.

(** The four constructors [ScheduleTask(FiberOrCb, int)]: a fiber or a
  function, passed by value or by pointer (the pointer variants swap
  the content out of the source). *)
Inductive FiberOrCb : Type :=
| ByFiber (f : option FiberId)
| ByCb (c : option Callback).

Definition make_task (fc : FiberOrCb) (thr : Z) : ScheduleTask :=
  match fc with
  | ByFiber f => mkTask f None thr
  | ByCb c => mkTask None c thr
  end.

Definition task_present (t : ScheduleTask) : bool :=
  match _fiber t, _cb t with
  | None, None => false
  | _, _ => true
  end.

(** The data members of [class Scheduler] that the modelled operations
  read or write.  [cerr] is the text written to [std::cerr]. *)
Record t : Type := mk {
  _m_tasks : list ScheduleTask;
  _m_threadCount : nat;
  _m_activeThreadCount : Z;
  _m_idleThreadCount : Z;
  _m_schedulerFiber : option FiberId;
  _m_stopping : bool;
  cerr : list string
}.

Definition set_tasks (q : list ScheduleTask) (s : t) : t :=
  mk q (_m_threadCount s) (_m_activeThreadCount s) (_m_idleThreadCount s)
   (_m_schedulerFiber s) (_m_stopping s) (cerr s).

Definition set_stopping (b : bool) (s : t) : t :=
  mk (_m_tasks s) (_m_threadCount s) (_m_activeThreadCount s)
   (_m_idleThreadCount s) (_m_schedulerFiber s) b (cerr s).

Definition is_empty {A} (l : list A) : bool :=
  match l with [] => true | _ => false end.

(** [Scheduler::stopping()]. *)
Definition stopping (s : t) : bool :=
  _m_stopping s && is_empty (_m_tasks s) && (_m_activeThreadCount s =? 0).

Definition hasIdleThreads (s : t) : bool := 0 <? _m_idleThreadCount s.

(** The virtual [tickle()] is a parameter: a derived class embeds the
  [Scheduler] sub-object in its own state [S]. *)
Section Virtual.
Context {S : Type}.
Variable base : S -> t.
Variable with_base : t -> S -> S.
Variable tickle : S -> outcome S.

(** [template<class FiberOrCb> void scheduleLock(FiberOrCb fc, int thread)]. *)
Definition scheduleLock (fc : FiberOrCb) (thread : Z) (s : S) : outcome S :=
  let need_tickle := is_empty (_m_tasks (base s)) in
  let task := make_task fc thread in
  let s1 :=
    if task_present task
    then with_base (set_tasks (_m_tasks (base s) ++ [task]) (base s)) s
    else s in
  if need_tickle then tickle s1 else Ok s1.

Fixpoint repeat_tickle (n : nat) (s : S) : outcome S :=
  match n with
  | O => Ok s
  | Datatypes.S n' => do s1 <- tickle s; repeat_tickle n' s1
  end.

(** [Scheduler::stop()] up to the point where the caller's scheduler
    fiber is resumed and the workers are joined: the early return, the
    flag, and the tickles.  [cur_is_this] is [GetThis() == this]. *)
Definition stop_begin (cur_is_this : bool) (stopping_now : bool) (s : S)
  : outcome S :=
  if stopping_now then Ok s
  else
    let s1 := with_base (set_stopping true (base s)) s in
    do _ <- assert cur_is_this;
    do s2 <- repeat_tickle (_m_threadCount (base s1)) s1;
    match _m_schedulerFiber (base s2) with
    | Some _ => tickle s2
    | None => Ok s2
    end.
End Virtual.

(** The base class: [Scheduler::tickle()] has an empty body. *)
Definition tickle (s : t) : outcome t := Ok s.

Definition scheduleLock_base : FiberOrCb -> Z -> t -> outcome t :=
  scheduleLock (fun s => s) (fun b _ => b) tickle.

Definition stop_begin_base (cur_is_this : bool) (s : t) : outcome t :=
  stop_begin (fun s => s) (fun b _ => b) tickle cur_is_this (stopping s) s.

End Scheduler.

(** ** Timer and TimerManager (timer.h, timer.cc) *)

Module Timer.

(** A [std::chrono::system_clock] time point, in nanoseconds; a duration
    built from a millisecond count.  Signed overflow of the chrono
    arithmetic is undefined in the source and is not modelled: time
    points are unbounded integers.  [milliseconds ms] is the duration
    of the source for a count that [std::chrono] holds exactly, that
    is, for a [uint64_t] period whose count of nanoseconds is below
    2^63 ([TimerSeq.in_range], [TimerSeq.chrono_milliseconds]); the
    statements about the value of a deadline are made for such periods
    only. *)
Abbreviation time_point := Z.
Definition milliseconds (ms : Z) : Z := ms * 1000000.

(** [duration_cast<milliseconds>] truncates toward zero. *)
Definition to_milliseconds (ns : Z) : Z := Z.quot ns 1000000.

(** The address of a [Timer] object; every [std::shared_ptr<Timer>] is
    modelled by the address it holds. *)
Abbreviation TimerPtr := nat.

(** The data members of [class Timer] (the back pointer [_m_manager] is
    the manager that holds the object). *)
Record Timer : Type := mkTimer {
  _m_recurring : bool;
  _m_ms : Z;
  _m_next : time_point;
  _m_cb : option Callback
}.

Definition set_cb (c : option Callback) (t : Timer) : Timer :=
  mkTimer (_m_recurring t) (_m_ms t) (_m_next t) c.

Definition set_next (n : time_point) (t : Timer) : Timer :=
  mkTimer (_m_recurring t) (_m_ms t) n (_m_cb t).

Definition set_ms (ms : Z) (t : Timer) : Timer :=
  mkTimer (_m_recurring t) ms (_m_next t) (_m_cb t).

(** The data members of [class TimerManager].  [objects] is the store
    of the [Timer] objects created so far, indexed by address: timers
    are shared between the set and the handles given to callers, and
    are mutated through either.  [_m_timers] lists the elements of the
    [std::set<std::shared_ptr<Timer>, Timer::Comparator>] in iteration
    order. *)
Record TimerManager : Type := mkManager {
  objects : list Timer;
  _m_timers : list TimerPtr;
  _m_tickled : bool;
  _m_previouseTimer : time_point
}.

Definition set_objects (o : list Timer) (m : TimerManager) : TimerManager :=
  mkManager o (_m_timers m) (_m_tickled m) (_m_previouseTimer m).

Definition set_timers (l : list TimerPtr) (m : TimerManager) : TimerManager :=
  mkManager (objects m) l (_m_tickled m) (_m_previouseTimer m).

Definition set_tickled (b : bool) (m : TimerManager) : TimerManager :=
  mkManager (objects m) (_m_timers m) b (_m_previouseTimer m).

Definition set_previouseTimer (n : time_point) (m : TimerManager)
  : TimerManager :=
  mkManager (objects m) (_m_timers m) (_m_tickled m) n.

(** [p->_m_next] for a pointer held by the set. *)
Definition deadline (o : list Timer) (p : TimerPtr) : time_point :=
  match o !! p with
  | Some t => _m_next t
  | None => 0
  end.

(** [Timer::Comparator::operator()]: the deadlines alone are compared. *)
Definition Comparator (o : list Timer) (lhs rhs : TimerPtr) : bool :=
  deadline o lhs <? deadline o rhs.

(** *** The ordered set

    [std::set] with a comparator [lt]: two keys neither of which is
    less than the other are equivalent, and the set holds at most one
    key of each equivalence class. *)
Section OrderedSet.
Context {A : Type}.
Variable lt : A -> A -> bool.

(** [set.insert(x)]: the new content and the position of the iterator
    returned (the element inserted, or the equivalent element that
    prevented the insertion). *)
Fixpoint set_insert (x : A) (l : list A) : list A * nat :=
  match l with
  | [] => ([x], O)
  | y :: l' =>
      if lt y x then
        let '(r, i) := set_insert x l' in (y :: r, S i)
      else if lt x y then (x :: y :: l', O)
      else (y :: l', O)
  end.

(** [set.find(x)]: the position of the element equivalent to [x]. *)
Fixpoint set_find (x : A) (l : list A) : option nat :=
  match l with
  | [] => None
  | y :: l' =>
      if lt y x then S <$> set_find x l'
      else if lt x y then None
      else Some O
  end.

(** [set.erase(it)]. *)
Definition set_erase (i : nat) (l : list A) : list A := delete i l.
End OrderedSet.

(** *** Timer member functions

    [this] is the address of the timer; the clock reading [now] is an
    input.  A handle always points to a live object: an address outside
    the store is [Undefined]. *)

(** [Timer::cancel()]. *)
Definition cancel (this : TimerPtr) (m : TimerManager)
  : outcome (bool * TimerManager) :=
  match objects m !! this with
  | None => Undefined
  | Some t =>
      match _m_cb t with
      | None => Ok (false, m)
      | Some _ =>
          let o := <[this := set_cb None t]> (objects m) in
          let m1 := set_objects o m in
          match set_find (Comparator o) this (_m_timers m1) with
          | Some it => Ok (true, set_timers (set_erase it (_m_timers m1)) m1)
          | None => Ok (true, m1)
          end
      end
  end.

(** The critical section of [TimerManager::addTimer(shared_ptr<Timer>)];
    the result [at_front] tells the caller to invoke the virtual
    [onTimerInsertedAtFront()]. *)
Definition addTimer_ptr (timer : TimerPtr) (m : TimerManager)
  : bool * TimerManager :=
  let '(l, it) := set_insert (Comparator (objects m)) timer (_m_timers m) in
  let at_front := Nat.eqb it O && negb (_m_tickled m) in
  let m1 := set_timers l m in
  (at_front, if at_front then set_tickled true m1 else m1).

(** [TimerManager::addTimer(ms, cb, recurring)]: the constructor of
    [Timer] reads the clock; the new object gets the next free address. *)
Definition addTimer (ms : Z) (cb : option Callback) (recurring : bool)
    (now : time_point) (m : TimerManager) : TimerPtr * bool * TimerManager :=
  let timer := length (objects m) in
  let t := mkTimer recurring ms (now + milliseconds ms) cb in
  let '(at_front, m1) :=
    addTimer_ptr timer (set_objects (objects m ++ [t]) m) in
  (timer, at_front, m1).

(** [Timer::refresh()]. *)
Definition refresh (this : TimerPtr) (now : time_point) (m : TimerManager)
  : outcome (bool * TimerManager) :=
  match objects m !! this with
  | None => Undefined
  | Some t =>
      match _m_cb t with
      | None => Ok (false, m)
      | Some _ =>
          match set_find (Comparator (objects m)) this (_m_timers m) with
          | None => Ok (false, m)
          | Some it =>
              let l := set_erase it (_m_timers m) in
              let o := <[this := set_next (now + milliseconds (_m_ms t)) t]>
                         (objects m) in
              let '(l1, _) := set_insert (Comparator o) this l in
              Ok (true, set_timers l1 (set_objects o m))
          end
      end
  end.

(** [Timer::reset(ms, from_now)]; the second component of the result
    is [at_front] of the final [addTimer]. *)
Definition reset (this : TimerPtr) (ms : Z) (from_now : bool)
    (now : time_point) (m : TimerManager)
  : outcome (bool * bool * TimerManager) :=
  match objects m !! this with
  | None => Undefined
  | Some t =>
      if (ms =? _m_ms t) && negb from_now then Ok (true, false, m)
      else
        match _m_cb t with
        | None => Ok (false, false, m)
        | Some _ =>
            match set_find (Comparator (objects m)) this (_m_timers m) with
            | None => Ok (false, false, m)
            | Some it =>
                let l := set_erase it (_m_timers m) in
                let start :=
                  if from_now then now
                  else _m_next t - milliseconds (_m_ms t) in
                let t1 := set_next (start + milliseconds ms) (set_ms ms t) in
                let m1 :=
                  set_timers l (set_objects (<[this := t1]> (objects m)) m) in
                let '(at_front, m2) := addTimer_ptr this m1 in
                Ok (true, at_front, m2)
            end
        end
  end.

(** [TimerManager::getNextTimer()].  The cast of the millisecond count
    to [uint64_t] is exact: the count is positive on that branch. *)
Definition getNextTimer (now : time_point) (m : TimerManager)
  : outcome (Z * TimerManager) :=
  let m1 := set_tickled false m in
  match _m_timers m1 with
  | [] => Ok (UINT64_MAX, m1)
  | p :: _ =>
      match objects m1 !! p with
      | None => Undefined
      | Some t =>
          let time := _m_next t in
          if time <=? now then Ok (0, m1)
          else Ok (to_milliseconds (time - now), m1)
      end
  end.

(** [TimerManager::detectClockRollover()]. *)
Definition detectClockRollover (now : time_point) (m : TimerManager)
  : bool * TimerManager :=
  let rollover := now <? _m_previouseTimer m - milliseconds (60 * 60 * 1000) in
  (rollover, set_previouseTimer now m).

(** The [while] loop of [TimerManager::listExpiredCb]: [None] when the
    loop is still running after [fuel] iterations. *)
Fixpoint drain (fuel : nat) (rollover : bool) (now : time_point)
    (m : TimerManager) (cbs : list (option Callback))
  : option (outcome (list (option Callback) * TimerManager)) :=
  match fuel with
  | O => None
  | S fuel' =>
      match _m_timers m with
      | [] => Some (Ok (cbs, m))
      | temp :: rest =>
          match objects m !! temp with
          | None => Some Undefined
          | Some t =>
              if rollover || (_m_next t <=? now) then
                let cbs1 := cbs ++ [_m_cb t] in
                if _m_recurring t then
                  let o := <[temp := set_next (now + milliseconds (_m_ms t)) t]>
                             (objects m) in
                  let '(l, _) := set_insert (Comparator o) temp rest in
                  drain fuel' rollover now (set_timers l (set_objects o m)) cbs1
                else
                  let o := <[temp := set_cb None t]> (objects m) in
                  drain fuel' rollover now (set_timers rest (set_objects o m))
                        cbs1
              else Some (Ok (cbs, m))
          end
      end
  end.

(** [TimerManager::listExpiredCb(cbs)]: [now] is the clock reading of
    the function itself, [now2] the later one of
    [detectClockRollover]. *)
Definition listExpiredCb (fuel : nat) (now now2 : time_point)
    (m : TimerManager) (cbs : list (option Callback))
  : option (outcome (list (option Callback) * TimerManager)) :=
  let '(rollover, m1) := detectClockRollover now2 m in
  drain fuel rollover now m1 cbs.

(** [TimerManager::hasTimer()]. *)
Definition hasTimer (m : TimerManager) : bool :=
  negb (Scheduler.is_empty (_m_timers m)).

(** The manager built by [TimerManager::TimerManager()]. *)
Definition init (now : time_point) : TimerManager := mkManager [] [] false now.

(** *** The order of the set *)

(** The deadlines of the timers of the set, in iteration order. *)
Definition deadlines (m : TimerManager) : list time_point :=
  map (deadline (objects m)) (_m_timers m).

(** The set is strictly ordered by deadline, and its elements point to
    live objects. *)
Definition ordered (m : TimerManager) : Prop :=
  StronglySorted Z.lt (deadlines m).

Definition live (m : TimerManager) : Prop :=
  Forall (fun p => (p < length (objects m))%nat) (_m_timers m).

Definition wf (m : TimerManager) : Prop := ordered m /\ live m.

(** [d] is the earliest deadline of the set. *)
Definition earliest (m : TimerManager) (d : time_point) : Prop :=
  In d (deadlines m) /\ Forall (Z.le d) (deadlines m).

(** *** Runs of the manager *)

Inductive Call : Type :=
| CallAddTimer (ms : Z) (cb : option Callback) (recurring : bool)
    (now : time_point)
| CallCancel (this : TimerPtr)
| CallRefresh (this : TimerPtr) (now : time_point)
| CallReset (this : TimerPtr) (ms : Z) (from_now : bool) (now : time_point)
| CallGetNextTimer (now : time_point)
| CallListExpiredCb (fuel : nat) (now now2 : time_point).

(** The manager after a call that returns. *)
Definition run (c : Call) (m : TimerManager) : option TimerManager :=
  match c with
  | CallAddTimer ms cb recurring now =>
      Some (snd (addTimer ms cb recurring now m))
  | CallCancel this =>
      match cancel this m with Ok r => Some (snd r) | _ => None end
  | CallRefresh this now =>
      match refresh this now m with Ok r => Some (snd r) | _ => None end
  | CallReset this ms from_now now =>
      match reset this ms from_now now m with
      | Ok r => Some (snd r)
      | _ => None
      end
  | CallGetNextTimer now =>
      match getNextTimer now m with Ok r => Some (snd r) | _ => None end
  | CallListExpiredCb fuel now now2 =>
      match listExpiredCb fuel now now2 m [] with
      | Some (Ok r) => Some (snd r)
      | _ => None
      end
  end.

Inductive reachable (m0 : TimerManager) : TimerManager -> Prop :=
| reach_init : reachable m0 m0
| reach_call m c m' : reachable m0 m -> run c m = Some m' -> reachable m0 m'.

End Timer.

(** ** Fd registry (fdManager.h, fdManager.cc) *)

Module FdManager.

Definition SO_RCVTIMEO : Z := 20.
Definition SO_SNDTIMEO : Z := 21.

(** The data members of [class FdCtx]. *)
Record FdCtx : Type := mkFdCtx {
  m_isInit : bool;
  m_isSocket : bool;
  m_sysNonblock : bool;
  m_userNonblock : bool;
  m_isClosed : bool;
  m_fd : Z;
  m_recvTimeout : Z;
  m_sendTimeout : Z
}.

(** [FdCtx::FdCtx(fd)] followed by [init()].  [st] is the answer of
    [fstat]: [None] when it returns -1, otherwise whether the mode is
    that of a socket.  (For a socket [init] also sets [O_NONBLOCK] on
    the descriptor, which is kernel state and not part of the
    registry.) *)
Definition new_FdCtx (fd : Z) (st : option bool) : FdCtx :=
  let is_init := match st with Some _ => true | None => false end in
  let is_socket := match st with Some b => b | None => false end in
  mkFdCtx is_init is_socket is_socket false false fd UINT64_MAX UINT64_MAX.

(** [FdCtx::getTimeout(type)]. *)
Definition getTimeout (c : FdCtx) (type : Z) : Z :=
  if type =? SO_RCVTIMEO then m_recvTimeout c
  else if type =? SO_SNDTIMEO then m_sendTimeout c
  else UINT64_MAX.

(** [class FdManager]: [m_datas], a vector of shared pointers, some of
    them null. *)
Record t : Type := mk { m_datas : list (option FdCtx) }.

(** [FdManager::FdManager()]. *)
Definition init : t := mk (replicate 64 None).

(** [std::vector::resize(n)] with null as the fill value. *)
Definition resize {A} (n : nat) (fill : A) (l : list A) : list A :=
  take n l ++ replicate (n - length l) fill.

(** [m_datas.size() <= fd]: the [int] is converted to [size_t]. *)
Definition size_le_fd (m : t) (fd : Z) : bool :=
  Z.of_nat (length (m_datas m)) <=? wrap64 fd.

(** [FdManager::get(fd, auto_create)].  The pointer returned is
    modelled by the value of the context at the time of the call. *)
Definition get (fd : Z) (auto_create : bool) (st : option bool) (m : t)
  : outcome (option FdCtx * t) :=
  let create (m : t) : outcome (option FdCtx * t) :=
    do d <- (if size_le_fd m fd
             then do n <- one_and_a_half fd; Ok (resize n None (m_datas m))
             else Ok (m_datas m));
    if wrap64 fd <? Z.of_nat (length d) then
      let c := new_FdCtx fd st in
      Ok (Some c, mk (<[index_of fd := Some c]> d))
    else Undefined in
  if fd =? -1 then Ok (None, m)
  else if size_le_fd m fd then
    if negb auto_create then Ok (None, m) else create m
  else
    match m_datas m !! index_of fd with
    | None => Undefined
    | Some entry =>
        match entry with
        | Some c => Ok (Some c, m)
        | None => if negb auto_create then Ok (None, m) else create m
        end
    end.

(** [FdManager::del(fd)]. *)
Definition del (fd : Z) (m : t) : t :=
  if size_le_fd m fd then m
  else mk (<[index_of fd := None]> (m_datas m)).

End FdManager.

(** ** Hook layer: the generic I/O template (hook.cc) *)

Module Hook.

Definition EINTR : Z := 4.
Definition EBADF : Z := 9.
Definition EAGAIN : Z := 11.
Definition ETIMEDOUT : Z := 110.

(** What [do_io] does to the rest of the system, in order. *)
Inductive Action : Type :=
| CallOriginal
| AddConditionTimer (timeout : Z)
| AddEvent (fd : Z) (event : Z)
| CancelTimer
| Yield.

(** The answers of the rest of the system: the value and [errno] of
    each call of the original function, the value of each
    [IOManager::addEvent], and the value of [tinfo->cancelled] found
    after each [yield] (set by the timeout callback). *)
Record Env : Type := mkEnv {
  original : list (Z * Z);
  addEvent_rt : list Z;
  cancelled : list Z
}.

(** The value returned, [errno] where the call determines it, and the
    actions performed. *)
Record Result : Type := mkResult {
  ret : Z;
  errno : option Z;
  trace : list Action
}.

(** [n = fun(fd, args...); while (n == -1 && errno == EINTR) n = fun(...)]:
    the answer kept, the answers left, and the number of calls. *)
Fixpoint call_retrying (answers : list (Z * Z))
  : option (Z * Z * list (Z * Z) * nat) :=
  match answers with
  | [] => None
  | (n, e) :: rest =>
      if (n =? -1) && (e =? EINTR) then
        match call_retrying rest with
        | Some (r, rest', k) => Some (r, rest', S k)
        | None => None
        end
      else Some (n, e, rest, 1%nat)
  end.

(** The part of [do_io] from the label [retry] on.  Each round calls the
    original function at least once; [None] when the answers run out. *)
Fixpoint retry (fuel : nat) (fd event timeout : Z) (env : Env)
    (tr : list Action) : option Result :=
  match fuel with
  | O => None
  | S fuel' =>
      match call_retrying (original env) with
      | None => None
      | Some (n, e, rest, k) =>
          let tr1 := tr ++ replicate k CallOriginal in
          if (n =? -1) && (e =? EAGAIN) then
            let has_timer := negb (timeout =? UINT64_MAX) in
            let tr2 :=
              if has_timer then tr1 ++ [AddConditionTimer timeout] else tr1 in
            match addEvent_rt env with
            | [] => None
            | rt :: rts =>
                let tr3 := tr2 ++ [AddEvent fd event] in
                let cancel := if has_timer then [CancelTimer] else [] in
                if rt =? -1 then Some (mkResult (-1) None (tr3 ++ cancel))
                else
                  match cancelled env with
                  | [] => None
                  | c :: cs =>
                      let tr4 := tr3 ++ [Yield] ++ cancel in
                      if c =? ETIMEDOUT
                      then Some (mkResult (-1) (Some ETIMEDOUT) tr4)
                      else retry fuel' fd event timeout (mkEnv rest rts cs) tr4
                  end
            end
          else Some (mkResult n (Some e) tr1)
      end
  end.

(** [return fun(fd, args...)]. *)
Definition call_original (env : Env) : option Result :=
  match original env with
  | [] => None
  | (n, e) :: _ => Some (mkResult n (Some e) [CallOriginal])
  end.

(** [do_io(fd, fun, hook_fun_name, event, timeout_so, args...)];
    [t_hook_enable] is the thread-local flag and [mgr] the registry
    [FdMgr::GetInstance()]. *)
Definition do_io (t_hook_enable : bool) (mgr : FdManager.t) (fd event : Z)
    (timeout_so : Z) (fuel : nat) (env : Env) : option Result :=
  if negb t_hook_enable then call_original env
  else
    match FdManager.get fd false None mgr with
    | Ok (None, _) => call_original env
    | Ok (Some ctx, _) =>
        if FdManager.m_isClosed ctx then
          Some (mkResult (-1) (Some EBADF) [])
        else if negb (FdManager.m_isSocket ctx) || FdManager.m_userNonblock ctx
        then call_original env
        else
          retry fuel fd event (FdManager.getTimeout ctx timeout_so) env []
    | _ => None
    end.

End Hook.

(** ** I/O manager (ioManager.h, ioManager.cc) *)

Module IOManager.

(** [enum Event]; [NONE] only occurs as the empty mask. *)
Inductive Event : Type := READ | WRITE.

Definition NONE : Z := 0.

Definition event_bits (e : Event) : Z :=
  match e with
  | READ => 1
  | WRITE => 4
  end.

(** The position of the bit of an event in a mask. *)
Definition bit_of (e : Event) : Z :=
  match e with
  | READ => 0
  | WRITE => 2
  end.

#[global] Instance Event_eq_dec : EqDecision Event.
Proof. solve_decision. Defined.

Definition EPOLLIN : Z := 1.
Definition EPOLLOUT : Z := 4.
Definition EPOLLERR : Z := 8.
Definition EPOLLHUP : Z := 16.
Definition EPOLLET : Z := Z.shiftl 1 31.

(** A [Scheduler*]: the I/O manager itself or another scheduler. *)
Inductive SchedPtr : Type :=
| This
| Other (n : nat).

(** [struct FdContext::EventContext]. *)
Record EventContext : Type := mkEventContext {
  scheduler : option SchedPtr;
  fiber : option FiberId;
  cb : option Callback
}.

Definition no_EventContext : EventContext := mkEventContext None None None.

(** [struct FdContext]. *)
Record FdContext : Type := mkFdContext {
  read : EventContext;
  write : EventContext;
  fd : Z;
  events : Z
}.

Definition set_events (e : Z) (c : FdContext) : FdContext :=
  mkFdContext (read c) (write c) (fd c) e.

(** [FdContext::getEventContext(event)], and the assignment through
    the reference it returns. *)
Definition getEventContext (event : Event) (c : FdContext) : EventContext :=
  match event with
  | READ => read c
  | WRITE => write c
  end.

Definition set_EventContext (event : Event) (ec : EventContext)
    (c : FdContext) : FdContext :=
  match event with
  | READ => mkFdContext ec (write c) (fd c) (events c)
  | WRITE => mkFdContext (read c) ec (fd c) (events c)
  end.

(** [FdContext::resetEventContext(ctx)] applied to the slot of [event]. *)
Definition resetEventContext (event : Event) (c : FdContext) : FdContext :=
  set_EventContext event no_EventContext c.

(** [fd_ctx->events & event]. *)
Definition armed (event : Event) (c : FdContext) : bool :=
  negb (Z.land (events c) (event_bits event) =? 0).

(** *** The kernel side: one epoll instance

    The interest list of [_m_epfd] maps a registered descriptor to its
    event mask and user data; [open_fds] are the descriptors the
    process has open.  [epoll_ctl] fails for a descriptor that is not
    open, for [ADD] of a registered one and for [MOD] or [DEL] of an
    unregistered one. *)
Inductive epoll_data : Type :=
| DataFd (n : Z)
| DataPtr (p : nat).

Inductive epoll_op : Type := EPOLL_CTL_ADD | EPOLL_CTL_DEL | EPOLL_CTL_MOD.

Record Epoll : Type := mkEpoll {
  interest : gmap Z (Z * epoll_data);
  open_fds : gset Z
}.

Definition epoll_ctl (op : epoll_op) (n : Z) (ev : Z * epoll_data)
    (k : Epoll) : Z * Epoll :=
  if negb (bool_decide (n ∈ open_fds k)) then (-1, k)
  else
    match op, interest k !! n with
    | EPOLL_CTL_ADD, None =>
        (0, mkEpoll (<[n := ev]> (interest k)) (open_fds k))
    | EPOLL_CTL_MOD, Some _ =>
        (0, mkEpoll (<[n := ev]> (interest k)) (open_fds k))
    | EPOLL_CTL_DEL, Some _ => (0, mkEpoll (delete n (interest k)) (open_fds k))
    | _, _ => (-1, k)
    end.

(** *** The manager

    [sched] is the [Scheduler] base sub-object, [epoll] the instance
    behind [_m_epfd], [pipe_bytes] the bytes waiting in the self-pipe,
    and [elsewhere] the tasks handed to other schedulers.  A
    [FdContext*] is modelled by the index of the context in
    [_m_fdContexts]: the context of a descriptor is created at that
    index and stays there. *)
Record t : Type := mk {
  sched : Scheduler.t;
  epoll : Epoll;
  _m_tickleFds : Z * Z;
  pipe_bytes : nat;
  _m_pendingEventCount : Z;
  _m_fdContexts : list FdContext;
  elsewhere : list (nat * Scheduler.ScheduleTask)
}.

Definition set_sched (b : Scheduler.t) (s : t) : t :=
  mk b (epoll s) (_m_tickleFds s) (pipe_bytes s) (_m_pendingEventCount s)
     (_m_fdContexts s) (elsewhere s).

Definition set_epoll (k : Epoll) (s : t) : t :=
  mk (sched s) k (_m_tickleFds s) (pipe_bytes s) (_m_pendingEventCount s)
     (_m_fdContexts s) (elsewhere s).

Definition set_pipe_bytes (n : nat) (s : t) : t :=
  mk (sched s) (epoll s) (_m_tickleFds s) n (_m_pendingEventCount s)
     (_m_fdContexts s) (elsewhere s).

Definition set_pending (n : Z) (s : t) : t :=
  mk (sched s) (epoll s) (_m_tickleFds s) (pipe_bytes s) n
     (_m_fdContexts s) (elsewhere s).

Definition set_fdContexts (l : list FdContext) (s : t) : t :=
  mk (sched s) (epoll s) (_m_tickleFds s) (pipe_bytes s)
     (_m_pendingEventCount s) l (elsewhere s).

Definition set_elsewhere (l : list (nat * Scheduler.ScheduleTask)) (s : t)
  : t :=
  mk (sched s) (epoll s) (_m_tickleFds s) (pipe_bytes s)
     (_m_pendingEventCount s) (_m_fdContexts s) l.

(** A line written to [std::cerr]. *)
Definition log_cerr (msg : string) (s : t) : t :=
  let b := sched s in
  set_sched
    (Scheduler.mk (Scheduler._m_tasks b) (Scheduler._m_threadCount b)
       (Scheduler._m_activeThreadCount b) (Scheduler._m_idleThreadCount b)
       (Scheduler._m_schedulerFiber b) (Scheduler._m_stopping b)
       (Scheduler.cerr b ++ [msg])) s.

(** [++_m_pendingEventCount] and [--_m_pendingEventCount] on the
    [std::atomic<size_t>]. *)
Definition incr_pending (s : t) : t :=
  set_pending (wrap64 (_m_pendingEventCount s + 1)) s.

Definition decr_pending (s : t) : t :=
  set_pending (wrap64 (_m_pendingEventCount s - 1)) s.

(** [IOManager::tickle()]. *)
Definition tickle (s : t) : outcome t :=
  if negb (Scheduler.hasIdleThreads (sched s)) then Ok s
  else Ok (set_pipe_bytes (S (pipe_bytes s)) s).

Definition scheduleLock : Scheduler.FiberOrCb -> Z -> t -> outcome t :=
  Scheduler.scheduleLock sched set_sched tickle.

(** [IOManager::contextResize(size)]: the vector is cut or extended to
    [size], and every empty slot [i] gets a fresh context with
    [fd = i].  (Contexts cut off by a shrinking resize are leaked by
    the source; the model forgets them.) *)
Definition new_FdContext (i : nat) : FdContext :=
  mkFdContext no_EventContext no_EventContext (Z.of_nat i) NONE.

Definition contextResize (size : nat) (s : t) : t :=
  let l := _m_fdContexts s in
  set_fdContexts
    (take size l ++ map new_FdContext (seq (length l) (size - length l))) s.

(** [FdContext::triggerEvent(event)] on the context at index [p]. *)
Definition triggerEvent (event : Event) (p : nat) (s : t) : outcome t :=
  match _m_fdContexts s !! p with
  | None => Undefined
  | Some c =>
      do _ <- assert (armed event c);
      let c1 :=
        set_events (Z.land (events c) (Z.lnot (event_bits event))) c in
      let ctx := getEventContext event c1 in
      let fc :=
        match cb ctx with
        | Some f => Scheduler.ByCb (Some f)
        | None => Scheduler.ByFiber (fiber ctx)
        end in
      let s1 :=
        set_fdContexts (<[p := resetEventContext event c1]> (_m_fdContexts s))
          s in
      match scheduler ctx with
      | None => Undefined
      | Some This => scheduleLock fc (-1) s1
      | Some (Other n) =>
          let task := Scheduler.make_task fc (-1) in
          if Scheduler.task_present task
          then Ok (set_elsewhere (elsewhere s1 ++ [(n, task)]) s1)
          else Ok s1
      end
  end.

(** The calling thread: [Scheduler::GetThis()], [Fiber::GetThis()] and
    whether that fiber is in state [RUNNING]. *)
Record Thread : Type := mkThread {
  t_scheduler : option SchedPtr;
  t_fiber : FiberId;
  t_fiber_running : bool
}.

(** [(int)_m_fdContexts.size() > fd]. *)
Definition size_gt_fd (s : t) (n : Z) : bool :=
  to_int (Z.of_nat (length (_m_fdContexts s))) >? n.

(** [IOManager::addEvent(fd, event, cb)]: first the part executed
    with the mutex of the context held, then the whole function. *)
Definition addEvent_locked (n : Z) (event : Event) (cb0 : option Callback)
    (th : Thread) (s1 : t) : outcome (Z * t) :=
  let p := index_of n in
  match _m_fdContexts s1 !! p with
  | None => Undefined
  | Some fd_ctx =>
      if armed event fd_ctx then Ok (-1, s1)
      else
        let op :=
          if negb (events fd_ctx =? 0) then EPOLL_CTL_MOD else EPOLL_CTL_ADD in
        let ev := Z.lor (Z.lor EPOLLET (events fd_ctx)) (event_bits event) in
        let '(rt, k) := epoll_ctl op n (ev, DataPtr p) (epoll s1) in
        if negb (rt =? 0)
        then Ok (-1, log_cerr "addEvent::epoll_ctl failed" s1)
        else
          let s2 := incr_pending (set_epoll k s1) in
          let c1 :=
            set_events (Z.lor (events fd_ctx) (event_bits event)) fd_ctx in
          let event_ctx := getEventContext event c1 in
          do _ <- assert (negb (bool_decide (is_Some (scheduler event_ctx)))
                          && negb (bool_decide (is_Some (fiber event_ctx)))
                          && negb (bool_decide (is_Some (cb event_ctx))));
          match cb0 with
          | Some f =>
              let ec := mkEventContext (t_scheduler th) None (Some f) in
              Ok (0, set_fdContexts
                       (<[p := set_EventContext event ec c1]>
                          (_m_fdContexts s2)) s2)
          | None =>
              let ec :=
                mkEventContext (t_scheduler th) (Some (t_fiber th)) None in
              do _ <- assert (t_fiber_running th);
              Ok (0, set_fdContexts
                       (<[p := set_EventContext event ec c1]>
                          (_m_fdContexts s2)) s2)
          end
  end.

Definition addEvent (n : Z) (event : Event) (cb0 : option Callback)
    (th : Thread) (s : t) : outcome (Z * t) :=
  do s1 <- (if size_gt_fd s n then Ok s
            else do size <- one_and_a_half n; Ok (contextResize size s));
  addEvent_locked n event cb0 th s1.

(** The common start of [delEvent] and [cancelEvent]: the lookup, the
    armed test and the kernel call.  [inl b] is an early [return b]. *)
Definition unregister (who : string) (n : Z) (event : Event) (s : t)
  : outcome (bool * t + nat * Z * t) :=
  if size_gt_fd s n then
    let p := index_of n in
    match _m_fdContexts s !! p with
    | None => Undefined
    | Some fd_ctx =>
        if negb (armed event fd_ctx) then Ok (inl (false, s))
        else
          let new_events :=
            Z.land (events fd_ctx) (Z.lnot (event_bits event)) in
          let op :=
            if negb (new_events =? 0) then EPOLL_CTL_MOD else EPOLL_CTL_DEL in
          let '(rt, k) :=
            epoll_ctl op n (Z.lor EPOLLET new_events, DataPtr p) (epoll s) in
          if negb (rt =? 0)
          then Ok (inl (true, log_cerr (who ++ "::epoll_ctl failed") s))
          else Ok (inr (p, new_events, decr_pending (set_epoll k s)))
    end
  else Ok (inl (false, s)).

(** [IOManager::delEvent(fd, event)].  On a kernel failure the source
    executes [return -1] in a function returning [bool]: the caller
    sees [true]. *)
Definition delEvent (n : Z) (event : Event) (s : t) : outcome (bool * t) :=
  do r <- unregister "delEvent" n event s;
  match r with
  | inl early => Ok early
  | inr (p, new_events, s1) =>
      match _m_fdContexts s1 !! p with
      | None => Undefined
      | Some fd_ctx =>
          let c1 := resetEventContext event (set_events new_events fd_ctx) in
          Ok (true, set_fdContexts (<[p := c1]> (_m_fdContexts s1)) s1)
      end
  end.

(** [IOManager::cancelEvent(fd, event)]. *)
Definition cancelEvent (n : Z) (event : Event) (s : t) : outcome (bool * t) :=
  do r <- unregister "cancelEvent" n event s;
  match r with
  | inl early => Ok early
  | inr (p, _, s1) => do s2 <- triggerEvent event p s1; Ok (true, s2)
  end.

(** [if (events & event) { triggerEvent(event); --_m_pendingEventCount; }]
    with the mask [mask] tested. *)
Definition fire_if (mask : Z) (event : Event) (p : nat) (s : t) : outcome t :=
  if negb (Z.land mask (event_bits event) =? 0)
  then do s1 <- triggerEvent event p s; Ok (decr_pending s1)
  else Ok s.

Definition events_at (p : nat) (s : t) : outcome Z :=
  match _m_fdContexts s !! p with
  | None => Undefined
  | Some c => Ok (events c)
  end.

(** [IOManager::cancelAll(fd)]. *)
Definition cancelAll (n : Z) (s : t) : outcome (bool * t) :=
  if size_gt_fd s n then
    let p := index_of n in
    match _m_fdContexts s !! p with
    | None => Undefined
    | Some fd_ctx =>
        if events fd_ctx =? 0 then Ok (false, s)
        else
          let '(rt, k) := epoll_ctl EPOLL_CTL_DEL n (0, DataPtr p) (epoll s) in
          if negb (rt =? 0)
          then Ok (true, log_cerr "cancelAll::epoll_ctl failed" s)
          else
            let s1 := set_epoll k s in
            do e1 <- events_at p s1;
            do s2 <- fire_if e1 READ p s1;
            do e2 <- events_at p s2;
            do s3 <- fire_if e2 WRITE p s2;
            do e3 <- events_at p s3;
            do _ <- assert (e3 =? 0);
            Ok (true, s3)
    end
  else Ok (false, s).

(** One round of the [for] loop of [IOManager::idle()] over the events
    reported by [epoll_wait]: [data] and [revents] are the user data
    and the mask of the reported event.  The only registration whose
    data is a descriptor is that of the self-pipe, which is read until
    it is empty. *)
Definition idle_event (data : epoll_data) (revents : Z) (s : t) : outcome t :=
  match data with
  | DataFd n =>
      if n =? fst (_m_tickleFds s) then Ok (set_pipe_bytes O s) else Undefined
  | DataPtr p =>
      match _m_fdContexts s !! p with
      | None => Undefined
      | Some fd_ctx =>
          let revents1 :=
            if negb (Z.land revents (Z.lor EPOLLERR EPOLLHUP) =? 0)
            then Z.lor revents
                   (Z.land (Z.lor EPOLLIN EPOLLOUT) (events fd_ctx))
            else revents in
          let real_events :=
            Z.lor (if negb (Z.land revents1 EPOLLIN =? 0)
                   then event_bits READ else NONE)
                  (if negb (Z.land revents1 EPOLLOUT =? 0)
                   then event_bits WRITE else NONE) in
          if Z.land (events fd_ctx) real_events =? NONE then Ok s
          else
            let left_events := Z.land (events fd_ctx) (Z.lnot real_events) in
            let op :=
              if negb (left_events =? 0) then EPOLL_CTL_MOD
              else EPOLL_CTL_DEL in
            let '(rt2, k) :=
              epoll_ctl op (fd fd_ctx) (Z.lor EPOLLET left_events, data)
                (epoll s) in
            if negb (rt2 =? 0) then Ok (log_cerr "idle::epoll_ctl failed" s)
            else
              do s1 <- fire_if real_events READ p (set_epoll k s);
              fire_if real_events WRITE p s1
      end
  end.

Fixpoint idle_events (evs : list (epoll_data * Z)) (s : t) : outcome t :=
  match evs with
  | [] => Ok s
  | (data, revents) :: rest =>
      do s1 <- idle_event data revents s; idle_events rest s1
  end.

(** The manager once [IOManager::IOManager] has created the epoll
    instance and the pipe, registered the read end and sized the
    context table (before [start()]). *)
Definition init (b : Scheduler.t) (fds : Z * Z) (opened : gset Z) : t :=
  contextResize 32
    (mk b
       (mkEpoll {[ fst fds := (Z.lor EPOLLIN EPOLLET, DataFd (fst fds)) ]}
          opened)
       fds O 0 [] []).

(** *** Runs of the manager *)

(** The number of armed directions of a context, and of the table. *)
Definition armed_count (c : FdContext) : nat :=
  (if armed READ c then 1 else 0) + (if armed WRITE c then 1 else 0).

Definition armed_total (s : t) : nat :=
  sum_list_with armed_count (_m_fdContexts s).

(** The armed mask of a descriptor ([NONE] when it has no context yet)
    and its registration in the interest list. *)
Definition armed_mask (s : t) (n : Z) : Z :=
  if n <? 0 then NONE
  else
    match _m_fdContexts s !! Z.to_nat n with
    | Some c => events c
    | None => NONE
    end.

Definition registration (s : t) (n : Z) : option (Z * epoll_data) :=
  interest (epoll s) !! n.

(** The registration that mirrors a mask: none for the empty mask,
    otherwise the mask, edge-triggered, with the context as user
    data. *)
Definition mirror (mask : Z) (p : nat) : option (Z * epoll_data) :=
  if mask =? 0 then None else Some (Z.lor EPOLLET mask, DataPtr p).

(** The calls that arm or clear events. *)
Inductive Call : Type :=
| CallAddEvent (n : Z) (event : Event) (cb0 : option Callback) (th : Thread)
| CallDelEvent (n : Z) (event : Event)
| CallCancelEvent (n : Z) (event : Event)
| CallCancelAll (n : Z)
| CallIdle (evs : list (epoll_data * Z)).

Definition run (c : Call) (s : t) : outcome t :=
  match c with
  | CallAddEvent n event cb0 th =>
      do r <- addEvent n event cb0 th s; Ok (snd r)
  | CallDelEvent n event => do r <- delEvent n event s; Ok (snd r)
  | CallCancelEvent n event => do r <- cancelEvent n event s; Ok (snd r)
  | CallCancelAll n => do r <- cancelAll n s; Ok (snd r)
  | CallIdle evs => idle_events evs s
  end.

(** The descriptor of a call is an [int], and the size
    [(size_t)(fd * 1.5)] requested by [addEvent] still fits an [int],
    so that the cast in [(int)_m_fdContexts.size()] keeps the size. *)
Definition is_int (n : Z) : Prop := - 2 ^ 31 <= n <= INT_MAX.

Definition fits_int (c : Call) : Prop :=
  match c with
  | CallAddEvent n _ _ _ => is_int n /\ Z.quot (n * 3) 2 <= INT_MAX
  | CallDelEvent n _ => is_int n
  | CallCancelEvent n _ => is_int n
  | CallCancelAll n => is_int n
  | CallIdle _ => True
  end.

(** What the rest of the runtime changes in the manager: the scheduler
    sub-object (worker loops, submissions), the self-pipe and the
    tasks handed elsewhere. *)
Definition same_io (s s' : t) : Prop :=
  epoll s' = epoll s /\ _m_tickleFds s' = _m_tickleFds s /\
  _m_pendingEventCount s' = _m_pendingEventCount s /\
  _m_fdContexts s' = _m_fdContexts s.

Inductive reachable (s0 : t) : t -> Prop :=
| reach_init : reachable s0 s0
| reach_call s c s' :
    reachable s0 s -> fits_int c -> run c s = Ok s' -> reachable s0 s'
| reach_env s s' : reachable s0 s -> same_io s s' -> reachable s0 s'.

(** The invariant of the runs: the pending counter is the number of
    armed directions, the table fits an [int], every context sits at
    the index of its descriptor, the interest list mirrors the armed
    masks, and the read end of the self-pipe stays registered and is
    never armed. *)
Record Inv (s : t) : Prop := mkInv {
  inv_count : _m_pendingEventCount s = Z.of_nat (armed_total s);
  inv_size : Z.of_nat (length (_m_fdContexts s)) <= INT_MAX;
  inv_fd : forall i c, _m_fdContexts s !! i = Some c -> fd c = Z.of_nat i;
  inv_mirror : forall n, n <> fst (_m_tickleFds s) ->
                 registration s n = mirror (armed_mask s n) (Z.to_nat n);
  inv_pipe : is_Some (registration s (fst (_m_tickleFds s)));
  inv_pipe_unarmed : armed_mask s (fst (_m_tickleFds s)) = NONE
}.

End IOManager.

(** ** The worker loop: taking a task (scheduler.cc, Scheduler::run) *)

Module Worker.

Definition set_active (n : Z) (s : Scheduler.t) : Scheduler.t :=
  Scheduler.mk (Scheduler._m_tasks s) (Scheduler._m_threadCount s) n
    (Scheduler._m_idleThreadCount s) (Scheduler._m_schedulerFiber s)
    (Scheduler._m_stopping s) (Scheduler.cerr s).

(** A task that the worker [thread_id] does not skip:
    [it->_thread == -1 || it->_thread == thread_id]. *)
Definition eligible (thread_id : Z) (t : Scheduler.ScheduleTask) : bool :=
  negb (negb (Scheduler._thread t =? -1)
        && negb (Scheduler._thread t =? thread_id)).

(** The [while] loop over [_m_tasks] in the critical section of
    [run()], with the statement
    [tickle_me = tickle_me || (it != _m_tasks.end())] that follows it:
    the task taken, the queue left, and [tickle_me].  Once a task has
    been skipped [tickle_me] is true and the comparison is not
    evaluated.  When the loop ends without a task, [it] is
    [_m_tasks.end()].  When the first task of the queue is the one
    taken, the comparison is evaluated on the iterator that
    [_m_tasks.erase(it)] has invalidated: the language gives it no
    value, and the flag is [None]. *)
Fixpoint pick (thread_id : Z) (l : list Scheduler.ScheduleTask)
  : outcome (option Scheduler.ScheduleTask * list Scheduler.ScheduleTask
             * option bool) :=
  match l with
  | [] => Ok (None, [], Some false)
  | t :: l' =>
      if negb (Scheduler._thread t =? -1)
         && negb (Scheduler._thread t =? thread_id)
      then
        do r <- pick thread_id l';
        Ok (fst (fst r), t :: snd (fst r), Some true)
      else
        do _ <- assert (Scheduler.task_present t);
        Ok (Some t, l', None)
  end.

(** The critical section of one round of [run()]; the caller calls
    [tickle()] when the flag returned is set ([None]: the flag that
    the source computes from the invalidated iterator). *)
Definition take (thread_id : Z) (s : Scheduler.t)
  : outcome (option Scheduler.ScheduleTask * option bool * Scheduler.t) :=
  do r <- pick thread_id (Scheduler._m_tasks s);
  let s1 := Scheduler.set_tasks (snd (fst r)) s in
  match fst (fst r) with
  | Some t =>
      Ok (Some t, snd r,
          set_active (wrap64 (Scheduler._m_activeThreadCount s1 + 1)) s1)
  | None => Ok (None, snd r, s1)
  end.

(** [_m_activeThreadCount--] once the task taken has been resumed. *)
Definition finish (s : Scheduler.t) : Scheduler.t :=
  set_active (wrap64 (Scheduler._m_activeThreadCount s - 1)) s.

(** Consecutive rounds of one worker while nobody else touches the
    queue: the tasks it takes, in order, until a round takes none. *)
Fixpoint rounds (n : nat) (thread_id : Z) (s : Scheduler.t)
  : outcome (list Scheduler.ScheduleTask * Scheduler.t) :=
  match n with
  | O => Ok ([], s)
  | S n' =>
      do r <- take thread_id s;
      match fst (fst r) with
      | None => Ok ([], snd r)
      | Some t =>
          do r' <- rounds n' thread_id (finish (snd r));
          Ok (t :: fst r', snd r')
      end
  end.

(** Submissions one after the other ([scheduleLock] of the base
    class). *)
Fixpoint submit_all (l : list (Scheduler.FiberOrCb * Z)) (s : Scheduler.t)
  : outcome Scheduler.t :=
  match l with
  | [] => Ok s
  | (fc, thr) :: l' =>
      do s1 <- Scheduler.scheduleLock_base fc thr s; submit_all l' s1
  end.

End Worker.

(** ** Sequences of timer insertions *)

Module TimerSeq.

(** [addTimer] calls one after the other, with no [getNextTimer] in
    between: the [at_front] flags, that is, the calls of
    [onTimerInsertedAtFront()]. *)
Fixpoint add_all (l : list (Z * option Callback * bool * Z))
    (m : Timer.TimerManager) : list bool * Timer.TimerManager :=
  match l with
  | [] => ([], m)
  | (ms, cb, recurring, now) :: l' =>
      let r := Timer.addTimer ms cb recurring now m in
      let r' := add_all l' (snd r) in
      (snd (fst r) :: fst r', snd r')
  end.



(** The value of a [uint64_t] converted to the signed 64-bit count of
    a [std::chrono] duration. *)
Definition to_int64 (z : Z) : Z := (z + 2 ^ 63) mod 2 ^ 64 - 2 ^ 63.

(** [std::chrono::milliseconds(ms)] for a [uint64_t] period [ms], as
    the count of nanoseconds that is added to a time point: the count
    of milliseconds is [ms] converted to a signed 64-bit integer, and
    its product by 10^6 is undefined when it overflows. *)
Definition chrono_milliseconds (ms : Z) : outcome Z :=
  let ns := to_int64 ms * 1000000 in
  if (- 2 ^ 63 <=? ns) && (ns <? 2 ^ 63) then Ok ns else Undefined.

(** A period that these conversions keep: a [uint64_t] whose count of
    nanoseconds is below 2^63 (a little over 292 years). *)
Definition in_range (ms : Z) : Prop := 0 <= ms /\ ms * 1000000 < 2 ^ 63.

End TimerSeq.

(** ** Members of FdCtx called through the registry
    (fdManager.h, fdManager.cc) *)

Module FdOps.

(** [FdCtx::setUserNonblock(v)] and [FdCtx::setSysNonblock(v)]. *)
Definition setUserNonblock (v : bool) (c : FdManager.FdCtx)
  : FdManager.FdCtx :=
  FdManager.mkFdCtx (FdManager.m_isInit c) (FdManager.m_isSocket c)
    (FdManager.m_sysNonblock c) v (FdManager.m_isClosed c)
    (FdManager.m_fd c) (FdManager.m_recvTimeout c)
    (FdManager.m_sendTimeout c).

Definition setSysNonblock (v : bool) (c : FdManager.FdCtx)
  : FdManager.FdCtx :=
  FdManager.mkFdCtx (FdManager.m_isInit c) (FdManager.m_isSocket c)
    v (FdManager.m_userNonblock c) (FdManager.m_isClosed c)
    (FdManager.m_fd c) (FdManager.m_recvTimeout c)
    (FdManager.m_sendTimeout c).

(** [FdCtx::setTimeout(type, v)]; for an invalid type both members
    are assigned -1, that is [UINT64_MAX]. *)
Definition setTimeout (type v : Z) (c : FdManager.FdCtx) : FdManager.FdCtx :=
  if type =? FdManager.SO_RCVTIMEO then
    FdManager.mkFdCtx (FdManager.m_isInit c) (FdManager.m_isSocket c)
      (FdManager.m_sysNonblock c) (FdManager.m_userNonblock c)
      (FdManager.m_isClosed c) (FdManager.m_fd c) v
      (FdManager.m_sendTimeout c)
  else if type =? FdManager.SO_SNDTIMEO then
    FdManager.mkFdCtx (FdManager.m_isInit c) (FdManager.m_isSocket c)
      (FdManager.m_sysNonblock c) (FdManager.m_userNonblock c)
      (FdManager.m_isClosed c) (FdManager.m_fd c)
      (FdManager.m_recvTimeout c) v
  else
    FdManager.mkFdCtx (FdManager.m_isInit c) (FdManager.m_isSocket c)
      (FdManager.m_sysNonblock c) (FdManager.m_userNonblock c)
      (FdManager.m_isClosed c) (FdManager.m_fd c) UINT64_MAX UINT64_MAX.

(** [get(fd)], with the default [auto_create = false]: the context
    found. *)
Definition lookup (fd : Z) (m : FdManager.t)
  : outcome (option FdManager.FdCtx) :=
  do r <- FdManager.get fd false None m; Ok (fst r).

(** The pointer returned by [get(fd)] shares the object held in slot
    [fd] of the registry: a member function that writes to the object
    writes to the slot. *)
Definition store (fd : Z) (c : FdManager.FdCtx) (m : FdManager.t)
  : FdManager.t :=
  FdManager.mk (<[index_of fd := Some c]> (FdManager.m_datas m)).

(** [get(fd)->f(...)]; the call through a null pointer is undefined. *)
Definition through (fd : Z) (f : FdManager.FdCtx -> FdManager.FdCtx)
    (m : FdManager.t) : outcome FdManager.t :=
  do r <- FdManager.get fd false None m;
  match fst r with
  | Some c => Ok (store fd (f c) (snd r))
  | None => Undefined
  end.

(** The calls on the registry and on its contexts. *)
Inductive Call : Type :=
| CallGet (fd : Z) (auto_create : bool) (st : option bool)
| CallDel (fd : Z)
| CallSetTimeout (fd type v : Z)
| CallSetUserNonblock (fd : Z) (v : bool)
| CallSetSysNonblock (fd : Z) (v : bool).

Definition run (c : Call) (m : FdManager.t) : outcome FdManager.t :=
  match c with
  | CallGet fd auto_create st =>
      do r <- FdManager.get fd auto_create st m; Ok (snd r)
  | CallDel fd => Ok (FdManager.del fd m)
  | CallSetTimeout fd type v => through fd (setTimeout type v) m
  | CallSetUserNonblock fd v => through fd (setUserNonblock v) m
  | CallSetSysNonblock fd v => through fd (setSysNonblock v) m
  end.

(** The descriptor of a call is an [int]. *)
Definition fits (c : Call) : Prop :=
  let fd :=
    match c with
    | CallGet fd _ _ => fd
    | CallDel fd => fd
    | CallSetTimeout fd _ _ => fd
    | CallSetUserNonblock fd _ => fd
    | CallSetSysNonblock fd _ => fd
    end in
  - 2 ^ 31 <= fd <= INT_MAX.

Inductive reachable : FdManager.t -> Prop :=
| reach_init : reachable FdManager.init
| reach_call m c m' :
    reachable m -> fits c -> run c m = Ok m' -> reachable m'.

(** The registry never shrinks below its initial size nor grows
    beyond one and a half times the largest [int], every context sits
    in the slot of its descriptor, and none is marked closed. *)
Definition ok (m : FdManager.t) : Prop :=
  (64 <= length (FdManager.m_datas m))%nat /\
  Z.of_nat (length (FdManager.m_datas m)) <= 2 ^ 32 /\
  forall i c, FdManager.m_datas m !! i = Some (Some c) ->
    FdManager.m_fd c = Z.of_nat i /\ FdManager.m_isClosed c = false.

End FdOps.

(** ** Hooks that use the fd registry (hook.cc) *)

Module HookFd.

Definition O_NONBLOCK : Z := 2048.
Definition SOL_SOCKET : Z := 1.

(** [fcntl(fd, F_SETFL, arg)]: the argument handed to the original
    [fcntl], and the registry afterwards. *)
Definition fcntl_SETFL (fd arg : Z) (m : FdManager.t)
  : outcome (Z * FdManager.t) :=
  do r <- FdManager.get fd false None m;
  match fst r with
  | None => Ok (arg, snd r)
  | Some ctx =>
      if FdManager.m_isClosed ctx || negb (FdManager.m_isSocket ctx)
      then Ok (arg, snd r)
      else
        let ctx1 :=
          FdOps.setUserNonblock (negb (Z.land arg O_NONBLOCK =? 0)) ctx in
        let arg1 :=
          if FdManager.m_sysNonblock ctx1 then Z.lor arg O_NONBLOCK
          else Z.land arg (Z.lnot O_NONBLOCK) in
        Ok (arg1, FdOps.store fd ctx1 (snd r))
  end.

(** [fcntl(fd, F_GETFL)]: [flags] is the answer of the original
    [fcntl]; the value returned to the caller. *)
Definition fcntl_GETFL (fd flags : Z) (m : FdManager.t) : outcome Z :=
  do r <- FdManager.get fd false None m;
  match fst r with
  | None => Ok flags
  | Some ctx =>
      if FdManager.m_isClosed ctx || negb (FdManager.m_isSocket ctx)
      then Ok flags
      else if FdManager.m_userNonblock ctx then Ok (Z.lor flags O_NONBLOCK)
      else Ok (Z.land flags (Z.lnot O_NONBLOCK))
  end.

(** [ioctl(fd, FIONBIO, arg)], with [value] the [int] that [arg]
    points to: the registry before the original [ioctl] is called. *)
Definition ioctl_FIONBIO (fd value : Z) (m : FdManager.t)
  : outcome FdManager.t :=
  let user_nonblock := negb (value =? 0) in
  do r <- FdManager.get fd false None m;
  match fst r with
  | None => Ok (snd r)
  | Some ctx =>
      if FdManager.m_isClosed ctx || negb (FdManager.m_isSocket ctx)
      then Ok (snd r)
      else Ok (FdOps.store fd (FdOps.setUserNonblock user_nonblock ctx)
                 (snd r))
  end.

(** [v->tv_sec * 1000 + v->tv_usec / 1000] in [long] arithmetic
    (overflow is undefined), converted to [uint64_t]. *)
Definition in_long (z : Z) : bool := (- 2 ^ 63 <=? z) && (z <? 2 ^ 63).

Definition timeval_ms (tv_sec tv_usec : Z) : outcome Z :=
  let a := tv_sec * 1000 in
  if negb (in_long a) then Undefined
  else
    let b := a + Z.quot tv_usec 1000 in
    if negb (in_long b) then Undefined else Ok (wrap64 b).

(** [setsockopt(sockfd, level, optname, optval, optlen)] with
    [optval] pointing to the [timeval] [(tv_sec, tv_usec)]: the
    registry before the original [setsockopt] is called. *)
Definition setsockopt (t_hook_enable : bool) (sockfd level optname : Z)
    (tv_sec tv_usec : Z) (m : FdManager.t) : outcome FdManager.t :=
  if negb t_hook_enable then Ok m
  else if level =? SOL_SOCKET then
    if (optname =? FdManager.SO_RCVTIMEO) || (optname =? FdManager.SO_SNDTIMEO)
    then
      do r <- FdManager.get sockfd false None m;
      match fst r with
      | Some ctx =>
          do v <- timeval_ms tv_sec tv_usec;
          Ok (FdOps.store sockfd (FdOps.setTimeout optname v ctx) (snd r))
      | None => Ok (snd r)
      end
    else Ok m
  else Ok m.

(** [socket(domain, type, protocol)]: [fd] is the answer of the
    original [socket] and [st] that of [fstat] on it. *)
Definition socket (t_hook_enable : bool) (fd : Z) (st : option bool)
    (m : FdManager.t) : outcome (Z * FdManager.t) :=
  if negb t_hook_enable then Ok (fd, m)
  else if fd =? -1 then Ok (fd, m)
  else do r <- FdManager.get fd true st m; Ok (fd, snd r).

(** The hooks built on [do_io]: the event waited for and the timeout
    consulted. *)
Definition read_like (t_hook_enable : bool) (m : FdManager.t) (fd : Z)
    (fuel : nat) (env : Hook.Env) : option Hook.Result :=
  Hook.do_io t_hook_enable m fd (IOManager.event_bits IOManager.READ)
    FdManager.SO_RCVTIMEO fuel env.

Definition write_like (t_hook_enable : bool) (m : FdManager.t) (fd : Z)
    (fuel : nat) (env : Hook.Env) : option Hook.Result :=
  Hook.do_io t_hook_enable m fd (IOManager.event_bits IOManager.WRITE)
    FdManager.SO_SNDTIMEO fuel env.

(** [accept(sockfd, addr, addrlen)]: [st] is the answer of [fstat] on
    the descriptor accepted. *)
Definition accept (t_hook_enable : bool) (m : FdManager.t) (sockfd : Z)
    (st : option bool) (fuel : nat) (env : Hook.Env)
  : option (Hook.Result * outcome FdManager.t) :=
  match read_like t_hook_enable m sockfd fuel env with
  | None => None
  | Some r =>
      if Hook.ret r >=? 0
      then Some (r, do x <- FdManager.get (Hook.ret r) true st m; Ok (snd x))
      else Some (r, Ok m)
  end.

(** [close(fd)]: [iom] is [IOManager::GetThis()]; the I/O manager and
    the registry before the original [close] is called. *)
Definition close (t_hook_enable : bool) (fd : Z) (iom : option IOManager.t)
    (m : FdManager.t) : outcome (option IOManager.t * FdManager.t) :=
  if negb t_hook_enable then Ok (iom, m)
  else
    do r <- FdManager.get fd false None m;
    match fst r with
    | Some _ =>
        do iom1 <- match iom with
                   | Some s => do x <- IOManager.cancelAll fd s; Ok (Some (snd x))
                   | None => Ok None
                   end;
        Ok (iom1, FdManager.del fd (snd r))
    | None => Ok (iom, snd r)
    end.

(** The number of timers armed and of timers cancelled in a trace. *)
Definition is_add_timer (a : Hook.Action) : bool :=
  match a with Hook.AddConditionTimer _ => true | _ => false end.

Definition is_cancel_timer (a : Hook.Action) : bool :=
  match a with Hook.CancelTimer => true | _ => false end.

Definition is_call (a : Hook.Action) : bool :=
  match a with Hook.CallOriginal => true | _ => false end.

Definition count (f : Hook.Action -> bool) (tr : list Hook.Action) : nat :=
  length (List.filter f tr).

End HookFd.

(** ** The sleeping hooks (hook.cc) *)

Module HookSleep.

(** The period handed to [addTimer]: [seconds * 1000] in
    [unsigned int] arithmetic for [sleep], [usec / 1000] for [usleep],
    and for [nanosleep] the [long] value
    [tv_sec * 1000 + tv_nsec / 1000 / 1000] stored in an [int] and
    converted to [uint64_t]. *)
Definition sleep_ms (seconds : Z) : Z := (seconds * 1000) mod 2 ^ 32.

Definition usleep_ms (usec : Z) : Z := usec / 1000.

Definition nanosleep_ms (tv_sec tv_nsec : Z) : outcome Z :=
  let a := tv_sec * 1000 in
  if negb (HookFd.in_long a) then Undefined
  else
    let b := a + Z.quot (Z.quot tv_nsec 1000) 1000 in
    if negb (HookFd.in_long b) then Undefined else Ok (wrap64 (to_int b)).

(** [sleep], [usleep] and [nanosleep] with the hook enabled: a timer
    whose callback [cb] schedules the calling fiber is added, the
    fiber yields, and 0 is returned once it is resumed.  [None] stands
    for the call of the original function. *)
Definition sleep (t_hook_enable : bool) (seconds : Z) (cb : Callback)
    (now : Z) (m : Timer.TimerManager)
  : option (Timer.TimerPtr * bool * Timer.TimerManager) :=
  if negb t_hook_enable then None
  else Some (Timer.addTimer (sleep_ms seconds) (Some cb) false now m).

Definition usleep (t_hook_enable : bool) (usec : Z) (cb : Callback)
    (now : Z) (m : Timer.TimerManager)
  : option (Timer.TimerPtr * bool * Timer.TimerManager) :=
  if negb t_hook_enable then None
  else Some (Timer.addTimer (usleep_ms usec) (Some cb) false now m).

Definition nanosleep (t_hook_enable : bool) (tv_sec tv_nsec : Z)
    (cb : Callback) (now : Z) (m : Timer.TimerManager)
  : option (outcome (Timer.TimerPtr * bool * Timer.TimerManager)) :=
  if negb t_hook_enable then None
  else Some (do ms <- nanosleep_ms tv_sec tv_nsec;
             Ok (Timer.addTimer ms (Some cb) false now m)).

End HookSleep.

(** ** Stopping of the I/O manager, and the slots of a context
    (ioManager.cc) *)

Module IOStop.

(** [IOManager::stopping()]; [tm] is the [TimerManager] base
    sub-object. *)
Definition stopping (now : Z) (tm : Timer.TimerManager) (s : IOManager.t)
  : outcome (bool * Timer.TimerManager) :=
  do r <- Timer.getNextTimer now tm;
  Ok ((fst r =? UINT64_MAX)
      && (IOManager._m_pendingEventCount s =? 0)
      && Scheduler.stopping (IOManager.sched s), snd r).

(** The mask of a context holds no bit besides [READ] and [WRITE],
    and the slot of a direction that is not armed is empty. *)
Definition slot_ok (c : IOManager.FdContext) : Prop :=
  Z.land (IOManager.events c) (Z.lnot 5) = 0 /\
  forall e, IOManager.armed e c = false ->
            IOManager.getEventContext e c = IOManager.no_EventContext.

Definition Slots (s : IOManager.t) : Prop :=
  Forall slot_ok (IOManager._m_fdContexts s).

(** The tasks queued in the scheduler of the manager. *)
Definition tasks (s : IOManager.t) : list Scheduler.ScheduleTask :=
  Scheduler._m_tasks (IOManager.sched s).

End IOStop.

(** ** The expired timers in the idle loop (ioManager.cc) *)

Module IOIdle.




End IOIdle.

(** ** Fibers: state and thread-local pointers (fiber.h, fiber.cc) *)

Module Fiber.

Inductive State : Type := READY | RUNNING | TERM.

#[global] Instance State_eq_dec : EqDecision State.
Proof. solve_decision. Defined.

(** The data members of [class Fiber] that the member functions test
    or assign; [_m_stack] tells whether the stack pointer is set.  The
    saved context [_m_ctx] is not modelled: a switch of context shows
    as the change of the current fiber. *)
Record t : Type := mkFiber {
  _m_state : State;
  _m_cb : option Callback;
  _m_runInScheduler : bool;
  _m_stack : bool
}.

(** The fibers of a thread, by address, and its thread-local
    pointers [t_fiber], [t_thread_fiber] and [t_scheduler_fiber]. *)
Record Thread : Type := mkThread {
  fibers : list t;
  t_fiber : option nat;
  t_thread_fiber : option nat;
  t_scheduler_fiber : option nat
}.

Definition set_fiber (this : nat) (f : t) (th : Thread) : Thread :=
  mkThread (<[this := f]> (fibers th)) (t_fiber th) (t_thread_fiber th)
    (t_scheduler_fiber th).

(** [Fiber::SetThis(f)]. *)
Definition SetThis (f : option nat) (th : Thread) : Thread :=
  mkThread (fibers th) f (t_thread_fiber th) (t_scheduler_fiber th).

(** [Fiber::GetThis()]: the first call on a thread creates the main
    fiber, running, which is also the scheduler fiber. *)
Definition GetThis (th : Thread) : outcome (nat * Thread) :=
  match t_fiber th with
  | Some f => Ok (f, th)
  | None =>
      let main := length (fibers th) in
      Ok (main,
          mkThread (fibers th ++ [mkFiber RUNNING None false false])
            (Some main) (Some main) (Some main))
  end.

(** [Fiber::Fiber(cb, stacksize, run_in_scheduler)]. *)
Definition create (cb : option Callback) (run_in_scheduler : bool)
    (th : Thread) : nat * Thread :=
  (length (fibers th),
   mkThread (fibers th ++ [mkFiber READY cb run_in_scheduler true])
     (t_fiber th) (t_thread_fiber th) (t_scheduler_fiber th)).

(** [Fiber::reset(cb)]. *)
Definition reset (this : nat) (cb : option Callback) (th : Thread)
  : outcome Thread :=
  match fibers th !! this with
  | None => Undefined
  | Some f =>
      do _ <- assert (_m_stack f && bool_decide (_m_state f = TERM));
      Ok (set_fiber this
            (mkFiber READY cb (_m_runInScheduler f) (_m_stack f)) th)
  end.

(** The fiber that [resume] and [yield] switch with; the pointer is
    dereferenced. *)
Definition partner (f : t) (th : Thread) : outcome nat :=
  match (if _m_runInScheduler f then t_scheduler_fiber th
         else t_thread_fiber th) with
  | Some g => Ok g
  | None => Undefined
  end.

(** [Fiber::resume()]. *)
Definition resume (this : nat) (th : Thread) : outcome Thread :=
  match fibers th !! this with
  | None => Undefined
  | Some f =>
      do _ <- assert (bool_decide (_m_state f = READY));
      let f1 := mkFiber RUNNING (_m_cb f) (_m_runInScheduler f) (_m_stack f) in
      let th1 := SetThis (Some this) (set_fiber this f1 th) in
      do _ <- partner f1 th1;
      Ok th1
  end.

(** [Fiber::yield()]. *)
Definition yield (this : nat) (th : Thread) : outcome Thread :=
  match fibers th !! this with
  | None => Undefined
  | Some f =>
      do _ <- assert (bool_decide (_m_state f = RUNNING)
                      || bool_decide (_m_state f = TERM));
      let f1 :=
        if negb (bool_decide (_m_state f = TERM))
        then mkFiber READY (_m_cb f) (_m_runInScheduler f) (_m_stack f)
        else f in
      let th1 := set_fiber this f1 th in
      do g <- partner f1 th1;
      Ok (SetThis (Some g) th1)
  end.

(** [Fiber::MainFunc()] from the return of the callback on; [curr] is
    the fiber that [GetThis()] gave at its start. *)
Definition MainFunc_end (curr : nat) (th : Thread) : outcome Thread :=
  match fibers th !! curr with
  | None => Undefined
  | Some f =>
      let f1 := mkFiber TERM None (_m_runInScheduler f) (_m_stack f) in
      yield curr (set_fiber curr f1 th)
  end.

Definition state_of (this : nat) (th : Thread) : option State :=
  _m_state <$> fibers th !! this.

End Fiber.

(** ** Notions of the specification *)

(** Modelled on the words of the specification: the ceiling of 1.5
    times [fd]. *)
Definition ceil_one_and_a_half (fd : Z) : Z := (fd * 3 + 1) / 2.

(** * Properties *)

(** ** Fixed-width arithmetic *)

Lemma wrap64_small z : 0 <= z < UINT64_MOD -> wrap64 z = z.
Proof. intros H. unfold wrap64. now apply Z.mod_small. Qed.

Lemma to_int_small z : 0 <= z <= INT_MAX -> to_int z = z.
Proof.
  intros H. unfold to_int, INT_MAX in *.
  rewrite Z.mod_small; lia.
Qed.

Lemma index_of_small n : 0 <= n < UINT64_MOD -> index_of n = Z.to_nat n.
Proof. intros H. unfold index_of. now rewrite wrap64_small. Qed.

Lemma quot_three_halves n : 0 <= n -> Z.quot (n * 3) 2 = n * 3 / 2.
Proof. intros H. apply Z.quot_div_nonneg; lia. Qed.

(** ** Scheduler *)

Lemma scheduleLock_base_eq fc thr s :
  Scheduler.scheduleLock_base fc thr s =
  Ok (if Scheduler.task_present (Scheduler.make_task fc thr)
      then Scheduler.set_tasks
             (Scheduler._m_tasks s ++ [Scheduler.make_task fc thr]) s
      else s).
Proof.
  unfold Scheduler.scheduleLock_base, Scheduler.scheduleLock, Scheduler.tickle.
  now destruct (Scheduler.is_empty _).
Qed.

(** C5, as stated, fails: after [stop()] has set the stopping flag, a
    submitted callback is appended to the task queue and nothing is
    written to the error stream. *)
Lemma C5_submit_after_stop_counterexample :
  let s0 := Scheduler.mk [] 1 0 0 None false [] in
  let task := Scheduler.mkTask None (Some 7%nat) (-1) in
  exists s1 s2,
    Scheduler.stop_begin_base true s0 = Ok s1 /\
    Scheduler._m_stopping s1 = true /\
    Scheduler.scheduleLock_base (Scheduler.ByCb (Some 7%nat)) (-1) s1 = Ok s2 /\
    Scheduler._m_tasks s1 = [] /\
    Scheduler._m_tasks s2 = [task] /\
    Scheduler.cerr s2 = Scheduler.cerr s1.
Proof. simpl. eexists _, _. repeat split; reflexivity. Qed.

(** C5 (amended): a submission after the stopping flag has been set is
    handled like any other.  The flag is not consulted: a task that
    holds a fiber or a callback is appended at the end of the queue, an
    empty one leaves the queue unchanged, and nothing is written to
    the error stream. *)
Theorem C5_submit_after_stop fc thr s :
  Scheduler._m_stopping s = true ->
  exists s',
    Scheduler.scheduleLock_base fc thr s = Ok s' /\
    Scheduler._m_tasks s' =
      (if Scheduler.task_present (Scheduler.make_task fc thr)
       then Scheduler._m_tasks s ++ [Scheduler.make_task fc thr]
       else Scheduler._m_tasks s) /\
    Scheduler.cerr s' = Scheduler.cerr s /\
    Scheduler._m_stopping s' = true.
Proof.
  intros Hstop. rewrite scheduleLock_base_eq. eexists. split; [reflexivity|].
  destruct (Scheduler.task_present _); simpl; auto.
Qed.

Lemma C5_submit_after_stop_witness :
  let s := Scheduler.mk [] 1 0 0 None true [] in
  exists s',
    Scheduler.scheduleLock_base (Scheduler.ByFiber (Some 3%nat)) (-1) s
      = Ok s' /\
    Scheduler._m_tasks s' = [Scheduler.mkTask (Some 3%nat) None (-1)] /\
    Scheduler.cerr s' = [] /\
    Scheduler._m_stopping s' = true.
Proof.
  exact (C5_submit_after_stop (Scheduler.ByFiber (Some 3%nat)) (-1)
           (Scheduler.mk [] 1 0 0 None true []) eq_refl).
Defined.

(** ** Hook layer *)

(** The [isClosed()] test of [do_io]: were the context of the fd
    marked closed, [do_io] would set [errno] to [EBADF] and return -1
    without calling the original function.  ([m_isClosed] is assigned
    nowhere; see [reachable_ok] for the registries that the calls
    build.) *)
Lemma do_io_closed_guard mgr fd event timeout_so fuel env ctx mgr' :
  FdManager.get fd false None mgr = Ok (Some ctx, mgr') ->
  FdManager.m_isClosed ctx = true ->
  Hook.do_io true mgr fd event timeout_so fuel env =
    Some (Hook.mkResult (-1) (Some Hook.EBADF) []).
Proof.
  intros Hget Hclosed. unfold Hook.do_io. simpl.
  rewrite Hget, Hclosed. reflexivity.
Qed.

(** ** Growth of the fd tables *)

Lemma resize_length {A} n (fill : A) l :
  length (FdManager.resize n fill l) = n.
Proof.
  unfold FdManager.resize. rewrite length_app, length_take, length_replicate.
  lia.
Qed.

Lemma contextResize_length size s :
  length (IOManager._m_fdContexts (IOManager.contextResize size s)) = size.
Proof.
  unfold IOManager.contextResize. simpl.
  rewrite length_app, length_take, length_map, length_seq. lia.
Qed.

Lemma contextResize_lookup_old size s i c :
  (length (IOManager._m_fdContexts s) <= size)%nat ->
  IOManager._m_fdContexts s !! i = Some c ->
  IOManager._m_fdContexts (IOManager.contextResize size s) !! i = Some c.
Proof.
  intros Hle Hi. unfold IOManager.contextResize. simpl.
  rewrite take_ge by lia. now apply lookup_app_l_Some.
Qed.

Lemma contextResize_lookup_new size s i :
  (length (IOManager._m_fdContexts s) <= i < size)%nat ->
  IOManager._m_fdContexts (IOManager.contextResize size s) !! i =
    Some (IOManager.new_FdContext i).
Proof.
  intros Hi. unfold IOManager.contextResize. simpl.
  rewrite take_ge by lia. rewrite lookup_app_r by lia.
  rewrite list_lookup_fmap.
  rewrite lookup_seq_lt by lia. simpl. f_equal. f_equal. lia.
Qed.

(** C9, as stated, fails for an odd fd: [addEvent] on fd 33 grows the
    32-entry context table to 49 entries and [FdManager::get] on fd 65
    grows the 64-entry registry to 97, where the ceiling of 1.5 times
    the fd is 50 and 98. *)
Lemma C9_growth_counterexample :
  let th := IOManager.mkThread (Some IOManager.This) 1%nat true in
  let b := Scheduler.mk [] 1 0 0 None false [] in
  (exists r s',
     IOManager.addEvent 33 IOManager.READ (Some 1%nat) th
       (IOManager.init b (3, 4) {[3; 4; 33]}) = Ok (r, s') /\
     length (IOManager._m_fdContexts s') = 49%nat /\
     ceil_one_and_a_half 33 = 50) /\
  (exists c m',
     FdManager.get 65 true (Some true) FdManager.init = Ok (c, m') /\
     length (FdManager.m_datas m') = 97%nat /\
     ceil_one_and_a_half 65 = 98).
Proof.
  split.
  - eexists _, _. split; [vm_compute; reflexivity|]. split; reflexivity.
  - eexists _, _. split; [vm_compute; reflexivity|]. split; reflexivity.
Qed.

(** C9 (amended): for every fd at or beyond the current capacity,
    [addEvent] grows the fd-context table, and [FdManager::get] with
    [auto_create] set grows the registry, to exactly 1.5 times fd
    rounded down (the product is truncated to an integer). *)
Theorem C9_growth :
  (forall n event cb0 th s,
     2 <= n <= INT_MAX ->
     Z.of_nat (length (IOManager._m_fdContexts s)) <= n ->
     match IOManager.addEvent n event cb0 th s with
     | Ok (_, s') =>
         Z.of_nat (length (IOManager._m_fdContexts s')) = n * 3 / 2
     | AssertFail => cb0 = None /\ IOManager.t_fiber_running th = false
     | Undefined => False
     end) /\
  (forall fd st m,
     2 <= fd <= INT_MAX ->
     Z.of_nat (length (FdManager.m_datas m)) <= fd ->
     exists m',
       FdManager.get fd true st m = Ok (Some (FdManager.new_FdCtx fd st), m') /\
       Z.of_nat (length (FdManager.m_datas m')) = fd * 3 / 2).
Proof.
  split.
  - intros n event cb0 th s Hn Hlen. unfold INT_MAX in Hn.
    assert (Hq : Z.quot (n * 3) 2 = n * 3 / 2)
      by (apply quot_three_halves; lia).
    assert (Hgrow : n + 1 <= n * 3 / 2)
      by (apply Z.div_le_lower_bound; lia).
    unfold IOManager.addEvent, IOManager.addEvent_locked, IOManager.size_gt_fd.
    rewrite to_int_small by (unfold INT_MAX; lia).
    destruct (Z.gtb_spec (Z.of_nat (length (IOManager._m_fdContexts s))) n)
      as [Hgt|_]; [lia|].
    unfold one_and_a_half. destruct (Z.ltb_spec n 0) as [?|_]; [lia|].
    cbn [obind]. rewrite Hq.
    rewrite index_of_small by (unfold UINT64_MOD; lia).
    rewrite contextResize_lookup_new by lia.
    set (s1 := IOManager.contextResize _ s).
    assert (Hlen1 : Z.of_nat (length (IOManager._m_fdContexts s1)) = n * 3 / 2).
    { subst s1. rewrite contextResize_length. lia. }
    assert (Harm : IOManager.armed event (IOManager.new_FdContext (Z.to_nat n))
                   = false) by (destruct event; reflexivity).
    rewrite Harm. cbn [IOManager.new_FdContext IOManager.events].
    change (negb (IOManager.NONE =? 0)) with false. cbv iota.
    destruct (IOManager.epoll_ctl _ _ _ _) as [rt k].
    destruct (negb (rt =? 0)); [exact Hlen1|].
    assert (Hempty :
      forall e, IOManager.getEventContext event
        (IOManager.set_events e
           (IOManager.mkFdContext IOManager.no_EventContext
              IOManager.no_EventContext (Z.of_nat (Z.to_nat n)) IOManager.NONE))
      = IOManager.no_EventContext) by (intros e; destruct event; reflexivity).
    rewrite Hempty. cbn [assert obind IOManager.no_EventContext
      IOManager.scheduler IOManager.fiber IOManager.cb].
    destruct cb0 as [f|].
    + cbn. rewrite length_insert. exact Hlen1.
    + destruct (IOManager.t_fiber_running th); cbn.
      * rewrite length_insert. exact Hlen1.
      * auto.
  - intros fd st m Hfd Hlen. unfold INT_MAX in Hfd.
    assert (Hq : Z.quot (fd * 3) 2 = fd * 3 / 2)
      by (apply quot_three_halves; lia).
    assert (Hgrow : fd + 1 <= fd * 3 / 2)
      by (apply Z.div_le_lower_bound; lia).
    unfold FdManager.get.
    destruct (Z.eqb_spec fd (-1)) as [?|_]; [lia|].
    assert (Hle : FdManager.size_le_fd m fd = true).
    { unfold FdManager.size_le_fd.
      rewrite wrap64_small by (unfold UINT64_MOD; lia). now apply Z.leb_le. }
    rewrite Hle. cbn [negb].
    unfold one_and_a_half. destruct (Z.ltb_spec fd 0) as [?|_]; [lia|].
    cbn [obind]. rewrite Hq, resize_length.
    rewrite wrap64_small by (unfold UINT64_MOD; lia).
    destruct (Z.ltb_spec fd (Z.of_nat (Z.to_nat (fd * 3 / 2)))) as [_|?];
      [|lia].
    eexists. split; [reflexivity|].
    cbn. rewrite length_insert, resize_length. lia.
Qed.

Lemma C9_growth_witness :
  (let th := IOManager.mkThread (Some IOManager.This) 1%nat true in
   let s := IOManager.init (Scheduler.mk [] 1 0 0 None false []) (3, 4)
              {[3; 4; 40]} in
   match IOManager.addEvent 40 IOManager.WRITE None th s with
   | Ok (_, s') => Z.of_nat (length (IOManager._m_fdContexts s')) = 40 * 3 / 2
   | AssertFail => @None Callback = None /\ IOManager.t_fiber_running th = false
   | Undefined => False
   end) /\
  (exists m',
     FdManager.get 71 true None FdManager.init =
       Ok (Some (FdManager.new_FdCtx 71 None), m') /\
     Z.of_nat (length (FdManager.m_datas m')) = 71 * 3 / 2).
Proof.
  split.
  - apply (proj1 C9_growth); [unfold INT_MAX; lia | vm_compute; discriminate].
  - apply (proj2 C9_growth); [unfold INT_MAX; lia | vm_compute; discriminate].
Defined.

(** ** Timers *)

Lemma to_milliseconds_pos ns :
  0 <= ns -> Timer.to_milliseconds ns = ns / 1000000.
Proof.
  intros H. unfold Timer.to_milliseconds. apply Z.quot_div_nonneg; lia.
Qed.

Lemma wf_head_live m p rest :
  Timer.wf m -> Timer._m_timers m = p :: rest ->
  exists t, Timer.objects m !! p = Some t /\
            Timer.earliest m (Timer._m_next t).
Proof.
  intros [Hord Hlive] Hl. unfold Timer.live in Hlive. rewrite Hl in Hlive.
  apply Forall_cons in Hlive as [Hp _].
  destruct (lookup_lt_is_Some_2 _ _ Hp) as [t Ht].
  exists t. split; [exact Ht|].
  unfold Timer.ordered, Timer.earliest, Timer.deadlines in *.
  rewrite Hl in *. cbn [map] in *.
  assert (Hd : Timer.deadline (Timer.objects m) p = Timer._m_next t).
    { unfold Timer.deadline. now rewrite Ht. }
  rewrite Hd in *. split; [now left|].
  apply StronglySorted_inv in Hord as [_ Hall].
  apply Forall_cons. split; [lia|].
  eapply Forall_impl; [exact Hall|]. intros; simpl in *; lia.
Qed.

(** C8: [getNextTimer()] always clears the tickled flag (and changes
    nothing else); it returns [UINT64_MAX] when the set is empty, 0
    when the earliest deadline is not after the current time, and
    otherwise the whole number of milliseconds from the current time
    to the earliest deadline. *)
Theorem C8_getNextTimer now m :
  Timer.wf m ->
  exists r,
    Timer.getNextTimer now m = Ok (r, Timer.set_tickled false m) /\
    Timer._m_tickled (Timer.set_tickled false m) = false /\
    ((Timer._m_timers m = [] /\ r = UINT64_MAX) \/
     (exists d, Timer.earliest m d /\
        ((d <= now /\ r = 0) \/
         (now < d /\ r = (d - now) / 1000000)))).
Proof.
  intros Hwf. unfold Timer.getNextTimer.
  destruct (Timer._m_timers m) as [|p rest] eqn:Hl; cbn [Timer.set_tickled
    Timer._m_timers Timer.objects]; rewrite Hl.
  - eexists. split; [reflexivity|]. split; [reflexivity|]. now left.
  - destruct (wf_head_live m p rest Hwf Hl) as (t & Ht & Hear).
    rewrite Ht. destruct (Z.leb_spec (Timer._m_next t) now) as [Hle|Hgt].
    + eexists. split; [reflexivity|]. split; [reflexivity|].
      right. exists (Timer._m_next t). split; [exact Hear|]. left. now split.
    + eexists. split; [reflexivity|]. split; [reflexivity|].
      right. exists (Timer._m_next t). split; [exact Hear|]. right.
      split; [exact Hgt|]. apply to_milliseconds_pos. lia.
Qed.

Lemma C8_getNextTimer_witness :
  let m := snd (Timer.addTimer 10 (Some 1%nat) false 0 (Timer.init 0)) in
  exists r,
    Timer.getNextTimer 3000000 m = Ok (r, Timer.set_tickled false m) /\
    Timer._m_tickled (Timer.set_tickled false m) = false /\
    ((Timer._m_timers m = [] /\ r = UINT64_MAX) \/
     (exists d, Timer.earliest m d /\
        ((d <= 3000000 /\ r = 0) \/
         (3000000 < d /\ r = (d - 3000000) / 1000000)))).
Proof.
  apply C8_getNextTimer. split.
  - repeat constructor.
  - repeat constructor.
Defined.

(** *** The ordered set *)

Section OrderedSetFacts.
Variable o : list Timer.Timer.
Local Abbreviation key := (Timer.deadline o).
Local Abbreviation lt := (Timer.Comparator o).
Local Abbreviation sorted l := (StronglySorted Z.lt (map key l)).

Lemma Comparator_lt a b : lt a b = true <-> key a < key b.
Proof. unfold Timer.Comparator. apply Z.ltb_lt. Qed.

Lemma Comparator_ge a b : lt a b = false <-> key b <= key a.
Proof. unfold Timer.Comparator. apply Z.ltb_ge. Qed.

Lemma sorted_tail x l : sorted (x :: l) -> sorted l.
Proof. intros H. now apply StronglySorted_inv in H. Qed.

Lemma sorted_head x l : sorted (x :: l) -> Forall (fun y => key x < key y) l.
Proof.
  intros H. apply StronglySorted_inv in H as [_ H].
  exact (proj1 (Forall_map _ _ _) H).
Qed.

Lemma sorted_cons x l :
  sorted l -> Forall (fun y => key x < key y) l -> sorted (x :: l).
Proof.
  intros Hs Hx. cbn [map]. constructor; [exact Hs|].
  exact (proj2 (Forall_map _ _ _) Hx).
Qed.

Lemma set_insert_elems x l :
  Forall (fun y => y = x \/ In y l) (fst (Timer.set_insert lt x l)).
Proof.
  induction l as [|y l IH]; cbn [Timer.set_insert].
  - repeat constructor.
  - destruct (lt y x).
    + destruct (Timer.set_insert lt x l) as [r i]. cbn [fst] in *.
      constructor; [right; now left|].
      eapply Forall_impl; [exact IH|]. cbn. intros z [?|?]; auto.
    + destruct (lt x y); cbn [fst].
      * constructor; [now left|]. apply Forall_forall. intros z Hz.
        right. now apply list_elem_of_In.
      * apply Forall_forall. intros z Hz. right. now apply list_elem_of_In.
Qed.

Lemma set_insert_sorted x l :
  sorted l -> sorted (fst (Timer.set_insert lt x l)).
Proof.
  induction l as [|y l IH]; intros Hs; cbn [Timer.set_insert].
  - repeat constructor.
  - destruct (lt y x) eqn:Hyx.
    + pose proof (set_insert_elems x l) as Hel.
      destruct (Timer.set_insert lt x l) as [r i]. cbn [fst] in *.
      apply sorted_cons; [apply IH; eapply sorted_tail; eauto|].
      pose proof (sorted_head _ _ Hs) as Hh.
      eapply Forall_impl; [exact Hel|]. cbn. intros z [->|Hz].
      * now apply Comparator_lt.
      * rewrite Forall_forall in Hh. apply Hh. now apply list_elem_of_In.
    + destruct (lt x y) eqn:Hxy; cbn [fst]; [|exact Hs].
      apply sorted_cons; [exact Hs|].
      apply Comparator_lt in Hxy. constructor; [exact Hxy|].
      pose proof (sorted_head _ _ Hs) as Hh.
      eapply Forall_impl; [exact Hh|]. cbn. intros; lia.
Qed.

(** A key equal to that of a member is not inserted. *)
Lemma set_insert_tie x y l :
  sorted l -> In y l -> key y = key x ->
  fst (Timer.set_insert lt x l) = l.
Proof.
  induction l as [|z l IH]; intros Hs Hin Hk; [destruct Hin|].
  cbn [Timer.set_insert]. destruct (lt z x) eqn:Hzx.
  - destruct Hin as [->|Hin].
    + apply Comparator_lt in Hzx. lia.
    + specialize (IH (sorted_tail _ _ Hs) Hin Hk).
      destruct (Timer.set_insert lt x l) as [r i]. cbn [fst] in *. now subst.
  - destruct (lt x z) eqn:Hxz; [|reflexivity].
    exfalso. apply Comparator_lt in Hxz. destruct Hin as [->|Hin]; [lia|].
    pose proof (sorted_head _ _ Hs) as Hh. rewrite Forall_forall in Hh.
    apply list_elem_of_In in Hin. specialize (Hh _ Hin). cbn in Hh. lia.
Qed.

(** [find] answers for a key exactly when a member has an equal
    deadline, and then with the position of that member. *)
Lemma set_find_Some x l i :
  Timer.set_find lt x l = Some i ->
  exists y, l !! i = Some y /\ key y = key x.
Proof.
  revert i. induction l as [|z l IH]; intros i; cbn [Timer.set_find];
    [discriminate|].
  destruct (lt z x) eqn:Hzx.
  - destruct (Timer.set_find lt x l) as [j|]; [|discriminate].
    cbn. intros [= <-]. destruct (IH j eq_refl) as (y & Hy & Hk). eauto.
  - destruct (lt x z) eqn:Hxz; [discriminate|]. intros [= <-].
    exists z. split; [reflexivity|].
    apply Comparator_ge in Hzx, Hxz. lia.
Qed.

Lemma set_find_None x l :
  sorted l -> Timer.set_find lt x l = None ->
  Forall (fun y => key y <> key x) l.
Proof.
  induction l as [|z l IH]; intros Hs; cbn [Timer.set_find]; [constructor|].
  destruct (lt z x) eqn:Hzx.
  - destruct (Timer.set_find lt x l) eqn:Hf; [discriminate|]. intros _.
    apply Comparator_lt in Hzx. constructor; [lia|].
    apply IH; [eapply sorted_tail; eauto | reflexivity].
  - destruct (lt x z) eqn:Hxz; [|discriminate]. intros _.
    apply Comparator_lt in Hxz. constructor; [lia|].
    pose proof (sorted_head _ _ Hs) as Hh.
    eapply Forall_impl; [exact Hh|]. cbn. intros; lia.
Qed.

Lemma set_find_member x l :
  sorted l -> In x l ->
  exists i, Timer.set_find lt x l = Some i /\ l !! i = Some x.
Proof.
  induction l as [|z l IH]; intros Hs Hin; [destruct Hin|].
  cbn [Timer.set_find]. destruct (lt z x) eqn:Hzx.
  - destruct Hin as [->|Hin]; [apply Comparator_lt in Hzx; lia|].
    destruct (IH (sorted_tail _ _ Hs) Hin) as (i & Hf & Hi).
    exists (S i). rewrite Hf. split; [reflexivity|exact Hi].
  - destruct (lt x z) eqn:Hxz.
    + exfalso. apply Comparator_lt in Hxz. destruct Hin as [->|Hin]; [lia|].
      pose proof (sorted_head _ _ Hs) as Hh. rewrite Forall_forall in Hh.
      apply list_elem_of_In in Hin. specialize (Hh _ Hin). cbn in Hh. lia.
    + destruct Hin as [->|Hin]; [exists O; now split|].
      exfalso. apply Comparator_ge in Hzx, Hxz.
      pose proof (sorted_head _ _ Hs) as Hh. rewrite Forall_forall in Hh.
      apply list_elem_of_In in Hin. specialize (Hh _ Hin). cbn in Hh. lia.
Qed.

Lemma set_erase_sorted i l : sorted l -> sorted (Timer.set_erase i l).
Proof.
  unfold Timer.set_erase. revert i.
  induction l as [|z l IH]; intros i Hs; [destruct i; exact Hs|].
  destruct i as [|i]; cbn [delete list_delete].
  - eapply sorted_tail; eauto.
  - apply sorted_cons; [apply IH; eapply sorted_tail; eauto|].
    apply Forall_delete. eapply sorted_head; eauto.
Qed.

(** After [erase(find(x))] the key [x] itself is not in the set. *)
Lemma set_find_erase_notin x l i :
  sorted l -> Timer.set_find lt x l = Some i ->
  ~ In x (Timer.set_erase i l).
Proof.
  unfold Timer.set_erase. revert i.
  induction l as [|z l IH]; intros i Hs; cbn [Timer.set_find]; [discriminate|].
  destruct (lt z x) eqn:Hzx.
  - destruct (Timer.set_find lt x l) as [j|] eqn:Hf; [|discriminate].
    cbn. intros [= <-]. cbn [delete list_delete]. intros [->|Hin].
    + apply Comparator_lt in Hzx. lia.
    + now apply (IH j (sorted_tail _ _ Hs) eq_refl).
  - destruct (lt x z) eqn:Hxz; [discriminate|]. intros [= <-].
    cbn [delete list_delete]. intros Hin.
    apply Comparator_ge in Hzx, Hxz.
    pose proof (sorted_head _ _ Hs) as Hh. rewrite Forall_forall in Hh.
    apply list_elem_of_In in Hin. specialize (Hh _ Hin). cbn in Hh. lia.
Qed.

End OrderedSetFacts.

(** *** Objects and deadlines *)

Lemma deadline_lookup o p t :
  o !! p = Some t -> Timer.deadline o p = Timer._m_next t.
Proof. intros H. unfold Timer.deadline. now rewrite H. Qed.

Lemma deadlines_alloc o t l :
  Forall (fun p => (p < length o)%nat) l ->
  map (Timer.deadline (o ++ [t])) l = map (Timer.deadline o) l.
Proof.
  intros Hl. apply map_ext_Forall. eapply Forall_impl; [exact Hl|].
  cbn. intros p Hp. unfold Timer.deadline. now rewrite lookup_app_l.
Qed.

Lemma deadlines_update o this t l :
  ~ In this l ->
  map (Timer.deadline (<[this := t]> o)) l = map (Timer.deadline o) l.
Proof.
  intros Hn. apply map_ext_in. intros p Hp. unfold Timer.deadline.
  rewrite list_lookup_insert_ne; [reflexivity|]. intros ->. contradiction.
Qed.

Lemma deadlines_update_same o this t t' l :
  o !! this = Some t -> Timer._m_next t' = Timer._m_next t ->
  map (Timer.deadline (<[this := t']> o)) l = map (Timer.deadline o) l.
Proof.
  intros Ht Hn. apply map_ext. intros p. unfold Timer.deadline.
  destruct (decide (this = p)) as [->|Hne].
  - rewrite list_lookup_insert_eq by (eapply lookup_lt_Some; eauto).
    now rewrite Ht.
  - now rewrite list_lookup_insert_ne.
Qed.

(** C6, at the failing input: a timer added with a deadline equal to
    that of a timer of the set is not retained.  The object is created
    and its handle returned, but the set is left as it was. *)
Theorem C6_equal_deadline_not_retained ms cb recurring now m y :
  Timer.wf m -> In y (Timer._m_timers m) ->
  Timer.deadline (Timer.objects m) y = now + Timer.milliseconds ms ->
  exists at_front m',
    Timer.addTimer ms cb recurring now m =
      (length (Timer.objects m), at_front, m') /\
    Timer._m_timers m' = Timer._m_timers m /\
    ~ In (length (Timer.objects m)) (Timer._m_timers m') /\
    Timer.objects m' !! length (Timer.objects m) =
      Some (Timer.mkTimer recurring ms (now + Timer.milliseconds ms) cb).
Proof.
  intros [Hord Hlive] Hin Hdl. unfold Timer.addTimer, Timer.addTimer_ptr.
  cbn [Timer.set_objects Timer.objects Timer._m_timers Timer._m_tickled].
  set (t := Timer.mkTimer recurring ms (now + Timer.milliseconds ms) cb).
  set (o := Timer.objects m ++ [t]).
  assert (Hmap : map (Timer.deadline o) (Timer._m_timers m) =
                 map (Timer.deadline (Timer.objects m)) (Timer._m_timers m))
    by (apply deadlines_alloc; exact Hlive).
  assert (Hnew : Timer.deadline o (length (Timer.objects m)) =
                 now + Timer.milliseconds ms).
  { apply (deadline_lookup _ _ t). subst o.
    rewrite lookup_app_r by lia. now rewrite Nat.sub_diag. }
  assert (Hy : Timer.deadline o y =
               Timer.deadline o (length (Timer.objects m))).
  { rewrite Hnew, <- Hdl. unfold Timer.deadline. subst o.
    rewrite lookup_app_l; [reflexivity|].
    unfold Timer.live in Hlive. rewrite Forall_forall in Hlive.
    apply Hlive. now apply list_elem_of_In. }
  pose proof (set_insert_tie o (length (Timer.objects m)) y
                (Timer._m_timers m)) as Htie.
  rewrite Hmap in Htie. specialize (Htie Hord Hin Hy).
  destruct (Timer.set_insert _ _ _) as [l it]. cbn [fst] in Htie. subst l.
  assert (Hnot : ~ In (length (Timer.objects m)) (Timer._m_timers m)).
  { intros Hc. unfold Timer.live in Hlive. rewrite Forall_forall in Hlive.
    apply list_elem_of_In in Hc. specialize (Hlive _ Hc). cbn in Hlive. lia. }
  assert (Hobj : o !! length (Timer.objects m) = Some t).
  { subst o. rewrite lookup_app_r by lia. now rewrite Nat.sub_diag. }
  destruct (Nat.eqb it 0 && negb (Timer._m_tickled m));
    eexists _, _; (split; [reflexivity|]); cbn; auto.
Qed.

Lemma C6_equal_deadline_not_retained_witness :
  let m := snd (Timer.addTimer 10 (Some 1%nat) false 5 (Timer.init 0)) in
  exists at_front m',
    Timer.addTimer 10 (Some 2%nat) false 5 m = (1%nat, at_front, m') /\
    Timer._m_timers m' = [O] /\
    ~ In 1%nat (Timer._m_timers m') /\
    Timer.objects m' !! 1%nat =
      Some (Timer.mkTimer false 10 10000005 (Some 2%nat)).
Proof.
  apply (C6_equal_deadline_not_retained 10 (Some 2%nat) false 5
           (snd (Timer.addTimer 10 (Some 1%nat) false 5 (Timer.init 0))) O).
  - split; repeat constructor.
  - now left.
  - reflexivity.
Defined.

(** [reset(ms, from_now)] with [from_now = false] and [ms] equal to
    the current period returns true and changes neither the timer nor
    the manager, whatever the callback and the set; every other reset
    of a timer whose callback is cleared, or for which [find] gives
    [end()], returns false and changes nothing either.  In both cases
    [onTimerInsertedAtFront] is not called.  [find] gives [end()]
    when no timer of the set has the deadline of the timer, which is
    more than the absence of the timer itself. *)
Lemma reset_noop_or_refused this ms from_now now m t :
  Timer.objects m !! this = Some t ->
  (ms = Timer._m_ms t /\ from_now = false) \/
  Timer._m_cb t = None \/
  Timer.set_find (Timer.Comparator (Timer.objects m)) this (Timer._m_timers m)
    = None ->
  Timer.reset this ms from_now now m =
    Ok ((ms =? Timer._m_ms t) && negb from_now, false, m).
Proof.
  intros Ht Hcase. unfold Timer.reset. rewrite Ht.
  destruct ((ms =? Timer._m_ms t) && negb from_now) eqn:Hc; [reflexivity|].
  destruct Hcase as [[-> ->]|Hcase].
  - now rewrite Z.eqb_refl in Hc.
  - destruct (Timer._m_cb t) as [f|]; [|reflexivity].
    destruct Hcase as [?|Hf]; [discriminate|]. now rewrite Hf.
Qed.

(** A timer that [find] does not locate is not an element of the set;
    the converse needs, besides, that no element has its deadline. *)
Lemma set_find_None_not_member this m :
  Timer.wf m ->
  Timer.set_find (Timer.Comparator (Timer.objects m)) this (Timer._m_timers m)
    = None ->
  ~ In this (Timer._m_timers m).
Proof.
  intros [Hord _] Hf Hin.
  destruct (set_find_member (Timer.objects m) this _ Hord Hin) as (i & Hi & _).
  congruence.
Qed.

Lemma reset_noop_or_refused_example :
  let cleared := Timer.mkTimer false 10 10000000 None in
  let m := Timer.mkManager [cleared] [] false 0 in
  Timer.reset O 10 false 7 m = Ok (true, false, m) /\
  Timer.reset O 25 false 7 m = Ok (false, false, m) /\
  Timer.reset O 10 true 7 m = Ok (false, false, m).
Proof.
  pose (cleared := Timer.mkTimer false 10 10000000 None).
  pose (m := Timer.mkManager [cleared] [] false 0).
  split; [|split].
  - apply (reset_noop_or_refused O 10 false 7 m cleared eq_refl).
    left. now split.
  - apply (reset_noop_or_refused O 25 false 7 m cleared eq_refl).
    right. now left.
  - apply (reset_noop_or_refused O 10 true 7 m cleared eq_refl).
    right. now right.
Defined.

(** *** Draining *)

Lemma detectClockRollover_records now m :
  Timer._m_previouseTimer (snd (Timer.detectClockRollover now m)) = now.
Proof. reflexivity. Qed.

(** The drain that follows records the reading, so that the next one
    reports a rollover only after a further jump. *)
Lemma detectClockRollover_once now now' m :
  now - Timer.milliseconds (60 * 60 * 1000) <= now' ->
  fst (Timer.detectClockRollover now'
         (snd (Timer.detectClockRollover now m))) = false.
Proof.
  intros H. cbn. apply Z.ltb_ge. exact H.
Qed.

Lemma drain_recurring_diverges fuel now ms nxt cb tk prev cbs :
  Timer.drain fuel true now
    (Timer.mkManager [Timer.mkTimer true ms nxt cb] [O] tk prev) cbs = None.
Proof.
  revert nxt cbs. induction fuel as [|fuel IH]; intros nxt cbs; [reflexivity|].
  cbn. apply IH.
Qed.

(** C7, at the failing input: with a recurring timer in the set, the
    drain that observes a clock more than one hour behind the recorded
    one never ends: the loop of [listExpiredCb] pops the timer, puts it
    back and pops it again, whatever the number of rounds it is
    given. *)
Theorem C7_rollover_drain_diverges fuel ms nxt cb tk prev now now2 cbs :
  now2 < prev - Timer.milliseconds (60 * 60 * 1000) ->
  Timer.listExpiredCb fuel now now2
    (Timer.mkManager [Timer.mkTimer true ms nxt cb] [O] tk prev) cbs = None.
Proof.
  intros Hjump. unfold Timer.listExpiredCb, Timer.detectClockRollover.
  cbn [Timer._m_previouseTimer Timer.set_previouseTimer Timer.objects
       Timer._m_timers Timer._m_tickled].
  apply Z.ltb_lt in Hjump. rewrite Hjump. apply drain_recurring_diverges.
Qed.

Lemma C7_rollover_drain_diverges_witness :
  Timer.listExpiredCb 1000 0 0
    (Timer.mkManager [Timer.mkTimer true 50 7200050000000 (Some 1%nat)] [O]
       false 7200000000000) [] = None.
Proof.
  apply C7_rollover_drain_diverges. vm_compute. reflexivity.
Defined.

Lemma drain_S fuel rollover now m cbs :
  Timer.drain (S fuel) rollover now m cbs =
  match Timer._m_timers m with
  | [] => Some (Ok (cbs, m))
  | temp :: rest =>
      match Timer.objects m !! temp with
      | None => Some Undefined
      | Some t =>
          if rollover || (Timer._m_next t <=? now) then
            if Timer._m_recurring t then
              let o :=
                <[temp := Timer.set_next
                            (now + Timer.milliseconds (Timer._m_ms t)) t]>
                  (Timer.objects m) in
              let '(l, _) := Timer.set_insert (Timer.Comparator o) temp rest in
              Timer.drain fuel rollover now
                (Timer.set_timers l (Timer.set_objects o m))
                (cbs ++ [Timer._m_cb t])
            else
              Timer.drain fuel rollover now
                (Timer.set_timers rest
                   (Timer.set_objects
                      (<[temp := Timer.set_cb None t]> (Timer.objects m)) m))
                (cbs ++ [Timer._m_cb t])
          else Some (Ok (cbs, m))
      end
  end.
Proof. reflexivity. Qed.

(** Without recurring timers the same drain empties the set in as many
    rounds as it has timers, and hands over one callback per timer. *)
Lemma drain_rollover_nonrecurring now m cbs :
  Forall (fun p => exists t, Timer.objects m !! p = Some t /\
                             Timer._m_recurring t = false)
         (Timer._m_timers m) ->
  NoDup (Timer._m_timers m) ->
  exists m',
    Timer.drain (S (length (Timer._m_timers m))) true now m cbs =
      Some (Ok (cbs ++ map (fun p => match Timer.objects m !! p with
                                      | Some t => Timer._m_cb t
                                      | None => None
                                      end)
                         (Timer._m_timers m), m')) /\
    Timer._m_timers m' = [].
Proof.
  destruct m as [o l tk prev]. cbn [Timer._m_timers Timer.objects].
  revert o cbs. induction l as [|p l IH]; intros o cbs Hall Hnd.
  - cbn. eexists. rewrite app_nil_r. split; reflexivity.
  - apply Forall_cons in Hall as [(t & Ht & Hrec) Hall].
    apply NoDup_cons in Hnd as [Hp Hnd].
    cbn [length]. rewrite drain_S. cbn [Timer._m_timers Timer.objects].
    rewrite Ht. cbn [orb]. rewrite Hrec.
    cbn [Timer.set_timers Timer.set_objects Timer.objects Timer._m_timers
         Timer._m_tickled Timer._m_previouseTimer].
    destruct (IH (<[p := Timer.set_cb None t]> o) (cbs ++ [Timer._m_cb t]))
      as (m' & Hd & Hm').
    + rewrite Forall_forall in Hall |- *. intros q Hq.
      destruct (Hall q Hq) as (tq & Htq & Hrq). exists tq.
      split; [|exact Hrq]. rewrite list_lookup_insert_ne; [exact Htq|].
      intros ->. contradiction.
    + exact Hnd.
    + exists m'. split; [|exact Hm'].
      unfold Timer.set_timers, Timer.set_objects.
      cbn [Timer.objects Timer._m_timers Timer._m_tickled
           Timer._m_previouseTimer].
      rewrite Hd. f_equal. f_equal. f_equal.
      rewrite <- app_assoc. f_equal. cbn [map app]. rewrite Ht. cbn. f_equal.
      apply map_ext_in. intros q Hq.
      rewrite list_lookup_insert_ne; [reflexivity|].
      intros ->. apply Hp. now apply list_elem_of_In.
Qed.

(** *** The set stays strictly ordered by deadline *)

Lemma wf_init now : Timer.wf (Timer.init now).
Proof. split; constructor. Qed.

Lemma live_insert o x l :
  (x < length o)%nat -> Forall (fun p => (p < length o)%nat) l ->
  Forall (fun p => (p < length o)%nat)
         (fst (Timer.set_insert (Timer.Comparator o) x l)).
Proof.
  intros Hx Hl. eapply Forall_impl; [apply set_insert_elems|].
  cbn. intros p [->|Hp]; [exact Hx|].
  rewrite Forall_forall in Hl. apply Hl. now apply list_elem_of_In.
Qed.

Lemma wf_addTimer_ptr timer m :
  Timer.wf m -> (timer < length (Timer.objects m))%nat ->
  Timer.wf (snd (Timer.addTimer_ptr timer m)).
Proof.
  intros [Hord Hlive] Ht. unfold Timer.addTimer_ptr.
  pose proof (set_insert_sorted (Timer.objects m) timer _ Hord) as Hs.
  pose proof (live_insert _ timer _ Ht Hlive) as Hl.
  destruct (Timer.set_insert _ _ _) as [l it]. cbn [fst] in *.
  destruct (Nat.eqb it 0 && negb (Timer._m_tickled m)); split; assumption.
Qed.

Lemma wf_addTimer ms cb recurring now m :
  Timer.wf m -> Timer.wf (snd (Timer.addTimer ms cb recurring now m)).
Proof.
  intros [Hord Hlive]. unfold Timer.addTimer.
  set (t := Timer.mkTimer _ _ _ _).
  pose proof (wf_addTimer_ptr (length (Timer.objects m))
                (Timer.set_objects (Timer.objects m ++ [t]) m)) as H.
  destruct (Timer.addTimer_ptr _ _) as [at_front m1]. cbn [snd] in *.
  apply H.
  - split.
    + unfold Timer.ordered, Timer.deadlines. cbn.
      rewrite deadlines_alloc by exact Hlive. exact Hord.
    + unfold Timer.live. cbn. eapply Forall_impl; [exact Hlive|].
      cbn. intros p Hp. rewrite length_app. cbn. lia.
  - cbn. rewrite length_app. cbn. lia.
Qed.

Lemma wf_erase i m :
  Timer.wf m ->
  Timer.wf (Timer.set_timers (Timer.set_erase i (Timer._m_timers m)) m).
Proof.
  intros [Hord Hlive]. split.
  - unfold Timer.ordered, Timer.deadlines. cbn. now apply set_erase_sorted.
  - unfold Timer.live. cbn. now apply Forall_delete.
Qed.

(** Writing to the object [this] while the set does not hold it, or
    without changing its deadline. *)
Lemma wf_update_absent this t m :
  Timer.wf m -> ~ In this (Timer._m_timers m) ->
  Timer.wf (Timer.set_objects (<[this := t]> (Timer.objects m)) m).
Proof.
  intros [Hord Hlive] Hn. split.
  - unfold Timer.ordered, Timer.deadlines. cbn.
    rewrite deadlines_update by exact Hn. exact Hord.
  - unfold Timer.live. cbn. now rewrite length_insert.
Qed.

Lemma wf_update_same this t t' m :
  Timer.wf m -> Timer.objects m !! this = Some t ->
  Timer._m_next t' = Timer._m_next t ->
  Timer.wf (Timer.set_objects (<[this := t']> (Timer.objects m)) m).
Proof.
  intros [Hord Hlive] Ht Hn. split.
  - unfold Timer.ordered, Timer.deadlines. cbn.
    rewrite (deadlines_update_same _ _ t) by assumption. exact Hord.
  - unfold Timer.live. cbn. now rewrite length_insert.
Qed.

Lemma wf_cancel this m b m' :
  Timer.wf m -> Timer.cancel this m = Ok (b, m') -> Timer.wf m'.
Proof.
  intros Hwf. unfold Timer.cancel.
  destruct (Timer.objects m !! this) as [t|] eqn:Ht; [|discriminate].
  destruct (Timer._m_cb t); [|intros [= _ <-]; exact Hwf].
  pose proof (wf_update_same this t (Timer.set_cb None t) m Hwf Ht eq_refl)
    as Hwf1.
  destruct (Timer.set_find _ _ _) as [it|]; intros [= _ <-].
  - now apply (wf_erase it) in Hwf1.
  - exact Hwf1.
Qed.

Lemma wf_erase_update_insert this it t1 m :
  Timer.wf m -> (this < length (Timer.objects m))%nat ->
  Timer.set_find (Timer.Comparator (Timer.objects m)) this (Timer._m_timers m)
    = Some it ->
  Timer.wf
    (Timer.set_timers (Timer.set_erase it (Timer._m_timers m))
       (Timer.set_objects (<[this := t1]> (Timer.objects m)) m)).
Proof.
  intros Hwf Hlt Hf.
  pose proof (set_find_erase_notin _ _ _ _ (proj1 Hwf) Hf) as Hn.
  apply (wf_erase it) in Hwf.
  apply (wf_update_absent this t1) in Hwf; [exact Hwf|exact Hn].
Qed.

Lemma wf_refresh this now m b m' :
  Timer.wf m -> Timer.refresh this now m = Ok (b, m') -> Timer.wf m'.
Proof.
  intros Hwf. unfold Timer.refresh.
  destruct (Timer.objects m !! this) as [t|] eqn:Ht; [|discriminate].
  destruct (Timer._m_cb t); [|intros [= _ <-]; exact Hwf].
  destruct (Timer.set_find _ _ _) as [it|] eqn:Hf;
    [|intros [= _ <-]; exact Hwf].
  assert (Hlt : (this < length (Timer.objects m))%nat)
    by (eapply lookup_lt_Some; eauto).
  set (t1 := Timer.set_next _ t).
  pose proof (wf_erase_update_insert this it t1 m Hwf Hlt Hf) as Hwf1.
  pose proof (wf_addTimer_ptr this _ Hwf1) as Hwf2.
  unfold Timer.addTimer_ptr in Hwf2. cbn in Hwf2.
  destruct (Timer.set_insert _ _ _) as [l1 i1]. intros [= _ <-].
  rewrite length_insert in Hwf2. specialize (Hwf2 Hlt).
  destruct (Nat.eqb i1 0 && negb (Timer._m_tickled m)); destruct Hwf2;
    split; assumption.
Qed.

Lemma wf_reset this ms from_now now m b f m' :
  Timer.wf m -> Timer.reset this ms from_now now m = Ok (b, f, m') ->
  Timer.wf m'.
Proof.
  intros Hwf. unfold Timer.reset.
  destruct (Timer.objects m !! this) as [t|] eqn:Ht; [|discriminate].
  destruct ((ms =? Timer._m_ms t) && negb from_now);
    [intros [= _ _ <-]; exact Hwf|].
  destruct (Timer._m_cb t); [|intros [= _ _ <-]; exact Hwf].
  destruct (Timer.set_find _ _ _) as [it|] eqn:Hf;
    [|intros [= _ _ <-]; exact Hwf].
  assert (Hlt : (this < length (Timer.objects m))%nat)
    by (eapply lookup_lt_Some; eauto).
  set (t1 := Timer.set_next _ _).
  pose proof (wf_erase_update_insert this it t1 m Hwf Hlt Hf) as Hwf1.
  pose proof (wf_addTimer_ptr this _ Hwf1) as Hwf2.
  destruct (Timer.addTimer_ptr _ _) as [at_front m2]. intros [= _ _ <-].
  apply Hwf2. cbn. now rewrite length_insert.
Qed.

Lemma wf_getNextTimer now m r m' :
  Timer.wf m -> Timer.getNextTimer now m = Ok (r, m') -> Timer.wf m'.
Proof.
  intros Hwf. unfold Timer.getNextTimer. cbn.
  destruct (Timer._m_timers m) as [|p rest]; [intros [= _ <-]; exact Hwf|].
  destruct (Timer.objects m !! p) as [t|]; [|discriminate].
  destruct (Timer._m_next t <=? now); intros [= _ <-]; exact Hwf.
Qed.

Lemma wf_drain fuel rollover now m cbs cbs' m' :
  Timer.wf m -> Timer.drain fuel rollover now m cbs = Some (Ok (cbs', m')) ->
  Timer.wf m'.
Proof.
  revert m cbs. induction fuel as [|fuel IH]; intros m cbs Hwf; [discriminate|].
  rewrite drain_S.
  destruct (Timer._m_timers m) as [|temp rest] eqn:Hl;
    [intros [= _ <-]; exact Hwf|].
  destruct (Timer.objects m !! temp) as [t|] eqn:Ht; [|discriminate].
  destruct (rollover || (Timer._m_next t <=? now));
    [|intros [= _ <-]; exact Hwf].
  assert (Hlt : (temp < length (Timer.objects m))%nat)
    by (eapply lookup_lt_Some; eauto).
  assert (Hf : Timer.set_find (Timer.Comparator (Timer.objects m)) temp
                 (Timer._m_timers m) = Some O).
  { rewrite Hl. cbn. unfold Timer.Comparator. now rewrite Z.ltb_irrefl. }
  destruct (Timer._m_recurring t).
  - set (t1 := Timer.set_next _ t).
    pose proof (wf_erase_update_insert temp O t1 m Hwf Hlt Hf) as Hwf1.
    rewrite Hl in Hwf1. cbn [Timer.set_erase delete list_delete] in Hwf1.
    pose proof (wf_addTimer_ptr temp _ Hwf1) as Hwf2.
    unfold Timer.addTimer_ptr in Hwf2. cbn in Hwf2.
    cbv zeta. destruct (Timer.set_insert _ _ _) as [l i1].
    rewrite length_insert in Hwf2. specialize (Hwf2 Hlt).
    apply IH.
    destruct (Nat.eqb i1 0 && negb (Timer._m_tickled m)); destruct Hwf2;
      split; assumption.
  - set (t1 := Timer.set_cb None t).
    pose proof (wf_erase_update_insert temp O t1 m Hwf Hlt Hf) as Hwf1.
    rewrite Hl in Hwf1. cbn [Timer.set_erase delete list_delete] in Hwf1.
    apply IH. exact Hwf1.
Qed.

Lemma wf_listExpiredCb fuel now now2 m cbs cbs' m' :
  Timer.wf m ->
  Timer.listExpiredCb fuel now now2 m cbs = Some (Ok (cbs', m')) ->
  Timer.wf m'.
Proof.
  intros Hwf. unfold Timer.listExpiredCb, Timer.detectClockRollover.
  apply wf_drain. exact Hwf.
Qed.

(** In every reachable state the timers of the set are strictly
    ordered by deadline (and point to live objects). *)
Lemma reachable_wf now0 m :
  Timer.reachable (Timer.init now0) m -> Timer.wf m.
Proof.
  induction 1 as [|m c m' _ IH Hrun]; [apply wf_init|].
  destruct c as [ms cb recurring now|this|this now|this ms from_now now|now
                |fuel now now2]; cbn [Timer.run] in Hrun.
  - injection Hrun as <-. now apply wf_addTimer.
  - destruct (Timer.cancel this m) as [[b m1]| |] eqn:Hc; try discriminate.
    injection Hrun as <-. eapply wf_cancel; eauto.
  - destruct (Timer.refresh this now m) as [[b m1]| |] eqn:Hc;
      try discriminate.
    injection Hrun as <-. eapply wf_refresh; eauto.
  - destruct (Timer.reset this ms from_now now m) as [[[b f] m1]| |] eqn:Hc;
      try discriminate.
    injection Hrun as <-. eapply wf_reset; eauto.
  - destruct (Timer.getNextTimer now m) as [[r m1]| |] eqn:Hc;
      try discriminate.
    injection Hrun as <-. eapply wf_getNextTimer; eauto.
  - destruct (Timer.listExpiredCb fuel now now2 m []) as [[[cbs m1]| |]|]
      eqn:Hc;
      try discriminate.
    injection Hrun as <-. eapply wf_listExpiredCb; eauto.
Qed.

(** Two recurring timers of the same period that expire in the same
    drain are both given the deadline [now + period]: the second one
    is refused by the set and never fires again. *)
Example drain_drops_recurring_timer :
  let m0 := Timer.init 0 in
  let m1 := snd (Timer.addTimer 1000 (Some 1%nat) true 0 m0) in
  let m2 := snd (Timer.addTimer 1000 (Some 2%nat) true 1 m1) in
  Timer._m_timers m2 = [0%nat; 1%nat] /\
  exists m3,
    Timer.listExpiredCb 3 1000000002 1000000003 m2 [] =
      Some (Ok ([Some 1%nat; Some 2%nat], m3)) /\
    Timer._m_timers m3 = [0%nat].
Proof. split; [reflexivity|]. eexists. split; reflexivity. Qed.


(** ** I/O manager *)

(** *** Masks *)

Lemma event_bits_pow e : IOManager.event_bits e = 2 ^ IOManager.bit_of e.
Proof. now destruct e. Qed.

Lemma land_pow2_eqb x k :
  0 <= k -> (Z.land x (2 ^ k) =? 0) = negb (Z.testbit x k).
Proof.
  intros Hk. destruct (Z.testbit x k) eqn:Hb; cbn [negb].
  - apply Z.eqb_neq. intros H0.
    assert (Ht : Z.testbit (Z.land x (2 ^ k)) k = true)
      by (rewrite Z.land_spec, Hb, Z.pow2_bits_true; auto).
    rewrite H0, Z.bits_0 in Ht. discriminate.
  - apply Z.eqb_eq. apply Z.bits_inj'. intros n Hn.
    rewrite Z.land_spec, Z.bits_0, Z.pow2_bits_eqb by lia.
    destruct (Z.eqb_spec k n) as [<-|_]; [now rewrite Hb|apply andb_false_r].
Qed.

Lemma armed_testbit e c :
  IOManager.armed e c = Z.testbit (IOManager.events c) (IOManager.bit_of e).
Proof.
  unfold IOManager.armed. rewrite event_bits_pow, land_pow2_eqb.
  - apply negb_involutive.
  - destruct e; cbn; lia.
Qed.

Lemma testbit_arm x e e' :
  Z.testbit (Z.lor x (IOManager.event_bits e)) (IOManager.bit_of e') =
  Z.testbit x (IOManager.bit_of e') || bool_decide (e = e').
Proof.
  rewrite Z.lor_spec, event_bits_pow, Z.pow2_bits_eqb by (destruct e; cbn; lia).
  f_equal. destruct e, e'; reflexivity.
Qed.

Lemma testbit_clear x e e' :
  Z.testbit (Z.land x (Z.lnot (IOManager.event_bits e))) (IOManager.bit_of e') =
  Z.testbit x (IOManager.bit_of e') && negb (bool_decide (e = e')).
Proof.
  rewrite Z.land_spec, Z.lnot_spec, event_bits_pow, Z.pow2_bits_eqb
    by (destruct e, e'; cbn; lia).
  f_equal. destruct e, e'; reflexivity.
Qed.

Lemma armed_count_testbit c :
  IOManager.armed_count c =
  (Nat.b2n (Z.testbit (IOManager.events c) 0) +
   Nat.b2n (Z.testbit (IOManager.events c) 2))%nat.
Proof.
  unfold IOManager.armed_count.
  rewrite (armed_testbit IOManager.READ), (armed_testbit IOManager.WRITE).
  cbn [IOManager.bit_of]. now destruct (Z.testbit _ 0), (Z.testbit _ 2).
Qed.

Lemma armed_count_le c : (IOManager.armed_count c <= 2)%nat.
Proof.
  rewrite armed_count_testbit.
  destruct (Z.testbit _ 0), (Z.testbit _ 2); cbn; lia.
Qed.

(** Arming an unarmed direction adds one to the count of the context,
    clearing an armed one removes one. *)
Lemma armed_count_arm e c c' :
  IOManager.armed e c = false ->
  IOManager.events c' = Z.lor (IOManager.events c) (IOManager.event_bits e) ->
  IOManager.armed_count c' = S (IOManager.armed_count c).
Proof.
  intros Ha He. rewrite armed_testbit in Ha. rewrite !armed_count_testbit, He.
  change 0 with (IOManager.bit_of IOManager.READ).
  change 2 with (IOManager.bit_of IOManager.WRITE).
  rewrite !testbit_arm.
  destruct e; cbn [IOManager.bit_of] in *;
    repeat case_bool_decide; try congruence;
    destruct (Z.testbit (IOManager.events c) 0),
             (Z.testbit (IOManager.events c) 2);
    try discriminate; reflexivity.
Qed.

Lemma armed_count_clear e c c' :
  IOManager.armed e c = true ->
  IOManager.events c' =
    Z.land (IOManager.events c) (Z.lnot (IOManager.event_bits e)) ->
  IOManager.armed_count c = S (IOManager.armed_count c').
Proof.
  intros Ha He. rewrite armed_testbit in Ha. rewrite !armed_count_testbit, He.
  change 0 with (IOManager.bit_of IOManager.READ).
  change 2 with (IOManager.bit_of IOManager.WRITE).
  rewrite !testbit_clear.
  destruct e; cbn [IOManager.bit_of] in *;
    repeat case_bool_decide; try congruence;
    destruct (Z.testbit (IOManager.events c) 0),
             (Z.testbit (IOManager.events c) 2);
    try discriminate; reflexivity.
Qed.

(** *** Sums over the table *)

Lemma sum_list_insert (f : IOManager.FdContext -> nat) l p c c' :
  l !! p = Some c ->
  (sum_list_with f (<[p := c']> l) + f c = sum_list_with f l + f c')%nat.
Proof.
  revert p. induction l as [|x l IH]; intros p Hp; [discriminate|].
  destruct p as [|p].
  - injection Hp as ->. cbn. lia.
  - change (<[S p := c']> (x :: l)) with (x :: <[p := c']> l).
    cbn [sum_list_with]. specialize (IH p Hp). lia.
Qed.

Lemma sum_list_le_length (f : IOManager.FdContext -> nat) k l :
  (forall c, f c <= k)%nat -> (sum_list_with f l <= k * length l)%nat.
Proof.
  intros Hf. induction l as [|x l IH]; cbn; [lia|]. specialize (Hf x). lia.
Qed.

Lemma sum_list_lookup (f : IOManager.FdContext -> nat) l p c :
  l !! p = Some c -> (f c <= sum_list_with f l)%nat.
Proof.
  revert p. induction l as [|x l IH]; intros p Hp; [discriminate|].
  destruct p as [|p]; cbn in *.
  - injection Hp as ->. lia.
  - specialize (IH p Hp). lia.
Qed.

Lemma armed_total_bound s :
  (IOManager.armed_total s <= 2 * length (IOManager._m_fdContexts s))%nat.
Proof. apply sum_list_le_length, armed_count_le. Qed.

(** *** The kernel call and the parts of the manager it does not touch *)

Lemma epoll_ctl_spec op n ev k rt k' :
  IOManager.epoll_ctl op n ev k = (rt, k') ->
  (rt = -1 /\ k' = k) \/
  (rt = 0 /\ n ∈ IOManager.open_fds k /\
   IOManager.open_fds k' = IOManager.open_fds k /\
   match op with
   | IOManager.EPOLL_CTL_ADD =>
       IOManager.interest k !! n = None /\
       IOManager.interest k' = <[n := ev]> (IOManager.interest k)
   | IOManager.EPOLL_CTL_MOD =>
       is_Some (IOManager.interest k !! n) /\
       IOManager.interest k' = <[n := ev]> (IOManager.interest k)
   | IOManager.EPOLL_CTL_DEL =>
       is_Some (IOManager.interest k !! n) /\
       IOManager.interest k' = delete n (IOManager.interest k)
   end).
Proof.
  unfold IOManager.epoll_ctl. case_bool_decide as Hopen; cbn [negb].
  - destruct op, (IOManager.interest k !! n) as [r|] eqn:Hr;
      intros [= <- <-]; auto; right; cbn; eauto 10.
  - intros [= <- <-]. now left.
Qed.

Lemma same_io_refl s : IOManager.same_io s s.
Proof. repeat split. Qed.

Lemma same_io_trans s1 s2 s3 :
  IOManager.same_io s1 s2 -> IOManager.same_io s2 s3 -> IOManager.same_io s1 s3.
Proof.
  intros (?&?&?&?) (?&?&?&?). repeat split; congruence.
Qed.

Lemma same_io_log_cerr msg s : IOManager.same_io s (IOManager.log_cerr msg s).
Proof. repeat split. Qed.

Lemma same_io_tickle s s' :
  IOManager.tickle s = Ok s' -> IOManager.same_io s s'.
Proof.
  unfold IOManager.tickle.
  destruct (negb _); intros [= <-]; repeat split.
Qed.

Lemma same_io_scheduleLock fc thr s s' :
  IOManager.scheduleLock fc thr s = Ok s' -> IOManager.same_io s s'.
Proof.
  unfold IOManager.scheduleLock, Scheduler.scheduleLock.
  set (s1 := if Scheduler.task_present _ then _ else s).
  assert (H1 : IOManager.same_io s s1)
    by (subst s1; destruct (Scheduler.task_present _); repeat split).
  destruct (Scheduler.is_empty _).
  - intros Ht. apply same_io_tickle in Ht. eapply same_io_trans; eauto.
  - now intros [= <-].
Qed.

(** *** Steps that keep the invariant *)

Lemma armed_mask_eq s s' n :
  IOManager._m_fdContexts s' = IOManager._m_fdContexts s ->
  IOManager.armed_mask s' n = IOManager.armed_mask s n.
Proof. intros H. unfold IOManager.armed_mask. now rewrite H. Qed.

Lemma Inv_same_io s s' :
  IOManager.Inv s -> IOManager.same_io s s' -> IOManager.Inv s'.
Proof.
  intros [Hc Hs Hf Hm Hp Hu] (He & Ht & Hpe & Htb). split.
  - unfold IOManager.armed_total. now rewrite Hpe, Htb.
  - now rewrite Htb.
  - now rewrite Htb.
  - intros n Hn. unfold IOManager.registration.
    rewrite He, (armed_mask_eq s s') by exact Htb. apply Hm. now rewrite <- Ht.
  - unfold IOManager.registration. now rewrite He, Ht.
  - now rewrite Ht, (armed_mask_eq s s').
Qed.

Lemma sum_list_with_zero (f : IOManager.FdContext -> nat) l :
  Forall (fun c => f c = O) l -> sum_list_with f l = O.
Proof. induction 1 as [|c l Hc _ IH]; cbn; lia. Qed.

Lemma armed_total_grow size s :
  (length (IOManager._m_fdContexts s) <= size)%nat ->
  IOManager.armed_total (IOManager.contextResize size s) =
  IOManager.armed_total s.
Proof.
  intros Hle. unfold IOManager.armed_total, IOManager.contextResize. cbn.
  rewrite take_ge by lia. rewrite sum_list_with_app.
  rewrite (sum_list_with_zero _ (map _ _)); [lia|].
  apply Forall_map, Forall_forall. intros i _. reflexivity.
Qed.

Lemma armed_mask_grow size s n :
  (length (IOManager._m_fdContexts s) <= size)%nat ->
  IOManager.armed_mask (IOManager.contextResize size s) n =
  IOManager.armed_mask s n.
Proof.
  intros Hle. unfold IOManager.armed_mask.
  destruct (n <? 0); [reflexivity|].
  destruct (IOManager._m_fdContexts s !! Z.to_nat n) as [c|] eqn:Hc.
  - now rewrite (contextResize_lookup_old size s _ c).
  - apply lookup_ge_None in Hc.
    destruct (decide (Z.to_nat n < size)%nat) as [Hlt|Hge].
    + now rewrite contextResize_lookup_new by lia.
    + rewrite (proj2 (lookup_ge_None _ _)); [reflexivity|].
      rewrite contextResize_length. lia.
Qed.

Lemma Inv_grow size s :
  IOManager.Inv s ->
  (length (IOManager._m_fdContexts s) <= size)%nat ->
  Z.of_nat size <= INT_MAX ->
  IOManager.Inv (IOManager.contextResize size s).
Proof.
  intros [Hc Hs Hf Hm Hp Hu] Hle Hmax. split.
  - rewrite armed_total_grow by exact Hle. exact Hc.
  - rewrite contextResize_length. exact Hmax.
  - intros i c Hi.
    destruct (decide (i < length (IOManager._m_fdContexts s))%nat) as [Hlt|Hge].
    + destruct (lookup_lt_is_Some_2 _ _ Hlt) as [c0 Hc0].
      rewrite (contextResize_lookup_old size s i c0 Hle Hc0) in Hi.
      injection Hi as <-. now apply Hf.
    + assert (Hi2 : (i < size)%nat).
      { apply lookup_lt_Some in Hi. now rewrite contextResize_length in Hi. }
      rewrite contextResize_lookup_new in Hi by lia. now injection Hi as <-.
  - intros n Hn. rewrite armed_mask_grow by exact Hle. now apply Hm.
  - exact Hp.
  - cbn [IOManager.contextResize IOManager._m_tickleFds
         IOManager.set_fdContexts].
    rewrite armed_mask_grow by exact Hle. exact Hu.
Qed.

(** The effect of a call that succeeds: the context at [p] is replaced,
    its registration follows its new mask, and the counter moves by the
    difference of the armed counts. *)
Lemma Inv_commit s s' p c c' :
  IOManager.Inv s ->
  IOManager._m_fdContexts s !! p = Some c ->
  IOManager._m_fdContexts s' = <[p := c']> (IOManager._m_fdContexts s) ->
  IOManager.fd c' = IOManager.fd c ->
  IOManager._m_tickleFds s' = IOManager._m_tickleFds s ->
  Z.of_nat p <> fst (IOManager._m_tickleFds s) ->
  IOManager.interest (IOManager.epoll s') =
    match IOManager.mirror (IOManager.events c') p with
    | Some r => <[Z.of_nat p := r]> (IOManager.interest (IOManager.epoll s))
    | None => delete (Z.of_nat p) (IOManager.interest (IOManager.epoll s))
    end ->
  IOManager._m_pendingEventCount s' =
    IOManager._m_pendingEventCount s + Z.of_nat (IOManager.armed_count c')
    - Z.of_nat (IOManager.armed_count c) ->
  IOManager.Inv s'.
Proof.
  intros [Hc Hs Hf Hm Hp Hu] Hlk Htb Hfd Htk Hne Hint Hpend.
  assert (Hlen : (p < length (IOManager._m_fdContexts s))%nat)
    by (eapply lookup_lt_Some; eauto).
  assert (Hmask : forall n, n <> Z.of_nat p ->
            IOManager.armed_mask s' n = IOManager.armed_mask s n).
  { intros n Hn. unfold IOManager.armed_mask. rewrite Htb.
    destruct (Z.ltb_spec n 0); [reflexivity|].
    rewrite list_lookup_insert_ne by lia. reflexivity. }
  assert (Hreg : forall n, n <> Z.of_nat p ->
            IOManager.registration s' n = IOManager.registration s n).
  { intros n Hn. unfold IOManager.registration. rewrite Hint.
    destruct (IOManager.mirror _ _).
    - now rewrite lookup_insert_ne.
    - now rewrite lookup_delete_ne. }
  split.
  - rewrite Hpend, Hc. unfold IOManager.armed_total. rewrite Htb.
    pose proof (sum_list_insert IOManager.armed_count _ p c c' Hlk). lia.
  - rewrite Htb, length_insert. exact Hs.
  - intros i ci. rewrite Htb. destruct (decide (p = i)) as [<-|Hpi].
    + rewrite list_lookup_insert_eq by exact Hlen. intros [= <-].
      rewrite Hfd. now apply Hf.
    + rewrite list_lookup_insert_ne by exact Hpi. apply Hf.
  - intros n Hn. rewrite Htk in Hn.
    destruct (decide (n = Z.of_nat p)) as [->|Hnp].
    + unfold IOManager.registration, IOManager.armed_mask.
      rewrite Hint, Htb, Nat2Z.id.
      destruct (Z.ltb_spec (Z.of_nat p) 0); [lia|].
      rewrite list_lookup_insert_eq by exact Hlen.
      destruct (IOManager.mirror _ _).
      * now rewrite lookup_insert_eq.
      * now rewrite lookup_delete_eq.
    + rewrite Hreg, Hmask by exact Hnp. now apply Hm.
  - rewrite Htk, Hreg by congruence. exact Hp.
  - rewrite Htk, Hmask by congruence. exact Hu.
Qed.

Lemma wrap64_negative n : - 2 ^ 31 <= n < 0 -> wrap64 n = n + UINT64_MOD.
Proof.
  intros H. unfold wrap64, UINT64_MOD.
  rewrite <- (Z.mod_add n 1 (2 ^ 64)) by lia.
  rewrite Z.mod_small; lia.
Qed.

(** A descriptor whose context is found is not negative, and its
    context is the one at its index. *)
Lemma lookup_index s n c :
  IOManager.Inv s -> IOManager.is_int n ->
  IOManager._m_fdContexts s !! index_of n = Some c ->
  0 <= n /\ index_of n = Z.to_nat n /\ IOManager.fd c = n.
Proof.
  intros HI [Hlo Hhi] Hlk. pose proof (IOManager.inv_size s HI) as Hs.
  unfold INT_MAX in *. destruct (Z.ltb_spec n 0) as [Hneg|Hpos].
  - apply lookup_lt_Some in Hlk. unfold index_of in Hlk.
    rewrite wrap64_negative in Hlk by lia. unfold UINT64_MOD in Hlk. lia.
  - assert (Hi : index_of n = Z.to_nat n)
      by (apply index_of_small; unfold UINT64_MOD; lia).
    repeat split; [lia|exact Hi|].
    rewrite Hi in Hlk. rewrite (IOManager.inv_fd s HI _ _ Hlk). lia.
Qed.

Lemma size_gt_fd_Inv s n :
  IOManager.Inv s ->
  IOManager.size_gt_fd s n =
    (Z.of_nat (length (IOManager._m_fdContexts s)) >? n).
Proof.
  intros HI. unfold IOManager.size_gt_fd.
  rewrite to_int_small; [reflexivity|].
  pose proof (IOManager.inv_size s HI). lia.
Qed.

Lemma pending_bounds s p c :
  IOManager.Inv s -> IOManager._m_fdContexts s !! p = Some c ->
  Z.of_nat (IOManager.armed_count c) <= IOManager._m_pendingEventCount s
  /\ IOManager._m_pendingEventCount s <= 2 * INT_MAX.
Proof.
  intros HI Hlk. rewrite (IOManager.inv_count s HI).
  pose proof (IOManager.inv_size s HI) as Hs.
  pose proof (armed_total_bound s) as Hb.
  pose proof (sum_list_lookup IOManager.armed_count _ p c Hlk) as Hl.
  unfold IOManager.armed_total in *. lia.
Qed.

Lemma armed_mask_lookup s n c :
  0 <= n -> IOManager._m_fdContexts s !! Z.to_nat n = Some c ->
  IOManager.armed_mask s n = IOManager.events c.
Proof.
  intros Hn Hlk. unfold IOManager.armed_mask.
  destruct (Z.ltb_spec n 0); [lia|]. now rewrite Hlk.
Qed.

(** A descriptor with a non-empty mask is not the read end of the
    self-pipe. *)
Lemma armed_not_pipe s n c :
  IOManager.Inv s -> 0 <= n ->
  IOManager._m_fdContexts s !! Z.to_nat n = Some c ->
  IOManager.events c <> 0 ->
  n <> fst (IOManager._m_tickleFds s).
Proof.
  intros HI Hn Hlk He ->. pose proof (IOManager.inv_pipe_unarmed s HI) as Hu.
  rewrite (armed_mask_lookup s _ c Hn Hlk) in Hu. contradiction.
Qed.

Lemma armed_events_nonzero e c :
  IOManager.armed e c = true -> IOManager.events c <> 0.
Proof.
  rewrite armed_testbit. intros Hb H0. rewrite H0, Z.bits_0 in Hb. discriminate.
Qed.

(** *** Firing a continuation *)

Lemma triggerEvent_spec e p s s' :
  IOManager.triggerEvent e p s = Ok s' ->
  exists c,
    IOManager._m_fdContexts s !! p = Some c /\
    IOManager.armed e c = true /\
    IOManager._m_fdContexts s' =
      <[p := IOManager.resetEventContext e
               (IOManager.set_events
                  (Z.land (IOManager.events c)
                     (Z.lnot (IOManager.event_bits e))) c)]>
        (IOManager._m_fdContexts s) /\
    IOManager.epoll s' = IOManager.epoll s /\
    IOManager._m_tickleFds s' = IOManager._m_tickleFds s /\
    IOManager._m_pendingEventCount s' = IOManager._m_pendingEventCount s.
Proof.
  unfold IOManager.triggerEvent.
  destruct (IOManager._m_fdContexts s !! p) as [c|] eqn:Hlk; [|discriminate].
  destruct (IOManager.armed e c) eqn:Ha; [|discriminate]. cbn [assert obind].
  set (c1 := IOManager.set_events _ c).
  set (s1 := IOManager.set_fdContexts _ s).
  intros H. exists c. split; [reflexivity|]. split; [exact Ha|].
  assert (Hio : IOManager.same_io s1 s').
  { destruct (IOManager.scheduler _) as [[|n]|]; [| |discriminate].
    - now apply same_io_scheduleLock in H.
    - destruct (Scheduler.task_present _); injection H as <-; repeat split. }
  destruct Hio as (He & Ht & Hp & Htb). rewrite He, Ht, Hp, Htb.
  repeat split.
Qed.

Lemma events_reset e c :
  IOManager.events (IOManager.resetEventContext e c) = IOManager.events c.
Proof. now destruct e. Qed.

Lemma fd_reset e c :
  IOManager.fd (IOManager.resetEventContext e c) = IOManager.fd c.
Proof. now destruct e. Qed.

(** [fire_if]: when the bit of [e] is in [mask] the direction is armed,
    its bit is cleared and the counter decremented; otherwise nothing
    happens. *)
Lemma fire_if_spec mask e p s s' c :
  IOManager.fire_if mask e p s = Ok s' ->
  IOManager._m_fdContexts s !! p = Some c ->
  exists c',
    IOManager._m_fdContexts s' = <[p := c']> (IOManager._m_fdContexts s) /\
    IOManager.fd c' = IOManager.fd c /\
    IOManager.epoll s' = IOManager.epoll s /\
    IOManager._m_tickleFds s' = IOManager._m_tickleFds s /\
    if Z.testbit mask (IOManager.bit_of e) then
      IOManager.armed e c = true /\
      IOManager.events c' =
        Z.land (IOManager.events c) (Z.lnot (IOManager.event_bits e)) /\
      IOManager._m_pendingEventCount s' =
        wrap64 (IOManager._m_pendingEventCount s - 1)
    else
      c' = c /\
      IOManager._m_pendingEventCount s' = IOManager._m_pendingEventCount s.
Proof.
  unfold IOManager.fire_if. intros H Hlk.
  rewrite event_bits_pow, land_pow2_eqb, negb_involutive in H
    by (destruct e; cbn; lia).
  destruct (Z.testbit mask (IOManager.bit_of e)).
  - destruct (IOManager.triggerEvent e p s) as [s1| |] eqn:Ht; try discriminate.
    cbn [obind] in H. injection H as <-.
    apply triggerEvent_spec in Ht as (c0 & Hlk0 & Ha & Htb & He & Htk & Hp).
    rewrite Hlk in Hlk0. injection Hlk0 as <-.
    eexists. split; [exact Htb|]. cbn. rewrite fd_reset, events_reset.
    cbn. rewrite He, Htk, Hp. auto 10.
  - injection H as <-. exists c. rewrite list_insert_id by exact Hlk. auto 10.
Qed.

(** *** addEvent *)

Lemma addEvent_locked_armed n e cb0 th s c :
  IOManager._m_fdContexts s !! index_of n = Some c ->
  IOManager.armed e c = true ->
  IOManager.addEvent_locked n e cb0 th s = Ok (-1, s).
Proof.
  intros Hlk Ha. unfold IOManager.addEvent_locked. now rewrite Hlk, Ha.
Qed.

Lemma events_set_EventContext e ec c :
  IOManager.events (IOManager.set_EventContext e ec c) = IOManager.events c.
Proof. now destruct e. Qed.

Lemma fd_set_EventContext e ec c :
  IOManager.fd (IOManager.set_EventContext e ec c) = IOManager.fd c.
Proof. now destruct e. Qed.

Lemma get_set_EventContext e ec c :
  IOManager.getEventContext e (IOManager.set_EventContext e ec c) = ec.
Proof. now destruct e. Qed.

Lemma addEvent_locked_spec n e cb0 th s r s' :
  IOManager.Inv s -> IOManager.is_int n ->
  IOManager.addEvent_locked n e cb0 th s = Ok (r, s') ->
  (r = -1 /\ IOManager.same_io s s') \/
  (r = 0 /\ exists c c',
     0 <= n /\
     IOManager._m_fdContexts s !! Z.to_nat n = Some c /\
     IOManager.armed e c = false /\
     IOManager._m_fdContexts s' =
       <[Z.to_nat n := c']> (IOManager._m_fdContexts s) /\
     IOManager.fd c' = IOManager.fd c /\
     IOManager.events c' =
       Z.lor (IOManager.events c) (IOManager.event_bits e) /\
     IOManager.getEventContext e c' =
       IOManager.mkEventContext (IOManager.t_scheduler th)
         (match cb0 with
          | Some _ => None
          | None => Some (IOManager.t_fiber th)
          end)
         cb0 /\
     IOManager._m_tickleFds s' = IOManager._m_tickleFds s /\
     n <> fst (IOManager._m_tickleFds s) /\
     n ∈ IOManager.open_fds (IOManager.epoll s) /\
     IOManager.open_fds (IOManager.epoll s') =
       IOManager.open_fds (IOManager.epoll s) /\
     (IOManager.events c = 0 ->
      IOManager.interest (IOManager.epoll s) !! n = None) /\
     IOManager.interest (IOManager.epoll s') =
       <[n := (Z.lor IOManager.EPOLLET (IOManager.events c'),
               IOManager.DataPtr (Z.to_nat n))]>
         (IOManager.interest (IOManager.epoll s)) /\
     IOManager._m_pendingEventCount s' =
       IOManager._m_pendingEventCount s + 1).
Proof.
  intros HI Hint. unfold IOManager.addEvent_locked.
  destruct (IOManager._m_fdContexts s !! index_of n) as [c|] eqn:Hlk;
    [|discriminate].
  destruct (lookup_index s n c HI Hint Hlk) as (Hn & Hidx & Hfd).
  rewrite Hidx in *.
  destruct (IOManager.armed e c) eqn:Ha.
  { intros [= <- <-]. left. split; [reflexivity|apply same_io_refl]. }
  destruct (IOManager.epoll_ctl _ _ _ _) as [rt k] eqn:Hctl.
  apply epoll_ctl_spec in Hctl as [[-> ->]|(-> & Hopen & Hopen' & Hop)].
  { cbn. intros [= <- <-]. left. split; [reflexivity|apply same_io_log_cerr]. }
  cbn [Z.eqb negb].
  set (c1 := IOManager.set_events _ c).
  destruct (negb (bool_decide _) && _ && _); [|discriminate].
  cbn [assert obind].
  assert (Hpend : wrap64 (IOManager._m_pendingEventCount s + 1) =
                  IOManager._m_pendingEventCount s + 1).
  { destruct (pending_bounds s _ c HI Hlk) as [Hlo Hhi].
    apply wrap64_small. unfold UINT64_MOD, INT_MAX in *. lia. }
  assert (Hne : n <> fst (IOManager._m_tickleFds s)).
  { destruct (Z.eqb_spec (IOManager.events c) 0) as [H0|H0].
    - cbn [negb] in Hop. destruct Hop as [Hnone _]. intros ->.
      destruct (IOManager.inv_pipe s HI) as [x Hx].
      unfold IOManager.registration in Hx. congruence.
    - now apply (armed_not_pipe s n c). }
  assert (Hi0 : IOManager.events c = 0 ->
                IOManager.interest (IOManager.epoll s) !! n = None).
  { intros H0. rewrite H0 in Hop. now destruct Hop. }
  assert (Hk : IOManager.interest k =
               <[n := (Z.lor IOManager.EPOLLET (IOManager.events c1),
                       IOManager.DataPtr (Z.to_nat n))]>
                 (IOManager.interest (IOManager.epoll s))).
  { subst c1. cbn [IOManager.set_events IOManager.events].
    rewrite Z.lor_assoc.
    destruct (negb (IOManager.events c =? 0)); now destruct Hop. }
  intros H. right.
  assert (Hgoal : forall ec,
    Ok (0, IOManager.set_fdContexts
             (<[Z.to_nat n := IOManager.set_EventContext e ec c1]>
                (IOManager._m_fdContexts
                   (IOManager.incr_pending (IOManager.set_epoll k s))))
             (IOManager.incr_pending (IOManager.set_epoll k s))) = Ok (r, s') ->
    ec = IOManager.mkEventContext (IOManager.t_scheduler th)
           (match cb0 with
          | Some _ => None
          | None => Some (IOManager.t_fiber th)
          end)
           cb0 ->
    r = 0 /\ exists c0 c',
      0 <= n /\
      IOManager._m_fdContexts s !! Z.to_nat n = Some c0 /\
      IOManager.armed e c0 = false /\
      IOManager._m_fdContexts s' =
        <[Z.to_nat n := c']> (IOManager._m_fdContexts s) /\
      IOManager.fd c' = IOManager.fd c0 /\
      IOManager.events c' =
        Z.lor (IOManager.events c0) (IOManager.event_bits e) /\
      IOManager.getEventContext e c' =
        IOManager.mkEventContext (IOManager.t_scheduler th)
          (match cb0 with
          | Some _ => None
          | None => Some (IOManager.t_fiber th)
          end)
          cb0 /\
      IOManager._m_tickleFds s' = IOManager._m_tickleFds s /\
      n <> fst (IOManager._m_tickleFds s) /\
      n ∈ IOManager.open_fds (IOManager.epoll s) /\
      IOManager.open_fds (IOManager.epoll s') =
        IOManager.open_fds (IOManager.epoll s) /\
      (IOManager.events c0 = 0 ->
       IOManager.interest (IOManager.epoll s) !! n = None) /\
      IOManager.interest (IOManager.epoll s') =
        <[n := (Z.lor IOManager.EPOLLET (IOManager.events c'),
                IOManager.DataPtr (Z.to_nat n))]>
          (IOManager.interest (IOManager.epoll s)) /\
      IOManager._m_pendingEventCount s' =
        IOManager._m_pendingEventCount s + 1).
  { intros ec [= <- <-] Hec. split; [reflexivity|].
    exists c, (IOManager.set_EventContext e ec c1).
    rewrite fd_set_EventContext, events_set_EventContext, get_set_EventContext.
    cbn. rewrite Hpend. repeat split; auto. }
  destruct cb0 as [f|].
  - apply (Hgoal _ H). reflexivity.
  - destruct (IOManager.t_fiber_running th); [|discriminate].
    cbn [assert obind] in H. apply (Hgoal _ H). reflexivity.
Qed.

Lemma addEvent_grow_Inv s n :
  IOManager.Inv s -> Z.quot (n * 3) 2 <= INT_MAX ->
  Z.of_nat (length (IOManager._m_fdContexts s)) <= n ->
  exists size, one_and_a_half n = Ok size /\
    (length (IOManager._m_fdContexts s) <= size)%nat /\
    IOManager.Inv (IOManager.contextResize size s).
Proof.
  intros HI Hq Hle. unfold one_and_a_half.
  destruct (Z.ltb_spec n 0); [lia|]. eexists. split; [reflexivity|].
  rewrite quot_three_halves in * by lia.
  assert (n <= n * 3 / 2) by (apply Z.div_le_lower_bound; lia).
  split; [lia|]. apply Inv_grow; [exact HI|lia|lia].
Qed.

Lemma addEvent_Inv n e cb0 th s r s' :
  IOManager.Inv s -> IOManager.is_int n -> Z.quot (n * 3) 2 <= INT_MAX ->
  IOManager.addEvent n e cb0 th s = Ok (r, s') -> IOManager.Inv s'.
Proof.
  intros HI Hint Hq. unfold IOManager.addEvent.
  rewrite size_gt_fd_Inv by exact HI.
  assert (Htail : forall s1, IOManager.Inv s1 ->
            IOManager.addEvent_locked n e cb0 th s1 = Ok (r, s') ->
            IOManager.Inv s').
  { intros s1 HI1 H.
    destruct (addEvent_locked_spec n e cb0 th s1 r s' HI1 Hint H)
      as [[_ Hio]|(_ & c & c' & H')]; [eapply Inv_same_io; eauto|].
    destruct H' as (Hn & Hlk & Ha & Htb & Hfd & Hev & _ & Htk & Hne & _ & _
                   & _ & Hk & Hp).
    apply (Inv_commit s1 s' (Z.to_nat n) c c' HI1 Hlk Htb Hfd Htk).
    - rewrite Z2Nat.id by exact Hn. exact Hne.
    - rewrite Z2Nat.id by exact Hn. rewrite Hk. unfold IOManager.mirror.
      assert (Hnz : IOManager.events c' <> 0).
      { apply (armed_events_nonzero e). rewrite armed_testbit, Hev, testbit_arm.
        rewrite bool_decide_eq_true_2 by reflexivity. apply orb_true_r. }
      apply Z.eqb_neq in Hnz. now rewrite Hnz.
    - rewrite Hp, (armed_count_arm e c c' Ha Hev). lia. }
  destruct (Z.gtb_spec (Z.of_nat (length (IOManager._m_fdContexts s))) n)
    as [Hgt|Hle].
  - cbn [obind]. apply Htail. exact HI.
  - destruct (addEvent_grow_Inv s n HI Hq Hle) as (size & -> & _ & HI1).
    cbn [obind]. apply Htail. exact HI1.
Qed.

(** *** delEvent and cancelEvent *)

Lemma wrap64_decr x : 1 <= x <= 2 * INT_MAX -> wrap64 (x - 1) = x - 1.
Proof. intros H. apply wrap64_small. unfold UINT64_MOD, INT_MAX in *. lia. Qed.

Lemma unregister_spec who n e s r :
  IOManager.Inv s -> IOManager.is_int n ->
  IOManager.unregister who n e s = Ok r ->
  match r with
  | inl (_, s') => IOManager.same_io s s'
  | inr (p, new_events, s1) =>
      exists c,
        0 <= n /\ p = Z.to_nat n /\
        IOManager._m_fdContexts s !! p = Some c /\
        IOManager.armed e c = true /\
        new_events =
          Z.land (IOManager.events c) (Z.lnot (IOManager.event_bits e)) /\
        IOManager._m_fdContexts s1 = IOManager._m_fdContexts s /\
        IOManager._m_tickleFds s1 = IOManager._m_tickleFds s /\
        n <> fst (IOManager._m_tickleFds s) /\
        IOManager.interest (IOManager.epoll s1) =
          match IOManager.mirror new_events p with
          | Some x => <[n := x]> (IOManager.interest (IOManager.epoll s))
          | None => delete n (IOManager.interest (IOManager.epoll s))
          end /\
        IOManager._m_pendingEventCount s1 =
          IOManager._m_pendingEventCount s - 1
  end.
Proof.
  intros HI Hint. unfold IOManager.unregister.
  rewrite size_gt_fd_Inv by exact HI.
  destruct (_ >? _); [|intros [= <-]; apply same_io_refl].
  destruct (IOManager._m_fdContexts s !! index_of n) as [c|] eqn:Hlk;
    [|discriminate].
  destruct (lookup_index s n c HI Hint Hlk) as (Hn & Hidx & Hfd).
  rewrite Hidx in *.
  destruct (IOManager.armed e c) eqn:Ha;
    [|intros [= <-]; apply same_io_refl].
  cbn [negb].
  set (new_events := Z.land _ _).
  destruct (IOManager.epoll_ctl _ _ _ _) as [rt k] eqn:Hctl.
  apply epoll_ctl_spec in Hctl as [[-> ->]|(-> & Hopen & Hopen' & Hop)].
  { cbn. intros [= <-]. apply same_io_log_cerr. }
  cbn [Z.eqb negb]. intros [= <-]. exists c.
  destruct (pending_bounds s _ c HI Hlk) as [Hlo Hhi].
  pose proof (armed_count_clear e c (IOManager.set_events new_events c) Ha
                eq_refl) as Hcnt.
  repeat split; auto.
  - apply (armed_not_pipe s n c HI Hn Hlk). now apply (armed_events_nonzero e).
  - cbn. unfold IOManager.mirror.
    destruct (new_events =? 0); now destruct Hop.
  - cbn. apply wrap64_decr. lia.
Qed.

Lemma delEvent_Inv n e s r s' :
  IOManager.Inv s -> IOManager.is_int n ->
  IOManager.delEvent n e s = Ok (r, s') -> IOManager.Inv s'.
Proof.
  intros HI Hint. unfold IOManager.delEvent.
  destruct (IOManager.unregister _ n e s) as [x| |] eqn:Hu; try discriminate.
  apply unregister_spec in Hu; [|exact HI|exact Hint]. cbn [obind].
  destruct x as [[b s0]|[[p new_events] s1]].
  - intros [= _ <-]. eapply Inv_same_io; eauto.
  - destruct Hu as (c & Hn & -> & Hlk & Ha & Hnew & Htb & Htk & Hne & Hk & Hp).
    cbv beta iota. rewrite Htb, Hlk. intros [= _ <-].
    eapply (Inv_commit s _ (Z.to_nat n) c); try eassumption.
    + reflexivity.
    + now rewrite fd_reset.
    + rewrite Z2Nat.id by exact Hn. exact Hne.
    + cbn. rewrite Hk, events_reset, Z2Nat.id by exact Hn. reflexivity.
    + cbn. rewrite Hp.
      rewrite (armed_count_clear e c
                 (IOManager.resetEventContext e
                    (IOManager.set_events new_events c)) Ha)
        by (now rewrite events_reset). lia.
Qed.

Lemma cancelEvent_Inv n e s r s' :
  IOManager.Inv s -> IOManager.is_int n ->
  IOManager.cancelEvent n e s = Ok (r, s') -> IOManager.Inv s'.
Proof.
  intros HI Hint. unfold IOManager.cancelEvent.
  destruct (IOManager.unregister _ n e s) as [x| |] eqn:Hu; try discriminate.
  apply unregister_spec in Hu; [|exact HI|exact Hint]. cbn [obind].
  destruct x as [[b s0]|[[p new_events] s1]].
  - intros [= _ <-]. eapply Inv_same_io; eauto.
  - destruct Hu as (c & Hn & -> & Hlk & Ha & Hnew & Htb & Htk & Hne & Hk & Hp).
    destruct (IOManager.triggerEvent e _ s1) as [s2| |] eqn:Ht;
      try discriminate.
    cbn [obind]. intros [= _ <-].
    apply triggerEvent_spec in Ht
      as (c0 & Hlk0 & _ & Htb2 & He2 & Htk2 & Hp2).
    rewrite Htb, Hlk in Hlk0. injection Hlk0 as <-.
    eapply (Inv_commit s s2 (Z.to_nat n) c); try eassumption.
    + rewrite Htb2, Htb. reflexivity.
    + now rewrite fd_reset.
    + congruence.
    + rewrite Z2Nat.id by exact Hn. exact Hne.
    + rewrite He2, Hk, events_reset, Z2Nat.id by exact Hn. cbn.
      now rewrite Hnew.
    + rewrite Hp2, Hp.
      rewrite (armed_count_clear e c
                 (IOManager.resetEventContext e
                    (IOManager.set_events
                       (Z.land (IOManager.events c)
                          (Z.lnot (IOManager.event_bits e))) c)) Ha)
        by (now rewrite events_reset). lia.
Qed.

(** *** cancelAll and the idle loop *)

Lemma armed_count_zero c :
  IOManager.events c = 0 -> IOManager.armed_count c = O.
Proof. intros H. rewrite armed_count_testbit, H, !Z.bits_0. reflexivity. Qed.

(** Two [fire_if] in a row on the context [p], as in [cancelAll] and
    in the idle loop: the context ends with the fired bits cleared, and
    the counter has lost one per bit cleared. *)
Lemma fire_twice m1 m2 p s s2 s3 c :
  Z.of_nat (IOManager.armed_count c) <= IOManager._m_pendingEventCount s
    <= 2 * INT_MAX ->
  IOManager._m_fdContexts s !! p = Some c ->
  IOManager.fire_if m1 IOManager.READ p s = Ok s2 ->
  IOManager.fire_if m2 IOManager.WRITE p s2 = Ok s3 ->
  exists c2,
    IOManager._m_fdContexts s3 = <[p := c2]> (IOManager._m_fdContexts s) /\
    IOManager._m_fdContexts s3 !! p = Some c2 /\
    IOManager.fd c2 = IOManager.fd c /\
    IOManager.epoll s3 = IOManager.epoll s /\
    IOManager._m_tickleFds s3 = IOManager._m_tickleFds s /\
    IOManager.events c2 =
      Z.land
        (Z.land (IOManager.events c)
           (if Z.testbit m1 0 then Z.lnot 1 else -1))
        (if Z.testbit m2 2 then Z.lnot 4 else -1) /\
    IOManager._m_pendingEventCount s3 =
      IOManager._m_pendingEventCount s + Z.of_nat (IOManager.armed_count c2)
      - Z.of_nat (IOManager.armed_count c).
Proof.
  intros [Hlo Hhi] Hlk H1 H2.
  assert (Hlen : (p < length (IOManager._m_fdContexts s))%nat)
    by (eapply lookup_lt_Some; eauto).
  destruct (fire_if_spec _ _ _ _ _ c H1 Hlk)
    as (c1 & Htb1 & Hfd1 & He1 & Htk1 & Hc1).
  assert (Hlk1 : IOManager._m_fdContexts s2 !! p = Some c1)
    by (rewrite Htb1; now apply list_lookup_insert_eq).
  destruct (fire_if_spec _ _ _ _ _ c1 H2 Hlk1)
    as (c2 & Htb2 & Hfd2 & He2 & Htk2 & Hc2).
  exists c2. rewrite Htb2, Htb1, list_insert_insert_eq.
  split; [reflexivity|].
  split; [now apply list_lookup_insert_eq|].
  split; [congruence|]. split; [congruence|]. split; [congruence|].
  cbn [IOManager.bit_of] in Hc1, Hc2.
  destruct (Z.testbit m1 0).
  - destruct Hc1 as (Ha1 & Hev1 & Hp1).
    pose proof (armed_count_clear _ c c1 Ha1 Hev1) as Hn1.
    rewrite wrap64_decr in Hp1 by lia.
    destruct (Z.testbit m2 2).
    + destruct Hc2 as (Ha2 & Hev2 & Hp2).
      pose proof (armed_count_clear _ c1 c2 Ha2 Hev2) as Hn2.
      rewrite wrap64_decr in Hp2 by lia.
      split; [rewrite Hev2, Hev1; reflexivity|lia].
    + destruct Hc2 as (-> & Hp2).
      split; [rewrite Hev1; now rewrite Z.land_m1_r|lia].
  - destruct Hc1 as (-> & Hp1).
    destruct (Z.testbit m2 2).
    + destruct Hc2 as (Ha2 & Hev2 & Hp2).
      pose proof (armed_count_clear _ c c2 Ha2 Hev2) as Hn2.
      rewrite wrap64_decr in Hp2 by lia.
      split; [rewrite Hev2; now rewrite Z.land_m1_r|lia].
    + destruct Hc2 as (-> & Hp2).
      split; [now rewrite !Z.land_m1_r|lia].
Qed.

Lemma events_at_lookup p s c :
  IOManager._m_fdContexts s !! p = Some c ->
  IOManager.events_at p s = Ok (IOManager.events c).
Proof. intros H. unfold IOManager.events_at. now rewrite H. Qed.

Lemma cancelAll_Inv n s r s' :
  IOManager.Inv s -> IOManager.is_int n ->
  IOManager.cancelAll n s = Ok (r, s') -> IOManager.Inv s'.
Proof.
  intros HI Hint. unfold IOManager.cancelAll.
  rewrite size_gt_fd_Inv by exact HI.
  destruct (_ >? _); [|intros [= _ <-]; exact HI].
  destruct (IOManager._m_fdContexts s !! index_of n) as [c|] eqn:Hlk;
    [|discriminate].
  destruct (lookup_index s n c HI Hint Hlk) as (Hn & Hidx & Hfd).
  rewrite Hidx in *.
  destruct (Z.eqb_spec (IOManager.events c) 0) as [H0|Hnz];
    [intros [= _ <-]; exact HI|].
  destruct (IOManager.epoll_ctl _ _ _ _) as [rt k] eqn:Hctl.
  apply epoll_ctl_spec in Hctl as [[-> ->]|(-> & Hopen & Hopen' & Hop)].
  { cbn. intros [= _ <-].
    eapply Inv_same_io; [exact HI|apply same_io_log_cerr]. }
  cbn [Z.eqb negb]. destruct Hop as [_ Hk].
  set (s1 := IOManager.set_epoll k s).
  assert (Hlk0 : IOManager._m_fdContexts s1 !! Z.to_nat n = Some c)
    by exact Hlk.
  rewrite (events_at_lookup _ _ c Hlk0). cbn [obind].
  destruct (IOManager.fire_if _ IOManager.READ _ s1) as [s2| |] eqn:H1;
    try discriminate. cbn [obind].
  destruct (fire_if_spec _ _ _ _ _ c H1 Hlk0) as (c1 & Htb1 & _).
  assert (Hlk1 : IOManager._m_fdContexts s2 !! Z.to_nat n = Some c1).
  { rewrite Htb1. apply list_lookup_insert_eq. eapply lookup_lt_Some; eauto. }
  rewrite (events_at_lookup _ _ c1 Hlk1). cbn [obind].
  destruct (IOManager.fire_if _ IOManager.WRITE _ s2) as [s3| |] eqn:H2;
    try discriminate. cbn [obind].
  destruct (fire_twice _ _ _ s1 s2 s3 c (pending_bounds s _ c HI Hlk) Hlk0
              H1 H2)
    as (c2 & Htb & Hlk2 & Hfd2 & He2 & Htk2 & Hev2 & Hp2).
  rewrite (events_at_lookup _ _ c2 Hlk2). cbn [obind].
  destruct (Z.eqb_spec (IOManager.events c2) 0) as [Hz|]; [|discriminate].
  cbn [assert obind]. intros [= _ <-].
  apply (Inv_commit s s3 (Z.to_nat n) c c2 HI Hlk Htb Hfd2 Htk2).
  - rewrite Z2Nat.id by exact Hn. now apply (armed_not_pipe s n c).
  - rewrite He2, Hz, Z2Nat.id by exact Hn. cbn. exact Hk.
  - exact Hp2.
Qed.

Lemma idle_event_Inv data revents s s' :
  IOManager.Inv s ->
  IOManager.idle_event data revents s = Ok s' -> IOManager.Inv s'.
Proof.
  intros HI. unfold IOManager.idle_event. destruct data as [n|p].
  { destruct (n =? _); [|discriminate]. intros [= <-].
    eapply Inv_same_io; [exact HI|repeat split]. }
  destruct (IOManager._m_fdContexts s !! p) as [c|] eqn:Hlk; [|discriminate].
  set (revents1 := if negb _ then _ else revents).
  set (real := Z.lor _ _).
  assert (Hreal : real = 5 \/ real = 1 \/ real = 4 \/ real = 0).
  { subst real.
    destruct (negb (Z.land revents1 IOManager.EPOLLIN =? 0)),
             (negb (Z.land revents1 IOManager.EPOLLOUT =? 0)); cbn; auto. }
  clearbody real. clear revents1.
  destruct (Z.eqb_spec (Z.land (IOManager.events c) real) IOManager.NONE)
    as [_|Hhit]; [intros [= <-]; exact HI|].
  assert (Hnz : IOManager.events c <> 0)
    by (intros H0; apply Hhit; rewrite H0; apply Z.land_0_l).
  set (left_events := Z.land (IOManager.events c) (Z.lnot real)).
  rewrite (IOManager.inv_fd s HI p c Hlk).
  destruct (IOManager.epoll_ctl _ _ _ _) as [rt2 k] eqn:Hctl.
  apply epoll_ctl_spec in Hctl as [[-> ->]|(-> & Hopen & Hopen' & Hop)].
  { cbn. intros [= <-]. eapply Inv_same_io; [exact HI|apply same_io_log_cerr]. }
  cbn [Z.eqb negb].
  set (s1 := IOManager.set_epoll k s).
  assert (Hlk0 : IOManager._m_fdContexts s1 !! p = Some c) by exact Hlk.
  destruct (IOManager.fire_if real IOManager.READ p s1) as [s2| |] eqn:H1;
    try discriminate. cbn [obind]. intros H2.
  destruct (fire_twice _ _ _ s1 s2 s' c (pending_bounds s _ c HI Hlk) Hlk0
              H1 H2)
    as (c2 & Htb & Hlk2 & Hfd2 & He2 & Htk2 & Hev2 & Hp2).
  assert (Hleft : IOManager.events c2 = left_events).
  { rewrite Hev2. subst left_events.
    destruct Hreal as [-> | [-> | [-> | ->]]].
    - rewrite <- Z.land_assoc. reflexivity.
    - change (Z.testbit 1 0) with true. change (Z.testbit 1 2) with false.
      cbv iota. now rewrite Z.land_m1_r.
    - change (Z.testbit 4 0) with false. change (Z.testbit 4 2) with true.
      cbv iota. now rewrite Z.land_m1_r.
    - exfalso. apply Hhit. apply Z.land_0_r. }
  apply (Inv_commit s s' p c c2 HI Hlk Htb Hfd2 Htk2).
  - apply (armed_not_pipe s (Z.of_nat p) c HI); [lia| |exact Hnz].
    now rewrite Nat2Z.id.
  - rewrite He2, Hleft. unfold IOManager.mirror. cbn.
    fold left_events in Hop |- *.
    destruct (left_events =? 0); now destruct Hop.
  - exact Hp2.
Qed.

Lemma idle_events_Inv evs s s' :
  IOManager.Inv s -> IOManager.idle_events evs s = Ok s' -> IOManager.Inv s'.
Proof.
  revert s. induction evs as [|[data revents] evs IH]; intros s HI.
  - now intros [= <-].
  - cbn [IOManager.idle_events].
    destruct (IOManager.idle_event data revents s) as [s1| |] eqn:H1;
      try discriminate.
    cbn [obind]. apply IH. eapply idle_event_Inv; eauto.
Qed.

(** *** The invariant holds in every reachable state *)

Lemma Inv_init b fds opened : IOManager.Inv (IOManager.init b fds opened).
Proof.
  unfold IOManager.init.
  match goal with |- IOManager.Inv (IOManager.contextResize _ ?s0) =>
    assert (H0 : IOManager.Inv s0) end.
  { split; cbn.
    - reflexivity.
    - unfold INT_MAX. lia.
    - intros i c Hi. now rewrite lookup_nil in Hi.
    - intros n Hn. unfold IOManager.registration, IOManager.armed_mask. cbn.
      rewrite lookup_singleton_ne by congruence.
      destruct (n <? 0); [reflexivity|]. now rewrite lookup_nil.
    - unfold IOManager.registration. cbn. rewrite lookup_singleton_eq. eauto.
    - unfold IOManager.armed_mask. cbn.
      destruct (_ <? 0); [reflexivity|]. now rewrite lookup_nil. }
  apply Inv_grow; [exact H0|cbn; lia|unfold INT_MAX; cbn; lia].
Qed.

Lemma run_Inv c s s' :
  IOManager.Inv s -> IOManager.fits_int c -> IOManager.run c s = Ok s' ->
  IOManager.Inv s'.
Proof.
  intros HI Hfit. destruct c as [n e cb0 th|n e|n e|n|evs]; cbn [IOManager.run].
  - destruct (IOManager.addEvent n e cb0 th s) as [[r s1]| |] eqn:H;
      try discriminate.
    intros [= <-]. destruct Hfit. eapply addEvent_Inv; eauto.
  - destruct (IOManager.delEvent n e s) as [[r s1]| |] eqn:H; try discriminate.
    intros [= <-]. eapply delEvent_Inv; eauto.
  - destruct (IOManager.cancelEvent n e s) as [[r s1]| |] eqn:H;
      try discriminate.
    intros [= <-]. eapply cancelEvent_Inv; eauto.
  - destruct (IOManager.cancelAll n s) as [[r s1]| |] eqn:H; try discriminate.
    intros [= <-]. eapply cancelAll_Inv; eauto.
  - apply idle_events_Inv. exact HI.
Qed.

Lemma reachable_Inv s0 s :
  IOManager.Inv s0 -> IOManager.reachable s0 s -> IOManager.Inv s.
Proof.
  intros H0 Hr. induction Hr as [|s c s' _ IH Hfit Hrun|s s' _ IH Hio].
  - exact H0.
  - eapply run_Inv; eauto.
  - eapply Inv_same_io; eauto.
Qed.

(** *** Arming twice, and arming then deleting *)

Lemma land_lor_lnot x e :
  Z.testbit x (IOManager.bit_of e) = false ->
  Z.land (Z.lor x (IOManager.event_bits e)) (Z.lnot (IOManager.event_bits e))
    = x.
Proof.
  intros Hb. apply Z.bits_inj'. intros i Hi.
  rewrite Z.land_spec, Z.lor_spec, Z.lnot_spec, event_bits_pow by lia.
  rewrite Z.pow2_bits_eqb by (destruct e; cbn; lia).
  destruct (Z.eqb_spec (IOManager.bit_of e) i) as [<-|_].
  - rewrite Hb. reflexivity.
  - rewrite orb_false_r. apply andb_true_r.
Qed.

Lemma unregister_ok who n e s c :
  Z.of_nat (length (IOManager._m_fdContexts s)) <= INT_MAX ->
  0 <= n ->
  IOManager._m_fdContexts s !! Z.to_nat n = Some c ->
  IOManager.armed e c = true ->
  n ∈ IOManager.open_fds (IOManager.epoll s) ->
  is_Some (IOManager.interest (IOManager.epoll s) !! n) ->
  let new_events :=
    Z.land (IOManager.events c) (Z.lnot (IOManager.event_bits e)) in
  IOManager.unregister who n e s =
    Ok (inr (Z.to_nat n, new_events,
             IOManager.decr_pending
               (IOManager.set_epoll
                  (IOManager.mkEpoll
                     (match IOManager.mirror new_events (Z.to_nat n) with
                      | Some x =>
                          <[n := x]> (IOManager.interest (IOManager.epoll s))
                      | None =>
                          delete n (IOManager.interest (IOManager.epoll s))
                      end)
                     (IOManager.open_fds (IOManager.epoll s))) s))).
Proof.
  intros Hsize Hn Hlk Ha Hopen [x Hx] new_events.
  pose proof (lookup_lt_Some _ _ _ Hlk) as Hlt.
  unfold IOManager.unregister, IOManager.size_gt_fd.
  rewrite to_int_small by lia.
  destruct (Z.gtb_spec (Z.of_nat (length (IOManager._m_fdContexts s))) n)
    as [_|?]; [|lia].
  rewrite index_of_small by (unfold UINT64_MOD, INT_MAX in *; lia).
  rewrite Hlk, Ha. cbn [negb]. fold new_events.
  unfold IOManager.epoll_ctl, IOManager.mirror.
  rewrite bool_decide_eq_true_2 by exact Hopen. cbn [negb]. rewrite Hx.
  destruct (new_events =? 0); reflexivity.
Qed.

Lemma addEvent_unfold n e cb0 th s :
  IOManager.Inv s -> Z.quot (n * 3) 2 <= INT_MAX ->
  exists s1,
    IOManager.addEvent n e cb0 th s = IOManager.addEvent_locked n e cb0 th s1 /\
    IOManager.Inv s1 /\
    IOManager._m_pendingEventCount s1 = IOManager._m_pendingEventCount s /\
    IOManager.epoll s1 = IOManager.epoll s /\
    IOManager.armed_total s1 = IOManager.armed_total s /\
    (forall m, IOManager.armed_mask s1 m = IOManager.armed_mask s m).
Proof.
  intros HI Hq. unfold IOManager.addEvent.
  rewrite size_gt_fd_Inv by exact HI.
  destruct (Z.gtb_spec (Z.of_nat (length (IOManager._m_fdContexts s))) n)
    as [Hgt|Hle].
  - exists s. cbn [obind]. auto 10.
  - destruct (addEvent_grow_Inv s n HI Hq Hle) as (size & -> & Hsz & HI1).
    exists (IOManager.contextResize size s). cbn [obind].
    split; [reflexivity|]. split; [exact HI1|]. split; [reflexivity|].
    split; [reflexivity|]. split; [now apply armed_total_grow|].
    intros m. now apply armed_mask_grow.
Qed.

(** C2: for an fd context in which the direction is already armed, a
    second [addEvent] returns -1 and leaves the whole manager as it
    was: the armed mask, the kernel registration, the pending counter
    and the stored continuation keep their values. *)
Theorem C2_addEvent_armed_twice b fds opened s n e cb0 th :
  IOManager.reachable (IOManager.init b fds opened) s ->
  IOManager.is_int n ->
  Z.land (IOManager.armed_mask s n) (IOManager.event_bits e) <> 0 ->
  IOManager.addEvent n e cb0 th s = Ok (-1, s).
Proof.
  intros Hr [_ Hhi] Harmed.
  pose proof (reachable_Inv _ _ (Inv_init b fds opened) Hr) as HI.
  pose proof (IOManager.inv_size s HI) as Hsize.
  unfold IOManager.armed_mask in Harmed.
  destruct (Z.ltb_spec n 0) as [?|Hn]; [now rewrite Z.land_0_l in Harmed|].
  destruct (IOManager._m_fdContexts s !! Z.to_nat n) as [c|] eqn:Hlk;
    [|now rewrite Z.land_0_l in Harmed].
  pose proof (lookup_lt_Some _ _ _ Hlk) as Hlt.
  unfold IOManager.addEvent. rewrite size_gt_fd_Inv by exact HI.
  destruct (Z.gtb_spec (Z.of_nat (length (IOManager._m_fdContexts s))) n)
    as [_|?]; [|lia].
  cbn [obind]. apply (addEvent_locked_armed n e cb0 th s c).
  - rewrite index_of_small by (unfold UINT64_MOD, INT_MAX in *; lia).
    exact Hlk.
  - unfold IOManager.armed. now apply negb_true_iff, Z.eqb_neq.
Qed.

(** C3: a successful [addEvent(fd, d)] immediately followed by
    [delEvent(fd, d)] restores the armed mask of the fd and the whole
    kernel registration, and the pending counter has the value it had
    before the pair. *)
Theorem C3_addEvent_delEvent b fds opened s n e cb0 th s1 :
  IOManager.reachable (IOManager.init b fds opened) s ->
  IOManager.is_int n -> Z.quot (n * 3) 2 <= INT_MAX ->
  IOManager.addEvent n e cb0 th s = Ok (0, s1) ->
  exists s2,
    IOManager.delEvent n e s1 = Ok (true, s2) /\
    IOManager.armed_mask s2 n = IOManager.armed_mask s n /\
    IOManager.registration s2 n = IOManager.registration s n /\
    IOManager.epoll s2 = IOManager.epoll s /\
    IOManager._m_pendingEventCount s2 = IOManager._m_pendingEventCount s.
Proof.
  intros Hr Hint Hq Hadd.
  pose proof (reachable_Inv _ _ (Inv_init b fds opened) Hr) as HI.
  destruct (addEvent_unfold n e cb0 th s HI Hq)
    as (s0 & Heq & HI0 & Hp0 & Hk0 & _ & Hm0).
  rewrite Heq in Hadd.
  destruct (addEvent_locked_spec n e cb0 th s0 0 s1 HI0 Hint Hadd)
    as [[? _]|(_ & c & c' & H)]; [discriminate|].
  destruct H as (Hn & Hlk & Ha & Htb & Hfd & Hev & _ & Htk & Hne & Hopen
                 & Hopen' & Hnone & Hk & Hp).
  pose proof (lookup_lt_Some _ _ _ Hlk) as Hlt.
  assert (Hlk1 : IOManager._m_fdContexts s1 !! Z.to_nat n = Some c')
    by (rewrite Htb; now apply list_lookup_insert_eq).
  assert (Ha1 : IOManager.armed e c' = true).
  { rewrite armed_testbit, Hev, testbit_arm.
    rewrite bool_decide_eq_true_2 by reflexivity. apply orb_true_r. }
  assert (Hnew : Z.land (IOManager.events c')
                   (Z.lnot (IOManager.event_bits e)) = IOManager.events c).
  { rewrite Hev. apply land_lor_lnot. now rewrite <- armed_testbit. }
  assert (Hsize1 : Z.of_nat (length (IOManager._m_fdContexts s1)) <= INT_MAX).
  { rewrite Htb, length_insert. exact (IOManager.inv_size s0 HI0). }
  assert (Hreg1 : is_Some (IOManager.interest (IOManager.epoll s1) !! n))
    by (rewrite Hk, lookup_insert_eq; eauto).
  assert (Hopen1 : n ∈ IOManager.open_fds (IOManager.epoll s1))
    by (now rewrite Hopen').
  unfold IOManager.delEvent.
  rewrite (unregister_ok _ n e s1 c' Hsize1 Hn Hlk1 Ha1 Hopen1 Hreg1).
  cbn [obind]. rewrite Hnew.
  change (IOManager._m_fdContexts (IOManager.decr_pending ?x))
    with (IOManager._m_fdContexts x).
  cbn [IOManager.set_epoll IOManager._m_fdContexts]. rewrite Hlk1.
  eexists. split; [reflexivity|].
  assert (Hmask : IOManager.armed_mask s0 n = IOManager.events c)
    by (now apply armed_mask_lookup).
  assert (Hint0 : IOManager.interest (IOManager.epoll s0) !! n =
                  IOManager.mirror (IOManager.events c) (Z.to_nat n)).
  { pose proof (IOManager.inv_mirror s0 HI0 n Hne) as Hmir.
    unfold IOManager.registration in Hmir. now rewrite Hmir, Hmask. }
  assert (Hkernel :
    match IOManager.mirror (IOManager.events c) (Z.to_nat n) with
    | Some x => <[n := x]> (IOManager.interest (IOManager.epoll s1))
    | None => delete n (IOManager.interest (IOManager.epoll s1))
    end = IOManager.interest (IOManager.epoll s0)).
  { rewrite Hk. destruct (IOManager.mirror _ _) as [x|].
    - rewrite insert_insert_eq. now apply insert_id.
    - now apply delete_insert_id. }
  rewrite Hkernel.
  split; [|split; [|split]].
  - rewrite <- Hm0, Hmask. unfold IOManager.armed_mask. cbn.
    destruct (Z.ltb_spec n 0); [lia|].
    rewrite Htb, list_insert_insert_eq, list_lookup_insert_eq by exact Hlt.
    now rewrite events_reset.
  - unfold IOManager.registration. cbn. now rewrite <- Hk0.
  - cbn. rewrite Hopen', <- Hk0. now destruct (IOManager.epoll s0).
  - cbn. rewrite Hp, <- Hp0.
    replace (IOManager._m_pendingEventCount s0 + 1 - 1)
      with (IOManager._m_pendingEventCount s0) by lia.
    apply wrap64_small.
    destruct (pending_bounds s0 _ c HI0 Hlk). unfold UINT64_MOD, INT_MAX in *.
    lia.
Qed.

(** C1: in every reachable state the pending event counter equals the
    sum over all fd contexts of the number of armed directions.  A
    successful [addEvent] increments it by exactly one, and every call
    ([delEvent], [cancelEvent], [cancelAll], the event handling of the
    idle loop) changes it by exactly the change of the number of armed
    directions, that is, decrements it once per direction cleared. *)
Theorem C1_pending_counts_armed b fds opened s :
  IOManager.reachable (IOManager.init b fds opened) s ->
  IOManager._m_pendingEventCount s = Z.of_nat (IOManager.armed_total s) /\
  (forall n e cb0 th s',
     IOManager.fits_int (IOManager.CallAddEvent n e cb0 th) ->
     IOManager.addEvent n e cb0 th s = Ok (0, s') ->
     IOManager._m_pendingEventCount s' = IOManager._m_pendingEventCount s + 1
     /\ IOManager.armed_total s' = S (IOManager.armed_total s)) /\
  (forall c s',
     IOManager.fits_int c -> IOManager.run c s = Ok s' ->
     IOManager._m_pendingEventCount s' - IOManager._m_pendingEventCount s =
     Z.of_nat (IOManager.armed_total s') - Z.of_nat (IOManager.armed_total s)).
Proof.
  intros Hr.
  pose proof (reachable_Inv _ _ (Inv_init b fds opened) Hr) as HI.
  split; [exact (IOManager.inv_count s HI)|]. split.
  - intros n e cb0 th s' [Hint Hq] Hadd.
    assert (HI' : IOManager.Inv s') by (eapply addEvent_Inv; eauto).
    destruct (addEvent_unfold n e cb0 th s HI Hq)
      as (s0 & Heq & HI0 & Hp0 & _ & _ & _).
    rewrite Heq in Hadd.
    destruct (addEvent_locked_spec n e cb0 th s0 0 s' HI0 Hint Hadd)
      as [[? _]|(_ & c & c' & H)]; [discriminate|].
    assert (Hp : IOManager._m_pendingEventCount s' =
                 IOManager._m_pendingEventCount s + 1)
      by (rewrite <- Hp0; apply H).
    split; [exact Hp|].
    rewrite (IOManager.inv_count s HI), (IOManager.inv_count s' HI') in Hp. lia.
  - intros c s' Hfit Hrun.
    pose proof (run_Inv c s s' HI Hfit Hrun) as HI'.
    rewrite (IOManager.inv_count s HI), (IOManager.inv_count s' HI').
    reflexivity.
Qed.

Lemma C1_pending_counts_armed_witness :
  let b := Scheduler.mk [] 1 0 0 None false [] in
  let th := IOManager.mkThread (Some IOManager.This) 1%nat true in
  let s0 := IOManager.init b (3, 4) {[3; 4; 5]} in
  exists s,
    IOManager.run (IOManager.CallAddEvent 5 IOManager.READ (Some 7%nat) th) s0
      = Ok s /\
    IOManager._m_pendingEventCount s = Z.of_nat (IOManager.armed_total s).
Proof.
  intros b th s0.
  destruct (IOManager.run
              (IOManager.CallAddEvent 5 IOManager.READ (Some 7%nat) th) s0)
    as [s| |] eqn:Hrun; [|vm_compute in Hrun; discriminate..].
  exists s. split; [reflexivity|].
  apply (C1_pending_counts_armed b (3, 4) {[3; 4; 5]} s).
  eapply IOManager.reach_call; [apply IOManager.reach_init| |exact Hrun].
  split; [split|]; vm_compute; discriminate.
Defined.

Lemma C2_addEvent_armed_twice_witness :
  let b := Scheduler.mk [] 1 0 0 None false [] in
  let th := IOManager.mkThread (Some IOManager.This) 1%nat true in
  let s0 := IOManager.init b (3, 4) {[3; 4; 5]} in
  exists s,
    IOManager.run (IOManager.CallAddEvent 5 IOManager.READ (Some 7%nat) th) s0
      = Ok s /\
    IOManager.addEvent 5 IOManager.READ (Some 8%nat) th s = Ok (-1, s).
Proof.
  intros b th s0.
  destruct (IOManager.run
              (IOManager.CallAddEvent 5 IOManager.READ (Some 7%nat) th) s0)
    as [s| |] eqn:Hrun; [|vm_compute in Hrun; discriminate..].
  exists s. split; [reflexivity|].
  apply (C2_addEvent_armed_twice b (3, 4) {[3; 4; 5]} s).
  - eapply IOManager.reach_call; [apply IOManager.reach_init| |exact Hrun].
    split; [split|]; vm_compute; discriminate.
  - split; vm_compute; discriminate.
  - vm_compute in Hrun. injection Hrun as <-. vm_compute. discriminate.
Defined.

Lemma C3_addEvent_delEvent_witness :
  let b := Scheduler.mk [] 1 0 0 None false [] in
  let th := IOManager.mkThread (Some IOManager.This) 1%nat true in
  let s0 := IOManager.init b (3, 4) {[3; 4; 5]} in
  exists s1,
    IOManager.addEvent 5 IOManager.WRITE None th s0 = Ok (0, s1) /\
    exists s2,
      IOManager.delEvent 5 IOManager.WRITE s1 = Ok (true, s2) /\
      IOManager.armed_mask s2 5 = IOManager.armed_mask s0 5 /\
      IOManager.registration s2 5 = IOManager.registration s0 5 /\
      IOManager.epoll s2 = IOManager.epoll s0 /\
      IOManager._m_pendingEventCount s2 = IOManager._m_pendingEventCount s0.
Proof.
  intros b th s0.
  destruct (IOManager.addEvent 5 IOManager.WRITE None th s0)
    as [[r s1]| |] eqn:Hadd; [|vm_compute in Hadd; discriminate..].
  assert (Hr : r = 0) by (vm_compute in Hadd; congruence). subst r.
  exists s1. split; [reflexivity|].
  apply (C3_addEvent_delEvent b (3, 4) {[3; 4; 5]} s0 5 IOManager.WRITE None
           th).
  - apply IOManager.reach_init.
  - split; vm_compute; discriminate.
  - vm_compute; discriminate.
  - exact Hadd.
Defined.

(** * Further properties *)

(** ** The worker loop *)

(** X1: The task taken by a worker is the first one of the queue that is
    not pinned to another thread, and it holds a fiber or a callback;
    the tasks before it (all pinned elsewhere) and after it stay in
    the queue in their order.  [tickle_me] is true when a task was
    skipped before the one taken; when the task taken is the first of
    the queue, the flag is the one that the source computes from the
    invalidated iterator, and nothing is said of its value.  When
    every task is pinned elsewhere nothing is taken, and [tickle_me]
    tells whether the queue holds a task.  The assertion fails exactly
    on a first eligible task that holds neither fiber nor callback. *)
Theorem pick_first_eligible thread_id l :
  (forall t rest tickle_me,
     Worker.pick thread_id l = Ok (Some t, rest, tickle_me) ->
     exists pre post,
       l = pre ++ t :: post /\
       Forall (fun x => Worker.eligible thread_id x = false) pre /\
       Worker.eligible thread_id t = true /\
       Scheduler.task_present t = true /\
       rest = pre ++ post /\
       tickle_me = (if Scheduler.is_empty pre then None else Some true)) /\
  (forall rest tickle_me,
     Worker.pick thread_id l = Ok (None, rest, tickle_me) ->
     rest = l /\
     Forall (fun x => Worker.eligible thread_id x = false) l /\
     tickle_me = Some (negb (Scheduler.is_empty l))) /\
  (Worker.pick thread_id l = AssertFail <->
   exists pre t post,
     l = pre ++ t :: post /\
     Forall (fun x => Worker.eligible thread_id x = false) pre /\
     Worker.eligible thread_id t = true /\
     Scheduler.task_present t = false).
Proof.
  induction l as [|x l IH]; cbn [Worker.pick].
  - split; [discriminate|]. split.
    + intros rest tk [= <- <-]. repeat split. constructor.
    + split; [discriminate|]. intros (pre & t & post & H & _).
      now destruct pre.
  - destruct IH as (IH1 & IH2 & IH3).
    destruct (negb (Scheduler._thread x =? -1)
              && negb (Scheduler._thread x =? thread_id)) eqn:Hskip.
    + assert (Hx : Worker.eligible thread_id x = false)
        by (unfold Worker.eligible; now rewrite Hskip).
      destruct (Worker.pick thread_id l) as [[[[t|] rest] tk]| |] eqn:Hp;
        cbn [obind fst snd].
      * split; [|split; [discriminate|]].
        -- intros t' rest' tk' [= <- <- <-].
           destruct (IH1 _ _ _ eq_refl) as (pre & post & -> & Hpre & Ht & Hpr
                                            & -> & _).
           exists (x :: pre), post. repeat split; auto.
        -- split; [discriminate|]. intros (pre & t' & post & Hl & Hpre & Ht & Hpr).
           destruct pre as [|y pre]; cbn in Hl; injection Hl as <- ->;
             [congruence|].
           apply Forall_cons in Hpre as [_ Hpre].
           exfalso. lapply (proj2 IH3); [discriminate|eauto 8].
      * split; [discriminate|]. split.
        -- intros rest' tk' [= <- <-].
           destruct (IH2 _ _ eq_refl) as (-> & Hall & _). repeat split; auto.
        -- split; [discriminate|]. intros (pre & t' & post & Hl & Hpre & Ht & Hpr).
           destruct pre as [|y pre]; cbn in Hl; injection Hl as <- ->;
             [congruence|].
           apply Forall_cons in Hpre as [_ Hpre].
           exfalso. lapply (proj2 IH3); [discriminate|eauto 8].
      * split; [discriminate|]. split; [discriminate|]. split; [|reflexivity].
        intros _. destruct (proj1 IH3 eq_refl)
          as (pre & t & post & -> & Hpre & Ht & Hpr).
        exists (x :: pre), t, post. repeat split; auto.
      * split; [discriminate|]. split; [discriminate|]. split; [discriminate|].
        intros (pre & t' & post & Hl & Hpre & Ht & Hpr).
        destruct pre as [|y pre]; cbn in Hl; injection Hl as <- ->;
          [congruence|].
        apply Forall_cons in Hpre as [_ Hpre].
        exfalso. lapply (proj2 IH3); [discriminate|eauto 8].
    + assert (Hx : Worker.eligible thread_id x = true)
        by (unfold Worker.eligible; now rewrite Hskip).
      destruct (Scheduler.task_present x) eqn:Hp; cbn [assert obind].
      * split; [|split; [discriminate|]].
        -- intros t rest tk [= <- <- <-]. exists [], l. repeat split; auto.
        -- split; [discriminate|].
           intros (pre & t' & post & Hl & Hpre & Ht & Hpr).
           destruct pre as [|y pre]; cbn in Hl; injection Hl as <- ->;
             [congruence|].
           apply Forall_cons in Hpre as [Hy _]. congruence.
      * split; [discriminate|]. split; [discriminate|]. split; [|reflexivity].
        intros _. exists [], x, l. repeat split; auto.
Qed.

Lemma pick_first_eligible_witness :
  let a := Scheduler.mkTask (Some 1%nat) None 3 in
  let b := Scheduler.mkTask None (Some 2%nat) 7 in
  let c := Scheduler.mkTask (Some 3%nat) None (-1) in
  Worker.pick 7 [a; b; c] = Ok (Some b, [a; c], Some true) /\
  Worker.pick 7 [b; c] = Ok (Some b, [c], None) /\
  Worker.pick 7 [a] = Ok (None, [a], Some true) /\
  exists pre post,
    [a; b; c] = pre ++ b :: post /\
    Forall (fun x => Worker.eligible 7 x = false) pre /\
    Worker.eligible 7 b = true /\
    Scheduler.task_present b = true /\
    [a; c] = pre ++ post /\
    Some true = (if Scheduler.is_empty pre then None else Some true).
Proof.
  intros a b c.
  split; [reflexivity|]. split; [reflexivity|]. split; [reflexivity|].
  exact (proj1 (pick_first_eligible 7 [a; b; c]) b [a; c] (Some true) eq_refl).
Defined.

Lemma submit_all_tasks l s :
  Forall (fun x => Scheduler.task_present (Scheduler.make_task x.1 x.2) = true)
         l ->
  exists s',
    Worker.submit_all l s = Ok s' /\
    Scheduler._m_tasks s' =
      Scheduler._m_tasks s
      ++ map (fun x => Scheduler.make_task x.1 x.2) l /\
    Scheduler._m_activeThreadCount s' = Scheduler._m_activeThreadCount s.
Proof.
  revert s. induction l as [|[fc thr] l IH]; intros s Hall.
  - exists s. cbn. now rewrite app_nil_r.
  - apply Forall_cons in Hall as [Hx Hall]. cbn [Worker.submit_all].
    rewrite scheduleLock_base_eq. cbn [fst snd] in Hx. rewrite Hx.
    cbn [obind].
    destruct (IH (Scheduler.set_tasks
                    (Scheduler._m_tasks s ++ [Scheduler.make_task fc thr]) s)
                Hall) as (s' & Hs & Ht & Ha).
    exists s'. split; [exact Hs|]. split; [|exact Ha].
    rewrite Ht. cbn. now rewrite <- app_assoc.
Qed.

Lemma rounds_S n thread_id s :
  Worker.rounds (S n) thread_id s =
  do r <- Worker.take thread_id s;
  match fst (fst r) with
  | None => Ok ([], snd r)
  | Some t =>
      do r' <- Worker.rounds n thread_id (Worker.finish (snd r));
      Ok (t :: fst r', snd r')
  end.
Proof. reflexivity. Qed.

Lemma rounds_all_eligible thread_id q s :
  Scheduler._m_tasks s = q ->
  Forall (fun t => Worker.eligible thread_id t = true
                   /\ Scheduler.task_present t = true) q ->
  exists s',
    Worker.rounds (S (length q)) thread_id s = Ok (q, s') /\
    Scheduler._m_tasks s' = [].
Proof.
  revert s. induction q as [|t q IH]; intros s Hq Hall.
  - rewrite rounds_S. unfold Worker.take. rewrite Hq. cbn.
    eexists. split; reflexivity.
  - apply Forall_cons in Hall as [[He Hp] Hall].
    change (S (length (t :: q))) with (S (S (length q))).
    rewrite rounds_S. unfold Worker.take at 1. rewrite Hq.
    cbn [Worker.pick]. unfold Worker.eligible in He.
    apply negb_true_iff in He. rewrite He, Hp. cbn [assert obind fst snd].
    set (s1 := Worker.finish _).
    destruct (IH s1 eq_refl Hall) as (s' & Hr & Ht).
    rewrite Hr. cbn [obind fst snd]. exists s'. now split.
Qed.

(** X2: Submissions to an empty queue are taken in the order of their
    submission: a worker that runs as many rounds as tasks were
    submitted (none of them pinned to another thread) takes exactly
    those tasks, first in first out, and leaves the queue empty. *)
Theorem submit_then_take_fifo thread_id l s :
  Scheduler._m_tasks s = [] ->
  Forall (fun x =>
            Scheduler.task_present (Scheduler.make_task x.1 x.2) = true
            /\ (x.2 = -1 \/ x.2 = thread_id)) l ->
  exists s1 s2,
    Worker.submit_all l s = Ok s1 /\
    Worker.rounds (S (length l)) thread_id s1 =
      Ok (map (fun x => Scheduler.make_task x.1 x.2) l, s2) /\
    Scheduler._m_tasks s2 = [].
Proof.
  intros Hempty Hall.
  destruct (submit_all_tasks l s) as (s1 & Hs & Ht & _).
  { eapply Forall_impl; [exact Hall|]. cbn. now intros x [? _]. }
  rewrite Hempty in Ht. cbn [app] in Ht.
  destruct (rounds_all_eligible thread_id _ s1 Ht) as (s2 & Hr & Hq).
  { apply Forall_map. eapply Forall_impl; [exact Hall|].
    cbn. intros [fc thr] [Hp Hthr]. cbn [fst snd] in *. split; [|exact Hp].
    unfold Worker.eligible.
    assert (Hth : Scheduler._thread (Scheduler.make_task fc thr) = thr)
      by (now destruct fc).
    rewrite Hth. destruct Hthr as [-> | ->]; cbn; [reflexivity|].
    rewrite Z.eqb_refl. now rewrite andb_false_r. }
  rewrite length_map in Hr. exists s1, s2. now split.
Qed.

Lemma submit_then_take_fifo_witness :
  let s := Scheduler.mk [] 1 0 0 None false [] in
  let l := [(Scheduler.ByCb (Some 10%nat), -1);
            (Scheduler.ByFiber (Some 11%nat), 7);
            (Scheduler.ByCb (Some 12%nat), -1)] in
  exists s1 s2,
    Worker.submit_all l s = Ok s1 /\
    Worker.rounds 4 7 s1 =
      Ok (map (fun x => Scheduler.make_task x.1 x.2) l, s2) /\
    Scheduler._m_tasks s2 = [].
Proof.
  apply (submit_then_take_fifo 7); [reflexivity|].
  repeat (apply Forall_cons; split; [split; [reflexivity|cbn; auto]|]).
  apply Forall_nil_2.
Defined.

(** ** Timers: order, insertion, cancellation *)

Lemma StronglySorted_lt_lookup (l : list Z) i j x y :
  StronglySorted Z.lt l -> (i < j)%nat ->
  l !! i = Some x -> l !! j = Some y -> x < y.
Proof.
  intros Hs. revert i j. induction Hs as [|a l Hs IH Hall]; intros i j Hij Hi Hj.
  - discriminate.
  - destruct j as [|j]; [lia|]. destruct i as [|i]; cbn in Hi, Hj.
    + injection Hi as <-. rewrite Forall_forall in Hall. apply Hall.
      eapply list_elem_of_lookup_2; eauto.
    + apply (IH i j); [lia|assumption..].
Qed.

(** X3: In every reachable state of the timer manager, the timers of the
    set come in strictly increasing order of deadline: two different
    positions never hold the same deadline, and every element points
    to a timer object. *)
Theorem timers_strictly_ordered now0 m i j p q :
  Timer.reachable (Timer.init now0) m ->
  (i < j)%nat ->
  Timer._m_timers m !! i = Some p -> Timer._m_timers m !! j = Some q ->
  Timer.deadline (Timer.objects m) p < Timer.deadline (Timer.objects m) q
  /\ is_Some (Timer.objects m !! p) /\ is_Some (Timer.objects m !! q).
Proof.
  intros Hr Hij Hi Hj. destruct (reachable_wf now0 m Hr) as [Hord Hlive].
  split.
  - apply (StronglySorted_lt_lookup _ i j _ _ Hord Hij);
      unfold Timer.deadlines; rewrite list_lookup_fmap; [now rewrite Hi|now rewrite Hj].
  - unfold Timer.live in Hlive. rewrite Forall_forall in Hlive.
    split; apply lookup_lt_is_Some_2, Hlive; eapply list_elem_of_lookup_2; eauto.
Qed.

Lemma timers_strictly_ordered_witness :
  let m0 := Timer.init 0 in
  let m1 := snd (Timer.addTimer 30 (Some 1%nat) false 0 m0) in
  let m2 := snd (Timer.addTimer 10 (Some 2%nat) true 0 m1) in
  Timer.deadline (Timer.objects m2) 1%nat < Timer.deadline (Timer.objects m2) O
  /\ is_Some (Timer.objects m2 !! 1%nat) /\ is_Some (Timer.objects m2 !! O).
Proof.
  intros m0 m1 m2.
  apply (timers_strictly_ordered 0 m2 0 1 1%nat O); [|lia|reflexivity..].
  eapply Timer.reach_call
    with (c := Timer.CallAddTimer 10 (Some 2%nat) true 0); [|reflexivity].
  eapply Timer.reach_call
    with (c := Timer.CallAddTimer 30 (Some 1%nat) false 0); [|reflexivity].
  apply Timer.reach_init.
Defined.

Lemma Comparator_ext o o' :
  (forall p, Timer.deadline o' p = Timer.deadline o p) ->
  forall a b, Timer.Comparator o' a b = Timer.Comparator o a b.
Proof. intros H a b. unfold Timer.Comparator. now rewrite !H. Qed.

Lemma set_find_ext o o' x l :
  (forall p, Timer.deadline o' p = Timer.deadline o p) ->
  Timer.set_find (Timer.Comparator o') x l =
  Timer.set_find (Timer.Comparator o) x l.
Proof.
  intros H. induction l as [|y l IH]; [reflexivity|].
  cbn [Timer.set_find]. now rewrite !(Comparator_ext o o' H), IH.
Qed.

Lemma deadline_update_same o this t t' p :
  o !! this = Some t -> Timer._m_next t' = Timer._m_next t ->
  Timer.deadline (<[this := t']> o) p = Timer.deadline o p.
Proof.
  intros Ht Hn. unfold Timer.deadline.
  destruct (decide (this = p)) as [->|Hne].
  - rewrite list_lookup_insert_eq by (eapply lookup_lt_Some; eauto).
    now rewrite Ht.
  - now rewrite list_lookup_insert_ne.
Qed.

(** Insertion of a key whose deadline no element has. *)
Lemma set_insert_fresh o x l :
  StronglySorted Z.lt (map (Timer.deadline o) l) ->
  Forall (fun y => Timer.deadline o y <> Timer.deadline o x) l ->
  exists l' i,
    Timer.set_insert (Timer.Comparator o) x l = (l', i) /\
    l' !! i = Some x /\
    delete i l' = l /\
    Timer.set_find (Timer.Comparator o) x l' = Some i /\
    (i = O <-> Forall (fun y => Timer.deadline o x < Timer.deadline o y) l).
Proof.
  induction l as [|y l IH]; intros Hs Hne.
  - exists [x], O. cbn. unfold Timer.Comparator. rewrite Z.ltb_irrefl.
    split; [reflexivity|]. split; [reflexivity|]. split; [reflexivity|].
    split; [reflexivity|]. split; [constructor|reflexivity].
  - apply Forall_cons in Hne as [Hy Hne].
    pose proof (sorted_head o _ _ Hs) as Hh.
    cbn [Timer.set_insert]. destruct (Timer.Comparator o y x) eqn:Hyx.
    + destruct (IH (sorted_tail o _ _ Hs) Hne)
        as (l' & i & -> & Hlk & Hdel & Hf & _).
      exists (y :: l'), (S i). cbn [Timer.set_find]. rewrite Hyx, Hf.
      repeat split; auto; try discriminate.
      * change (delete (S i) (y :: l')) with (y :: delete i l').
        now rewrite Hdel.
      * intros Hall. apply Forall_cons in Hall as [Hc _].
        apply Comparator_lt in Hyx. lia.
    + apply Comparator_ge in Hyx.
      assert (Hxy : Timer.deadline o x < Timer.deadline o y) by lia.
      rewrite (proj2 (Comparator_lt o x y) Hxy).
      exists (x :: y :: l), O. cbn [Timer.set_find].
      assert (Hxx : Timer.Comparator o x x = false)
        by (unfold Timer.Comparator; apply Z.ltb_irrefl).
      rewrite Hxx.
      split; [reflexivity|]. split; [reflexivity|]. split; [reflexivity|].
      split; [reflexivity|]. split; [|reflexivity].
      intros _. constructor; [exact Hxy|].
      eapply Forall_impl; [exact Hh|]. cbn. intros; lia.
Qed.



Lemma sorted_delete_iff o l i y p :
  StronglySorted Z.lt (map (Timer.deadline o) l) ->
  l !! i = Some y ->
  In p (delete i l) <->
  In p l /\ Timer.deadline o p <> Timer.deadline o y.
Proof.
  revert i. induction l as [|x l IH]; intros i Hs Hi; [discriminate|].
  pose proof (sorted_head o _ _ Hs) as Hh. rewrite Forall_forall in Hh.
  destruct i as [|i]; cbn in Hi.
  - injection Hi as ->. change (delete 0%nat (y :: l)) with l. split.
    + intros Hp. split; [now right|].
      specialize (Hh p (proj2 (list_elem_of_In _ _) Hp)). cbn in Hh. lia.
    + intros [[->|Hp] Hne]; [congruence|exact Hp].
  - change (delete (S i) (x :: l)) with (x :: delete i l).
    assert (Hy : Timer.deadline o x < Timer.deadline o y).
    { apply Hh. eapply list_elem_of_lookup_2; eauto. }
    cbn [In]. rewrite (IH i (sorted_tail o _ _ Hs) Hi). split.
    + intros [->|[Hp Hne]]; [split; [now left|lia]|split; [now right|exact Hne]].
    + intros [[->|Hp] Hne]; [now left|right; now split].
Qed.

(** X5: A successful [cancel] clears the callback of the timer and takes
    out of the set the element that has the timer's deadline (the
    timer itself when the set holds it), leaving all other elements;
    a second [cancel] of the same timer returns false and changes
    nothing. *)
Theorem cancel_removes this m t c :
  Timer.wf m ->
  Timer.objects m !! this = Some t -> Timer._m_cb t = Some c ->
  exists m',
    Timer.cancel this m = Ok (true, m') /\
    Timer.objects m' = <[this := Timer.set_cb None t]> (Timer.objects m) /\
    (forall p, In p (Timer._m_timers m') <->
               In p (Timer._m_timers m) /\
               Timer.deadline (Timer.objects m) p <> Timer._m_next t) /\
    Timer.cancel this m' = Ok (false, m').
Proof.
  intros [Hord Hlive] Ht Hc. unfold Timer.cancel at 1. rewrite Ht, Hc.
  cbn [Timer.set_objects Timer._m_timers Timer.objects].
  set (o := <[this := Timer.set_cb None t]> (Timer.objects m)).
  assert (Hlt : (this < length (Timer.objects m))%nat)
    by (eapply lookup_lt_Some; eauto).
  assert (Hk : forall p, Timer.deadline o p = Timer.deadline (Timer.objects m) p)
    by (intros p; apply (deadline_update_same _ _ t); [exact Ht|reflexivity]).
  assert (Hthis : Timer.deadline (Timer.objects m) this = Timer._m_next t)
    by (now apply deadline_lookup).
  assert (Ho : o !! this = Some (Timer.set_cb None t))
    by (subst o; now rewrite list_lookup_insert_eq).
  rewrite (set_find_ext (Timer.objects m) o) by exact Hk.
  destruct (Timer.set_find _ _ _) as [it|] eqn:Hf.
  - eexists. split; [reflexivity|]. cbn. split; [reflexivity|]. split.
    + intros p. destruct (set_find_Some _ _ _ _ Hf) as (y & Hy & Hky).
      unfold Timer.set_erase.
      rewrite (sorted_delete_iff (Timer.objects m) _ it y p Hord Hy).
      now rewrite Hky, Hthis.
    + unfold Timer.cancel. cbn. fold o. now rewrite Ho.
  - eexists. split; [reflexivity|]. cbn. split; [reflexivity|]. split.
    + intros p. pose proof (set_find_None _ _ _ Hord Hf) as Hall.
      rewrite Forall_forall in Hall. split; [|now intros [? _]].
      intros Hp. split; [exact Hp|]. rewrite <- Hthis.
      apply Hall. now apply list_elem_of_In.
    + unfold Timer.cancel. cbn. fold o. now rewrite Ho.
Qed.

Lemma cancel_removes_witness :
  let m := snd (Timer.addTimer 10 (Some 1%nat) false 5 (Timer.init 0)) in
  exists m',
    Timer.cancel O m = Ok (true, m') /\
    Timer.objects m' =
      <[O := Timer.set_cb None (Timer.mkTimer false 10 10000005 (Some 1%nat))]>
        (Timer.objects m) /\
    (forall p, In p (Timer._m_timers m') <->
               In p (Timer._m_timers m) /\
               Timer.deadline (Timer.objects m) p <> 10000005) /\
    Timer.cancel O m' = Ok (false, m').
Proof.
  apply (cancel_removes O
           (snd (Timer.addTimer 10 (Some 1%nat) false 5 (Timer.init 0)))
           (Timer.mkTimer false 10 10000005 (Some 1%nat)) 1%nat).
  - split; repeat constructor.
  - reflexivity.
  - reflexivity.
Defined.

(** ** Timers: notifications of an insertion at the front *)

Lemma addTimer_tickled ms cb recurring now m :
  let r := Timer.addTimer ms cb recurring now m in
  Timer._m_tickled (snd r) = Timer._m_tickled m || snd (fst r) /\
  (snd (fst r) = true -> Timer._m_tickled m = false).
Proof.
  unfold Timer.addTimer, Timer.addTimer_ptr.
  cbn [Timer.set_objects Timer._m_timers Timer._m_tickled Timer.objects].
  destruct (Timer.set_insert _ _ _) as [l i].
  destruct (Timer._m_tickled m) eqn:Htk, (Nat.eqb i 0); cbn; rewrite ?Htk;
    split; auto; discriminate.
Qed.

(** X6: Among [addTimer] calls with no [getNextTimer] in between, at most
    one reports an insertion at the front, and none does when a
    notification is already pending; afterwards a notification is
    pending exactly when it was before or one of the calls reported. *)
Theorem add_all_notifies_once l m :
  (length (filter (fun b => b = true) (fst (TimerSeq.add_all l m)))
   <= if Timer._m_tickled m then 0 else 1)%nat /\
  Timer._m_tickled (snd (TimerSeq.add_all l m)) =
    Timer._m_tickled m || existsb id (fst (TimerSeq.add_all l m)).
Proof.
  revert m. induction l as [|[[[ms cb] recurring] now] l IH]; intros m.
  - cbn. split; [destruct (Timer._m_tickled m); lia|now rewrite orb_false_r].
  - cbn [TimerSeq.add_all fst snd existsb].
    destruct (addTimer_tickled ms cb recurring now m) as [Htk Hfl]. cbv zeta in *.
    destruct (IH (snd (Timer.addTimer ms cb recurring now m))) as [IH1 IH2].
    rewrite IH2, Htk. split; [|unfold id at 1; now rewrite orb_assoc].
    rewrite Htk in IH1. rewrite filter_cons.
    destruct (snd (fst (Timer.addTimer ms cb recurring now m))) eqn:Hb.
    + rewrite (Hfl eq_refl) in *. rewrite decide_True by reflexivity.
      cbn [orb length] in *. lia.
    + rewrite orb_false_r in IH1. rewrite decide_False by discriminate.
      exact IH1.
Qed.

(** ** Timers: collecting the expired callbacks *)



Lemma Forall_set_insert {A} (lt : A -> A -> bool) (P : A -> Prop) x l :
  P x -> Forall P l -> Forall P (fst (Timer.set_insert lt x l)).
Proof.
  intros Hx. induction l as [|y l IH]; intros Hl.
  - cbn. now constructor.
  - apply Forall_cons in Hl as [Hy Hl]. cbn [Timer.set_insert].
    destruct (lt y x).
    + destruct (Timer.set_insert lt x l) as [r i]. cbn [fst] in *.
      constructor; auto.
    + destruct (lt x y); cbn [fst]; repeat constructor; auto.
Qed.





(** For a period in range, the duration of the model is the one that
    the conversions of the source give. *)
Lemma milliseconds_in_range ms :
  TimerSeq.in_range ms ->
  TimerSeq.chrono_milliseconds ms = Ok (Timer.milliseconds ms).
Proof.
  intros [H0 H1]. unfold TimerSeq.chrono_milliseconds, TimerSeq.to_int64.
  assert (Hm : (ms + 2 ^ 63) mod 2 ^ 64 = ms + 2 ^ 63)
    by (apply Z.mod_small; lia).
  rewrite Hm. replace (ms + 2 ^ 63 - 2 ^ 63) with ms by lia.
  destruct (Z.leb_spec (- 2 ^ 63) (ms * 1000000)); [|lia].
  destruct (Z.ltb_spec (ms * 1000000) (2 ^ 63)); [|lia].
  reflexivity.
Qed.

(** Outside the range the conversions differ from the product: the
    largest [uint64_t] becomes the count -1. *)
Example chrono_milliseconds_wraps :
  TimerSeq.chrono_milliseconds UINT64_MAX = Ok (-1000000) /\
  TimerSeq.chrono_milliseconds (2 ^ 63 - 1) = Undefined.
Proof. split; reflexivity. Qed.




(** ** Timers: moving a deadline *)





(** C10: the part of the claim on a timer that is absent from the set
    fails when a timer of the set has the same deadline.  [find]
    compares deadlines only, so it answers with the other timer:
    [reset] with a new period, or from the current time, returns
    true, erases the other timer from the set and gives the period
    [ms] to the timer. *)
Theorem C10_reset_absent_tied this ms from_now now m t c y :
  Timer.wf m ->
  Timer.objects m !! this = Some t -> Timer._m_cb t = Some c ->
  ~ In this (Timer._m_timers m) ->
  In y (Timer._m_timers m) ->
  Timer.deadline (Timer.objects m) y = Timer._m_next t ->
  ms <> Timer._m_ms t \/ from_now = true ->
  exists at_front m',
    Timer.reset this ms from_now now m = Ok (true, at_front, m') /\
    ~ In y (Timer._m_timers m') /\
    Timer._m_ms <$> Timer.objects m' !! this = Some ms.
Proof.
  intros [Hord Hlive] Ht Hc Hnotin Hy Hkey Hchg.
  assert (Hcond : (ms =? Timer._m_ms t) && negb from_now = false).
  { destruct Hchg as [Hne| ->]; [|apply andb_false_r].
    apply andb_false_intro1. now apply Z.eqb_neq. }
  assert (Hkt : Timer.deadline (Timer.objects m) this = Timer._m_next t)
    by (now apply deadline_lookup).
  unfold Timer.reset. rewrite Ht, Hcond, Hc.
  destruct (Timer.set_find (Timer.Comparator (Timer.objects m)) this
              (Timer._m_timers m)) as [it|] eqn:Hf.
  2:{ exfalso. apply set_find_None in Hf; [|exact Hord].
      rewrite Forall_forall in Hf. apply list_elem_of_In in Hy.
      apply (Hf y Hy). congruence. }
  destruct (set_find_Some _ _ _ _ Hf) as (y' & Hy' & Hk').
  assert (Hgone : ~ In y (Timer.set_erase it (Timer._m_timers m))).
  { unfold Timer.set_erase.
    rewrite (sorted_delete_iff (Timer.objects m) _ it y' y Hord Hy').
    intros [_ Hne]. apply Hne. congruence. }
  assert (Hlt : (this < length (Timer.objects m))%nat)
    by (eapply lookup_lt_Some; eauto).
  unfold Timer.addTimer_ptr.
  cbn [Timer._m_timers Timer.set_timers Timer.objects Timer.set_objects
       Timer._m_tickled].
  set (o := <[this := _]> (Timer.objects m)).
  pose proof (set_insert_elems o this
                (Timer.set_erase it (Timer._m_timers m))) as Hel.
  destruct (Timer.set_insert _ _ _) as [l1 i1]. cbn [fst] in Hel.
  eexists. eexists. split; [reflexivity|].
  assert (Hny : ~ In y l1).
  { intros Hin. rewrite Forall_forall in Hel. apply list_elem_of_In in Hin.
    destruct (Hel y Hin) as [->|H]; [now apply Hnotin|now apply Hgone]. }
  assert (Hobj : Timer._m_ms <$> o !! this = Some ms).
  { subst o. rewrite list_lookup_insert_eq by exact Hlt. reflexivity. }
  destruct (Nat.eqb i1 0 && negb (Timer._m_tickled m)); cbn; split; assumption.
Qed.

Lemma C10_reset_absent_tied_witness :
  let m1 := snd (Timer.addTimer 10 (Some 1%nat) false 5 (Timer.init 0)) in
  let m := snd (Timer.addTimer 10 (Some 2%nat) false 5 m1) in
  Timer._m_timers m = [O] /\
  Timer.objects m !! 1%nat = Some (Timer.mkTimer false 10 10000005 (Some 2%nat)) /\
  Timer.reset 1%nat 25 false 7 m =
    Ok (true, false,
        Timer.mkManager
          [Timer.mkTimer false 10 10000005 (Some 1%nat);
           Timer.mkTimer false 25 25000005 (Some 2%nat)] [1%nat] true 0) /\
  exists at_front m',
    Timer.reset 1%nat 25 false 7 m = Ok (true, at_front, m') /\
    ~ In O (Timer._m_timers m') /\
    Timer._m_ms <$> Timer.objects m' !! 1%nat = Some 25.
Proof.
  intros m1 m. split; [reflexivity|]. split; [reflexivity|].
  split; [reflexivity|].
  apply (C10_reset_absent_tied 1%nat 25 false 7 m
           (Timer.mkTimer false 10 10000005 (Some 2%nat)) 2%nat O).
  - split; repeat constructor.
  - reflexivity.
  - reflexivity.
  - cbn. intros [H|[]]. discriminate.
  - left. reflexivity.
  - reflexivity.
  - left. cbn. discriminate.
Defined.





(** ** The fd registry *)

Lemma wrap64_int fd : 0 <= fd <= INT_MAX -> wrap64 fd = fd.
Proof.
  intros H. unfold wrap64, UINT64_MOD, INT_MAX in *.
  apply Z.mod_small. lia.
Qed.

Lemma index_of_int fd : 0 <= fd <= INT_MAX -> index_of fd = Z.to_nat fd.
Proof. intros H. unfold index_of. now rewrite wrap64_int. Qed.

Lemma size_le_fd_int m fd :
  0 <= fd <= INT_MAX ->
  FdManager.size_le_fd m fd =
    (Z.of_nat (length (FdManager.m_datas m)) <=? fd).
Proof. intros H. unfold FdManager.size_le_fd. now rewrite wrap64_int. Qed.

(** [get(fd)] reads the slot of [fd]. *)
Lemma lookup_spec m fd :
  0 <= fd <= INT_MAX ->
  FdOps.lookup fd m =
    Ok (match FdManager.m_datas m !! Z.to_nat fd with
        | Some (Some c) => Some c
        | _ => None
        end).
Proof.
  intros H. unfold FdOps.lookup, FdManager.get.
  destruct (Z.eqb_spec fd (-1)) as [->|_]; [lia|].
  rewrite size_le_fd_int, index_of_int by exact H.
  destruct (Z.leb_spec (Z.of_nat (length (FdManager.m_datas m))) fd) as [Hle|Hlt].
  - cbn. rewrite lookup_ge_None_2 by lia. reflexivity.
  - destruct (lookup_lt_is_Some_2 (FdManager.m_datas m) (Z.to_nat fd)) as [e He];
      [lia|]. rewrite He. destruct e; reflexivity.
Qed.

Lemma get_no_create m fd st :
  0 <= fd <= INT_MAX ->
  exists r, FdManager.get fd false st m = Ok (r, m).
Proof.
  intros H. unfold FdManager.get.
  destruct (Z.eqb_spec fd (-1)) as [->|_]; [lia|].
  rewrite size_le_fd_int, index_of_int by exact H.
  destruct (Z.leb_spec (Z.of_nat (length (FdManager.m_datas m))) fd) as [Hle|Hlt].
  - eexists; reflexivity.
  - destruct (lookup_lt_is_Some_2 (FdManager.m_datas m) (Z.to_nat fd)) as [e He];
      [lia|]. rewrite He. destruct e; eexists; reflexivity.
Qed.

Lemma resize_ge {A} n (fill : A) l :
  (length l <= n)%nat ->
  FdManager.resize n fill l = l ++ replicate (n - length l) fill.
Proof. intros H. unfold FdManager.resize. now rewrite take_ge. Qed.

Lemma ok_store m i c :
  FdOps.ok m -> (i < length (FdManager.m_datas m))%nat ->
  FdManager.m_fd c = Z.of_nat i -> FdManager.m_isClosed c = false ->
  FdOps.ok (FdManager.mk (<[i := Some c]> (FdManager.m_datas m))).
Proof.
  intros (Hlen & Hmax & Hall) Hi Hfd Hcl. split; [|split]; cbn.
  - now rewrite length_insert.
  - now rewrite length_insert.
  - intros j c' Hj. destruct (decide (i = j)) as [<-|Hne].
    + rewrite list_lookup_insert_eq in Hj by exact Hi.
      injection Hj as <-. now split.
    + rewrite list_lookup_insert_ne in Hj by exact Hne. now apply Hall.
Qed.

Lemma ok_grow m n :
  FdOps.ok m -> (length (FdManager.m_datas m) <= n)%nat ->
  Z.of_nat n <= 2 ^ 32 ->
  FdOps.ok (FdManager.mk (FdManager.resize n None (FdManager.m_datas m))).
Proof.
  intros (Hlen & Hmax & Hall) Hn Hn2. rewrite resize_ge by exact Hn.
  split; [|split]; cbn.
  - rewrite length_app. lia.
  - rewrite length_app, length_replicate. lia.
  - intros j c Hj. apply lookup_app_Some in Hj as [Hj|[_ Hj]];
      [now apply Hall|].
    apply lookup_replicate in Hj as [Hj _]. discriminate.
Qed.

Lemma ok_init : FdOps.ok FdManager.init.
Proof.
  unfold FdManager.init. split; [|split]; cbn [FdManager.m_datas].
  - rewrite length_replicate. lia.
  - rewrite length_replicate. lia.
  - intros i c Hi. apply lookup_replicate in Hi as [Hi _]. discriminate.
Qed.

(** The write path of [get]: the registry with room for [fd], and the
    new context stored. *)
Lemma get_create_spec m fd st :
  FdOps.ok m -> 0 <= fd <= INT_MAX ->
  FdOps.lookup fd m = Ok None ->
  exists d,
    FdManager.get fd true st m =
      Ok (Some (FdManager.new_FdCtx fd st),
          FdManager.mk (<[Z.to_nat fd := Some (FdManager.new_FdCtx fd st)]> d))
    /\ (Z.to_nat fd < length d)%nat
    /\ FdOps.ok (FdManager.mk d)
    /\ (forall i, match d !! i with Some (Some c) => Some c | _ => None end =
                  match FdManager.m_datas m !! i with
                  | Some (Some c) => Some c
                  | _ => None
                  end).
Proof.
  intros Hok Hfd Hlk. rewrite lookup_spec in Hlk by exact Hfd.
  unfold FdManager.get.
  destruct (Z.eqb_spec fd (-1)) as [->|_]; [lia|].
  rewrite size_le_fd_int, index_of_int, wrap64_int by exact Hfd.
  destruct (Z.leb_spec (Z.of_nat (length (FdManager.m_datas m))) fd) as [Hle|Hlt].
  - cbn [negb]. unfold one_and_a_half.
    destruct (Z.ltb_spec fd 0) as [?|_]; [lia|]. cbn [obind].
    pose proof Hok as (Hlen & Hmax & Hall).
    assert (Hq : fd + 1 <= Z.quot (fd * 3) 2 <= 2 ^ 32).
    { rewrite Z.quot_div_nonneg by lia.
      assert (fd + 1 <= fd * 3 / 2) by (apply Z.div_le_lower_bound; lia).
      assert (fd * 3 / 2 <= 2 ^ 32)
        by (apply Z.lt_le_incl, Z.div_lt_upper_bound; unfold INT_MAX in *; lia).
      lia. }
    set (n := Z.to_nat (Z.quot (fd * 3) 2)).
    assert (Hn : (length (FdManager.m_datas m) <= n)%nat) by (subst n; lia).
    assert (Hlen' : length (FdManager.resize n None (FdManager.m_datas m)) = n).
    { rewrite resize_ge, length_app, length_replicate by exact Hn. lia. }
    rewrite Hlen'. destruct (Z.ltb_spec fd (Z.of_nat n)) as [_|?]; [|subst n; lia].
    eexists. split; [reflexivity|]. split; [rewrite Hlen'; subst n; lia|].
    split; [apply ok_grow; [exact Hok|exact Hn|subst n; lia]|].
    rewrite resize_ge by exact Hn.
    intros i. destruct (decide (i < length (FdManager.m_datas m))%nat).
    + now rewrite lookup_app_l.
    + rewrite lookup_app_r by lia.
      rewrite (lookup_ge_None_2 (FdManager.m_datas m)) by lia.
      destruct (replicate _ _ !! _) as [x|] eqn:Hx; [|reflexivity].
      apply lookup_replicate in Hx as [-> _]. reflexivity.
  - destruct (lookup_lt_is_Some_2 (FdManager.m_datas m) (Z.to_nat fd)) as [e He];
      [lia|]. rewrite He in Hlk |- *. destruct e as [c|]; [discriminate|].
    cbn [negb obind]. destruct (Z.ltb_spec fd (Z.of_nat (length (FdManager.m_datas m))));
      [|lia].
    exists (FdManager.m_datas m). split; [reflexivity|].
    split; [lia|]. split; [destruct m; exact Hok|]. intros i; reflexivity.
Qed.

Lemma get_create_ok m fd st :
  FdOps.ok m -> 0 <= fd <= INT_MAX ->
  exists c m',
    FdManager.get fd true st m = Ok (Some c, m') /\ FdOps.ok m' /\
    FdOps.lookup fd m' = Ok (Some c).
Proof.
  intros Hok Hfd.
  destruct (FdManager.m_datas m !! Z.to_nat fd) as [[c0|]|] eqn:Hslot.
  - exists c0, m. split; [|split; [exact Hok|]].
    + unfold FdManager.get.
      destruct (Z.eqb_spec fd (-1)) as [->|_]; [lia|].
      rewrite size_le_fd_int, index_of_int by exact Hfd.
      pose proof (lookup_lt_Some _ _ _ Hslot) as Hlt.
      destruct (Z.leb_spec (Z.of_nat (length (FdManager.m_datas m))) fd); [lia|].
      now rewrite Hslot.
    + now rewrite lookup_spec, Hslot by exact Hfd.
  - destruct (get_create_spec m fd st Hok Hfd) as (d & Hg & Hlt & Hokd & _).
    { rewrite lookup_spec, Hslot by exact Hfd. reflexivity. }
    eexists. eexists. split; [exact Hg|]. split.
    + apply (ok_store (FdManager.mk d));
        [exact Hokd|exact Hlt|cbn; lia|reflexivity].
    + rewrite lookup_spec by exact Hfd. cbn. now rewrite list_lookup_insert_eq.
  - destruct (get_create_spec m fd st Hok Hfd) as (d & Hg & Hlt & Hokd & _).
    { rewrite lookup_spec, Hslot by exact Hfd. reflexivity. }
    eexists. eexists. split; [exact Hg|]. split.
    + apply (ok_store (FdManager.mk d));
        [exact Hokd|exact Hlt|cbn; lia|reflexivity].
    + rewrite lookup_spec by exact Hfd. cbn. now rewrite list_lookup_insert_eq.
Qed.

(** X10: [get(fd, true)] on a registry that the calls of the class have
    built returns a context for every descriptor from 0 up: the one
    the registry already holds, without any change, or a new one that
    a later [get(fd)] finds; what [get] finds for the other
    descriptors does not change. *)
Theorem get_create_registers m fd st :
  FdOps.ok m -> 0 <= fd <= INT_MAX ->
  exists c m',
    FdManager.get fd true st m = Ok (Some c, m') /\
    FdOps.ok m' /\
    FdOps.lookup fd m' = Ok (Some c) /\
    match FdOps.lookup fd m with
    | Ok (Some c0) => c = c0 /\ m' = m
    | _ => c = FdManager.new_FdCtx fd st
    end /\
    forall fd', 0 <= fd' <= INT_MAX -> fd' <> fd ->
      FdOps.lookup fd' m' = FdOps.lookup fd' m.
Proof.
  intros Hok Hfd.
  destruct (FdOps.lookup fd m) as [[c0|]| |] eqn:Hlk;
    rewrite lookup_spec in Hlk by exact Hfd; try discriminate.
  - exists c0, m.
    destruct (FdManager.m_datas m !! Z.to_nat fd) as [[c1|]|] eqn:Hslot;
      try discriminate. injection Hlk as ->.
    rewrite !lookup_spec, Hslot by exact Hfd.
    split; [|split; [exact Hok|split; [reflexivity|split; [now split|reflexivity]]]].
    unfold FdManager.get.
    destruct (Z.eqb_spec fd (-1)) as [->|_]; [lia|].
    rewrite size_le_fd_int, index_of_int by exact Hfd.
    pose proof (lookup_lt_Some _ _ _ Hslot) as Hlt.
    destruct (Z.leb_spec (Z.of_nat (length (FdManager.m_datas m))) fd); [lia|].
    now rewrite Hslot.
  - destruct (get_create_spec m fd st Hok Hfd) as (d & Hg & Hlt & Hokd & Hd).
    { rewrite lookup_spec by exact Hfd. exact Hlk. }
    eexists. eexists. split; [exact Hg|].
    split; [|split; [|split; [reflexivity|]]].
    + apply (ok_store (FdManager.mk d)); [exact Hokd|exact Hlt|cbn; lia|reflexivity].
    + rewrite lookup_spec by exact Hfd. cbn.
      now rewrite list_lookup_insert_eq.
    + intros fd' Hfd' Hne. rewrite !lookup_spec by exact Hfd'. cbn.
      rewrite list_lookup_insert_ne by lia. now rewrite Hd.
Qed.

Lemma get_create_registers_witness :
  exists c m',
    FdManager.get 70 true (Some true) FdManager.init = Ok (Some c, m') /\
    FdOps.ok m' /\
    FdOps.lookup 70 m' = Ok (Some c) /\
    match FdOps.lookup 70 FdManager.init with
    | Ok (Some c0) => c = c0 /\ m' = FdManager.init
    | _ => c = FdManager.new_FdCtx 70 (Some true)
    end /\
    forall fd', 0 <= fd' <= INT_MAX -> fd' <> 70 ->
      FdOps.lookup fd' m' = FdOps.lookup fd' FdManager.init.
Proof.
  apply (get_create_registers FdManager.init 70 (Some true)).
  - apply ok_init.
  - vm_compute. split; discriminate.
Defined.

Lemma del_lookup m fd :
  FdOps.ok m -> 0 <= fd <= INT_MAX ->
  FdOps.ok (FdManager.del fd m) /\
  FdOps.lookup fd (FdManager.del fd m) = Ok None /\
  forall fd', 0 <= fd' <= INT_MAX -> fd' <> fd ->
    FdOps.lookup fd' (FdManager.del fd m) = FdOps.lookup fd' m.
Proof.
  intros Hok Hfd. unfold FdManager.del.
  rewrite size_le_fd_int, index_of_int by exact Hfd.
  destruct (Z.leb_spec (Z.of_nat (length (FdManager.m_datas m))) fd) as [Hle|Hlt].
  - split; [exact Hok|]. split; [|reflexivity].
    rewrite lookup_spec by exact Hfd. now rewrite lookup_ge_None_2 by lia.
  - split; [|split].
    + destruct Hok as (Hlen & Hmax & Hall). split; [|split]; cbn.
      * now rewrite length_insert.
      * now rewrite length_insert.
      * intros j c Hj. destruct (decide (Z.to_nat fd = j)) as [<-|Hne].
        -- rewrite list_lookup_insert_eq in Hj by lia. discriminate.
        -- rewrite list_lookup_insert_ne in Hj by exact Hne. now apply Hall.
    + rewrite lookup_spec by exact Hfd. cbn.
      now rewrite list_lookup_insert_eq by lia.
    + intros fd' Hfd' Hne. rewrite !lookup_spec by exact Hfd'. cbn.
      now rewrite list_lookup_insert_ne by lia.
Qed.

(** X11: [del(fd)] empties the slot of [fd] and nothing else: a later
    [get(fd)] finds no context, and what it finds for the other
    descriptors does not change; the registry keeps its size. *)
Theorem del_unregisters m fd :
  FdOps.ok m -> 0 <= fd <= INT_MAX ->
  FdOps.ok (FdManager.del fd m) /\
  FdOps.lookup fd (FdManager.del fd m) = Ok None /\
  length (FdManager.m_datas (FdManager.del fd m)) =
    length (FdManager.m_datas m) /\
  forall fd', 0 <= fd' <= INT_MAX -> fd' <> fd ->
    FdOps.lookup fd' (FdManager.del fd m) = FdOps.lookup fd' m.
Proof.
  intros Hok Hfd. destruct (del_lookup m fd Hok Hfd) as (H1 & H2 & H3).
  split; [exact H1|]. split; [exact H2|]. split; [|exact H3].
  unfold FdManager.del. destruct (FdManager.size_le_fd m fd); [reflexivity|].
  cbn. apply length_insert.
Qed.

Lemma del_unregisters_witness :
  let m := FdOps.store 5 (FdManager.new_FdCtx 5 (Some true)) FdManager.init in
  FdOps.ok (FdManager.del 5 m) /\
  FdOps.lookup 5 (FdManager.del 5 m) = Ok None /\
  length (FdManager.m_datas (FdManager.del 5 m)) =
    length (FdManager.m_datas m) /\
  forall fd', 0 <= fd' <= INT_MAX -> fd' <> 5 ->
    FdOps.lookup fd' (FdManager.del 5 m) = FdOps.lookup fd' m.
Proof.
  apply (del_unregisters
           (FdOps.store 5 (FdManager.new_FdCtx 5 (Some true)) FdManager.init) 5).
  - apply (ok_store FdManager.init 5 (FdManager.new_FdCtx 5 (Some true)));
      [apply ok_init|vm_compute; lia|reflexivity|reflexivity].
  - vm_compute. split; discriminate.
Defined.

Lemma get_false_same fd st m r m' :
  FdManager.get fd false st m = Ok (r, m') -> m' = m.
Proof.
  unfold FdManager.get. destruct (fd =? -1); [now intros [= _ <-]|].
  destruct (FdManager.size_le_fd m fd); cbn [negb]; [now intros [= _ <-]|].
  destruct (FdManager.m_datas m !! index_of fd) as [[c|]|];
    try discriminate; now intros [= _ <-].
Qed.

Lemma get_false_slot fd st m c m' :
  FdManager.get fd false st m = Ok (Some c, m') ->
  FdManager.m_datas m !! index_of fd = Some (Some c).
Proof.
  unfold FdManager.get. destruct (fd =? -1); [discriminate|].
  destruct (FdManager.size_le_fd m fd); cbn [negb]; [discriminate|].
  destruct (FdManager.m_datas m !! index_of fd) as [[c'|]|];
    try discriminate. now intros [= -> _].
Qed.

Lemma ok_through fd f m m' :
  FdOps.ok m ->
  (forall c, FdManager.m_fd (f c) = FdManager.m_fd c /\
             FdManager.m_isClosed (f c) = FdManager.m_isClosed c) ->
  FdOps.through fd f m = Ok m' -> FdOps.ok m'.
Proof.
  intros Hok Hf. unfold FdOps.through.
  destruct (FdManager.get fd false None m) as [[[c|] m1]| |] eqn:Hg;
    try discriminate. cbn. intros [= <-].
  pose proof (get_false_same _ _ _ _ _ Hg) as ->.
  apply get_false_slot in Hg. destruct (Hf c) as [Hfd Hcl].
  destruct (proj2 (proj2 Hok) _ _ Hg) as [Hi Hc].
  apply ok_store; [exact Hok|eapply lookup_lt_Some; eauto|congruence|congruence].
Qed.

Lemma run_ok c m m' :
  FdOps.ok m -> FdOps.fits c -> FdOps.run c m = Ok m' -> FdOps.ok m'.
Proof.
  intros Hok Hfit. destruct c as [fd [|] st|fd|fd type v|fd v|fd v];
    cbn [FdOps.run].
  - unfold FdOps.fits in Hfit. cbv zeta in Hfit.
    destruct (Z.eq_dec fd (-1)) as [->|Hne1].
    { cbn. now intros [= <-]. }
    destruct (Z.lt_ge_cases fd 0) as [Hneg|Hpos].
    + unfold FdManager.get. destruct (Z.eqb_spec fd (-1)); [lia|].
      assert (Hu : one_and_a_half fd = Undefined).
      { unfold one_and_a_half. now destruct (Z.ltb_spec fd 0); [|lia]. }
      assert (Hs : FdManager.size_le_fd m fd = true).
      { unfold FdManager.size_le_fd. apply Z.leb_le.
        rewrite wrap64_negative by lia. destruct Hok as (_ & Hmax & _).
        unfold UINT64_MOD. lia. }
      rewrite Hs. cbn [negb]. rewrite Hu. discriminate.
    + destruct (get_create_ok m fd st Hok ltac:(lia))
        as (c & m1 & -> & Hok1 & _). cbn. now intros [= <-].
  - destruct (FdManager.get fd false st m) as [[r m1]| |] eqn:Hg;
      try discriminate. cbn. intros [= <-].
    now rewrite (get_false_same _ _ _ _ _ Hg).
  - intros [= <-]. unfold FdManager.del.
    destruct (FdManager.size_le_fd m fd) eqn:Hs; [exact Hok|].
    destruct Hok as (Hlen & Hmax & Hall). split; [|split]; cbn.
    + now rewrite length_insert.
    + now rewrite length_insert.
    + intros j c Hj. destruct (decide (index_of fd = j)) as [<-|Hne].
      * apply list_lookup_insert_Some in Hj as [[_ [Hj _]]|[Hj _]];
          [discriminate|congruence].
      * rewrite list_lookup_insert_ne in Hj by exact Hne. now apply Hall.
  - apply ok_through; [exact Hok|]. intros c. unfold FdOps.setTimeout.
    destruct (type =? _); [now split|]. destruct (type =? _); now split.
  - apply ok_through; [exact Hok|]. intros c. now split.
  - apply ok_through; [exact Hok|]. intros c. now split.
Qed.

Lemma reachable_ok m : FdOps.reachable m -> FdOps.ok m.
Proof.
  induction 1 as [|m c m' _ IH Hfit Hrun]; [apply ok_init|].
  eapply run_ok; eauto.
Qed.

(** ** The generic I/O template on the registry *)

Lemma call_retrying_calls answers n e rest k :
  Hook.call_retrying answers = Some (n, e, rest, k) -> exists k', k = S k'.
Proof.
  revert n e rest k. induction answers as [|[n0 e0] l IH]; intros n e rest k;
    [discriminate|]. cbn [Hook.call_retrying].
  destruct ((n0 =? -1) && (e0 =? Hook.EINTR)).
  - destruct (Hook.call_retrying l) as [[[[r e1] rest'] k0]|]; [|discriminate].
    intros [= _ _ _ <-]. eauto.
  - intros [= _ _ _ <-]. eauto.
Qed.

Lemma retry_prefix fuel : forall fd event timeout env tr r,
  Hook.retry fuel fd event timeout env tr = Some r ->
  exists tl, Hook.trace r = tr ++ Hook.CallOriginal :: tl.
Proof.
  induction fuel as [|fuel IH]; intros fd event timeout env tr r; [discriminate|].
  cbn [Hook.retry].
  destruct (Hook.call_retrying (Hook.original env)) as [[[[n e] rest] k]|] eqn:Hc;
    [|discriminate].
  destruct (call_retrying_calls _ _ _ _ _ Hc) as [k' ->].
  cbn [replicate].
  destruct ((n =? -1) && (e =? Hook.EAGAIN)).
  2:{ intros [= <-]. cbn. eauto. }
  destruct (Hook.addEvent_rt env) as [|rt rts]; [discriminate|].
  destruct (rt =? -1).
  { intros [= <-]. cbn.
    destruct (negb (timeout =? UINT64_MAX)); rewrite <- !app_assoc; cbn; eauto. }
  destruct (Hook.cancelled env) as [|c cs]; [discriminate|].
  destruct (c =? Hook.ETIMEDOUT).
  { intros [= <-]. cbn.
    destruct (negb (timeout =? UINT64_MAX)); rewrite <- !app_assoc; cbn; eauto. }
  intros Hr. apply IH in Hr as [tl ->].
  destruct (negb (timeout =? UINT64_MAX)); rewrite <- !app_assoc; cbn; eauto.
Qed.



(** X12: No call of the registry or of its contexts marks a context
    closed.  So on a registry built by these calls [do_io] never
    fails on its own with [EBADF]: whenever it returns, it has called
    the original function. *)
Theorem do_io_calls_original m hook fd event timeout_so fuel env r :
  FdOps.reachable m ->
  Hook.do_io hook m fd event timeout_so fuel env = Some r ->
  (forall i c, FdManager.m_datas m !! i = Some (Some c) ->
     FdManager.m_isClosed c = false) /\
  exists tl, Hook.trace r = Hook.CallOriginal :: tl.
Proof.
  intros Hr Hio. apply reachable_ok in Hr. split.
  { intros i c Hi. now destruct (proj2 (proj2 Hr) i c Hi). }
  assert (Hco : forall r, Hook.call_original env = Some r ->
            exists tl, Hook.trace r = Hook.CallOriginal :: tl).
  { intros r0. unfold Hook.call_original.
    destruct (Hook.original env) as [|[n e] l]; [discriminate|].
    intros [= <-]. cbn. eauto. }
  unfold Hook.do_io in Hio. destruct (negb hook); [now apply Hco|].
  destruct (FdManager.get fd false None m) as [[[c|] m1]| |] eqn:Hg;
    try discriminate; [|now apply Hco].
  apply get_false_slot in Hg. destruct (proj2 (proj2 Hr) _ _ Hg) as [_ Hcl].
  rewrite Hcl in Hio.
  destruct (negb (FdManager.m_isSocket c) || FdManager.m_userNonblock c);
    [now apply Hco|].
  apply retry_prefix in Hio as [tl Htl]. cbn in Htl. eauto.
Qed.

Lemma do_io_calls_original_witness :
  let m := FdManager.mk
             (<[5%nat := Some (FdManager.new_FdCtx 5 (Some true))]>
                (replicate 64 None)) in
  let r := Hook.mkResult 7 (Some 0) [Hook.CallOriginal] in
  (forall i c, FdManager.m_datas m !! i = Some (Some c) ->
     FdManager.m_isClosed c = false) /\
  exists tl, Hook.trace r = Hook.CallOriginal :: tl.
Proof.
  intros m r.
  apply (do_io_calls_original m true 5 1 FdManager.SO_RCVTIMEO 1
           (Hook.mkEnv [(7, 0)] [] []) r).
  - apply (FdOps.reach_call FdManager.init (FdOps.CallGet 5 true (Some true)));
      [apply FdOps.reach_init|vm_compute; split; discriminate|reflexivity].
  - reflexivity.
Defined.

(** ** Hooks on the registry *)

Lemma get_found m fd c :
  0 <= fd <= INT_MAX -> FdOps.lookup fd m = Ok (Some c) ->
  FdManager.get fd false None m = Ok (Some c, m) /\
  FdManager.m_datas m !! Z.to_nat fd = Some (Some c).
Proof.
  intros Hfd Hlk. destruct (get_no_create m fd None Hfd) as [r Hg].
  unfold FdOps.lookup in Hlk. rewrite Hg in Hlk. cbn in Hlk.
  injection Hlk as ->. split; [exact Hg|].
  apply get_false_slot in Hg. now rewrite index_of_int in Hg.
Qed.

Lemma lookup_store m fd c :
  0 <= fd <= INT_MAX ->
  (Z.to_nat fd < length (FdManager.m_datas m))%nat ->
  FdOps.lookup fd (FdOps.store fd c m) = Ok (Some c) /\
  forall fd', 0 <= fd' <= INT_MAX -> fd' <> fd ->
    FdOps.lookup fd' (FdOps.store fd c m) = FdOps.lookup fd' m.
Proof.
  intros Hfd Hlt. unfold FdOps.store. rewrite index_of_int by exact Hfd. split.
  - rewrite lookup_spec by exact Hfd. cbn. now rewrite list_lookup_insert_eq.
  - intros fd' Hfd' Hne. rewrite !lookup_spec by exact Hfd'. cbn.
    now rewrite list_lookup_insert_ne by lia.
Qed.

Lemma ok_store_fd m fd c c' :
  FdOps.ok m -> 0 <= fd <= INT_MAX ->
  FdManager.m_datas m !! Z.to_nat fd = Some (Some c) ->
  FdManager.m_fd c' = FdManager.m_fd c ->
  FdManager.m_isClosed c' = FdManager.m_isClosed c ->
  FdOps.ok (FdOps.store fd c' m).
Proof.
  intros Hok Hfd Hslot Hf Hc. unfold FdOps.store.
  rewrite index_of_int by exact Hfd.
  destruct (proj2 (proj2 Hok) _ _ Hslot) as [Hi Hcl].
  apply ok_store; [exact Hok|eapply lookup_lt_Some; eauto|congruence|congruence].
Qed.

Lemma testbit_O_NONBLOCK i :
  0 <= i -> Z.testbit HookFd.O_NONBLOCK i = (i =? 11).
Proof.
  intros Hi. change HookFd.O_NONBLOCK with (2 ^ 11).
  rewrite Z.pow2_bits_eqb by lia. apply Z.eqb_sym.
Qed.

Lemma land_O_NONBLOCK arg :
  negb (Z.land arg HookFd.O_NONBLOCK =? 0) = Z.testbit arg 11.
Proof.
  change HookFd.O_NONBLOCK with (2 ^ 11).
  rewrite land_pow2_eqb by lia. apply negb_involutive.
Qed.

(** X13: [fcntl(fd, F_SETFL, arg)] on a socket of the registry records
    whether the caller asked for [O_NONBLOCK] and hands the flags on
    with [O_NONBLOCK] forced to the mode the runtime chose; a later
    [fcntl(fd, F_GETFL)] shows the flags of the kernel with
    [O_NONBLOCK] as the caller last set it.  The contexts of the
    other descriptors are untouched. *)
Theorem fcntl_nonblock_round_trip m fd arg c :
  FdOps.ok m -> 0 <= fd <= INT_MAX ->
  FdOps.lookup fd m = Ok (Some c) -> FdManager.m_isSocket c = true ->
  exists m',
    HookFd.fcntl_SETFL fd arg m =
      Ok (if FdManager.m_sysNonblock c then Z.lor arg HookFd.O_NONBLOCK
          else Z.land arg (Z.lnot HookFd.O_NONBLOCK), m') /\
    FdOps.ok m' /\
    (forall flags, exists r,
       HookFd.fcntl_GETFL fd flags m' = Ok r /\
       forall i, 0 <= i ->
         Z.testbit r i =
           if i =? 11 then Z.testbit arg 11 else Z.testbit flags i) /\
    (forall fd', 0 <= fd' <= INT_MAX -> fd' <> fd ->
       FdOps.lookup fd' m' = FdOps.lookup fd' m).
Proof.
  intros Hok Hfd Hlk Hsock. destruct (get_found m fd c Hfd Hlk) as [Hg Hslot].
  destruct (proj2 (proj2 Hok) _ _ Hslot) as [Hi Hcl].
  pose proof (lookup_lt_Some _ _ _ Hslot) as Hlt.
  unfold HookFd.fcntl_SETFL. rewrite Hg. cbn [obind fst snd].
  rewrite Hcl, Hsock. cbn [orb negb].
  set (c1 := FdOps.setUserNonblock _ c).
  exists (FdOps.store fd c1 m). split; [reflexivity|].
  split; [apply (ok_store_fd m fd c); auto|].
  destruct (lookup_store m fd c1 Hfd Hlt) as [Hl1 Hl2].
  split; [|exact Hl2]. intros flags.
  destruct (get_found _ fd c1 Hfd Hl1) as [Hg1 _].
  unfold HookFd.fcntl_GETFL. rewrite Hg1. cbn [obind fst snd].
  subst c1. cbn [FdOps.setUserNonblock FdManager.m_isClosed
    FdManager.m_isSocket FdManager.m_userNonblock].
  rewrite Hcl, Hsock. cbn [orb negb]. rewrite land_O_NONBLOCK.
  destruct (Z.testbit arg 11); eexists; (split; [reflexivity|]); intros i Hi0.
  - rewrite Z.lor_spec, testbit_O_NONBLOCK by exact Hi0.
    destruct (i =? 11); [apply orb_true_r|apply orb_false_r].
  - rewrite Z.land_spec, Z.lnot_spec, testbit_O_NONBLOCK by exact Hi0.
    destruct (i =? 11); [apply andb_false_r|apply andb_true_r].
Qed.

Lemma fcntl_nonblock_round_trip_witness :
  let c := FdManager.new_FdCtx 5 (Some true) in
  let m := FdOps.store 5 c FdManager.init in
  exists m',
    HookFd.fcntl_SETFL 5 2 m =
      Ok (if FdManager.m_sysNonblock c then Z.lor 2 HookFd.O_NONBLOCK
          else Z.land 2 (Z.lnot HookFd.O_NONBLOCK), m') /\
    FdOps.ok m' /\
    (forall flags, exists r,
       HookFd.fcntl_GETFL 5 flags m' = Ok r /\
       forall i, 0 <= i ->
         Z.testbit r i =
           if i =? 11 then Z.testbit 2 11 else Z.testbit flags i) /\
    (forall fd', 0 <= fd' <= INT_MAX -> fd' <> 5 ->
       FdOps.lookup fd' m' = FdOps.lookup fd' m).
Proof.
  intros c m. apply (fcntl_nonblock_round_trip m 5 2 c).
  - apply (ok_store FdManager.init 5 c);
      [apply ok_init|vm_compute; lia|reflexivity|reflexivity].
  - vm_compute. split; discriminate.
  - reflexivity.
  - reflexivity.
Defined.

(** X14: After [fcntl(fd, F_SETFL, arg)] or [ioctl(fd, FIONBIO, &value)]
    on a socket of the registry, [do_io] calls the original function
    once and returns its answer when the caller asked for the
    non-blocking mode, and goes through the waiting loop otherwise. *)
Theorem user_nonblock_decides_do_io m fd c arg value event timeout_so fuel env :
  FdOps.ok m -> 0 <= fd <= INT_MAX ->
  FdOps.lookup fd m = Ok (Some c) -> FdManager.m_isSocket c = true ->
  (exists a m1,
     HookFd.fcntl_SETFL fd arg m = Ok (a, m1) /\
     Hook.do_io true m1 fd event timeout_so fuel env =
       if Z.testbit arg 11 then Hook.call_original env
       else Hook.retry fuel fd event (FdManager.getTimeout c timeout_so) env [])
  /\
  (exists m2,
     HookFd.ioctl_FIONBIO fd value m = Ok m2 /\
     Hook.do_io true m2 fd event timeout_so fuel env =
       if value =? 0
       then Hook.retry fuel fd event (FdManager.getTimeout c timeout_so) env []
       else Hook.call_original env).
Proof.
  intros Hok Hfd Hlk Hsock. destruct (get_found m fd c Hfd Hlk) as [Hg Hslot].
  destruct (proj2 (proj2 Hok) _ _ Hslot) as [Hi Hcl].
  pose proof (lookup_lt_Some _ _ _ Hslot) as Hlt.
  assert (Hio : forall v,
    Hook.do_io true (FdOps.store fd (FdOps.setUserNonblock v c) m) fd event
      timeout_so fuel env =
    if v then Hook.call_original env
    else Hook.retry fuel fd event (FdManager.getTimeout c timeout_so) env []).
  { intros v. unfold Hook.do_io. cbn [negb].
    destruct (lookup_store m fd (FdOps.setUserNonblock v c) Hfd Hlt) as [Hl1 _].
    destruct (get_found _ fd _ Hfd Hl1) as [-> _].
    cbn [FdOps.setUserNonblock FdManager.m_isClosed FdManager.m_isSocket
         FdManager.m_userNonblock].
    rewrite Hcl, Hsock. cbn [negb orb]. destruct v; reflexivity. }
  split.
  - unfold HookFd.fcntl_SETFL. rewrite Hg. cbn [obind fst snd].
    rewrite Hcl, Hsock. cbn [orb negb]. eexists. eexists.
    split; [reflexivity|]. rewrite Hio, land_O_NONBLOCK. reflexivity.
  - unfold HookFd.ioctl_FIONBIO. rewrite Hg. cbn [obind fst snd].
    rewrite Hcl, Hsock. cbn [orb negb]. eexists.
    split; [reflexivity|]. rewrite Hio. destruct (value =? 0); reflexivity.
Qed.

Lemma user_nonblock_decides_do_io_witness :
  let c := FdManager.new_FdCtx 5 (Some true) in
  let m := FdOps.store 5 c FdManager.init in
  let env := Hook.mkEnv [(3, 0)] [] [] in
  (exists a m1,
     HookFd.fcntl_SETFL 5 2048 m = Ok (a, m1) /\
     Hook.do_io true m1 5 1 FdManager.SO_RCVTIMEO 1 env =
       if Z.testbit 2048 11 then Hook.call_original env
       else Hook.retry 1 5 1 (FdManager.getTimeout c FdManager.SO_RCVTIMEO)
              env [])
  /\
  (exists m2,
     HookFd.ioctl_FIONBIO 5 0 m = Ok m2 /\
     Hook.do_io true m2 5 1 FdManager.SO_RCVTIMEO 1 env =
       if 0 =? 0
       then Hook.retry 1 5 1 (FdManager.getTimeout c FdManager.SO_RCVTIMEO)
              env []
       else Hook.call_original env).
Proof.
  intros c m env.
  apply (user_nonblock_decides_do_io m 5 c 2048 0 1 FdManager.SO_RCVTIMEO 1 env).
  - apply (ok_store FdManager.init 5 c);
      [apply ok_init|vm_compute; lia|reflexivity|reflexivity].
  - vm_compute. split; discriminate.
  - reflexivity.
  - reflexivity.
Defined.

Lemma timeval_ms_small tv_sec tv_usec :
  0 <= tv_sec -> 0 <= tv_usec -> tv_sec * 1000 + tv_usec / 1000 < 2 ^ 63 ->
  HookFd.timeval_ms tv_sec tv_usec = Ok (tv_sec * 1000 + tv_usec / 1000).
Proof.
  intros Hs Hu Hlt. unfold HookFd.timeval_ms, HookFd.in_long.
  rewrite Z.quot_div_nonneg by lia.
  assert (0 <= tv_usec / 1000) by (apply Z.div_pos; lia).
  destruct (Z.leb_spec (- 2 ^ 63) (tv_sec * 1000)); [|lia].
  destruct (Z.ltb_spec (tv_sec * 1000) (2 ^ 63)); [|lia]. cbn [andb negb].
  destruct (Z.leb_spec (- 2 ^ 63) (tv_sec * 1000 + tv_usec / 1000)); [|lia].
  destruct (Z.ltb_spec (tv_sec * 1000 + tv_usec / 1000) (2 ^ 63)); [|lia].
  cbn [andb negb]. f_equal. unfold wrap64, UINT64_MOD.
  apply Z.mod_small. lia.
Qed.

(** X15: [setsockopt(fd, SOL_SOCKET, SO_RCVTIMEO, tv)] (or [SO_SNDTIMEO])
    on a blocking socket of the registry stores the timeout in whole
    milliseconds; from then on a [do_io] that consults this timeout
    waits with a timer of that many milliseconds, while one that
    consults the other timeout waits as before. *)
Theorem setsockopt_sets_io_timeout m fd c optname other tv_sec tv_usec
    event fuel env :
  FdOps.ok m -> 0 <= fd <= INT_MAX ->
  FdOps.lookup fd m = Ok (Some c) ->
  FdManager.m_isSocket c = true -> FdManager.m_userNonblock c = false ->
  (optname = FdManager.SO_RCVTIMEO /\ other = FdManager.SO_SNDTIMEO) \/
  (optname = FdManager.SO_SNDTIMEO /\ other = FdManager.SO_RCVTIMEO) ->
  0 <= tv_sec -> 0 <= tv_usec -> tv_sec * 1000 + tv_usec / 1000 < 2 ^ 63 ->
  exists m',
    HookFd.setsockopt true fd HookFd.SOL_SOCKET optname tv_sec tv_usec m
      = Ok m' /\
    FdOps.ok m' /\
    Hook.do_io true m' fd event optname fuel env =
      Hook.retry fuel fd event (tv_sec * 1000 + tv_usec / 1000) env [] /\
    Hook.do_io true m' fd event other fuel env =
      Hook.do_io true m fd event other fuel env.
Proof.
  intros Hok Hfd Hlk Hsock Hun Hopt Hs Hu Hlt.
  destruct (get_found m fd c Hfd Hlk) as [Hg Hslot].
  destruct (proj2 (proj2 Hok) _ _ Hslot) as [Hi Hcl].
  pose proof (lookup_lt_Some _ _ _ Hslot) as Hltn.
  unfold HookFd.setsockopt. cbn [negb]. rewrite Z.eqb_refl.
  assert (Ho : (optname =? FdManager.SO_RCVTIMEO)
               || (optname =? FdManager.SO_SNDTIMEO) = true)
    by (destruct Hopt as [[-> _]|[-> _]]; reflexivity).
  rewrite Ho, Hg. cbn [obind fst snd].
  rewrite timeval_ms_small by assumption. cbn [obind].
  set (v := tv_sec * 1000 + tv_usec / 1000).
  set (c1 := FdOps.setTimeout optname v c).
  exists (FdOps.store fd c1 m). split; [reflexivity|].
  assert (Hc1 : FdManager.m_isClosed c1 = false /\
                FdManager.m_isSocket c1 = true /\
                FdManager.m_userNonblock c1 = false /\
                FdManager.m_fd c1 = FdManager.m_fd c /\
                FdManager.getTimeout c1 optname = v /\
                FdManager.getTimeout c1 other = FdManager.getTimeout c other).
  { subst c1. destruct Hopt as [[-> ->]|[-> ->]]; cbn;
      repeat split; assumption || reflexivity. }
  destruct Hc1 as (Hcl1 & Hsock1 & Hun1 & Hfd1 & Ht1 & Ht2).
  split; [apply (ok_store_fd m fd c); auto; congruence|].
  destruct (lookup_store m fd c1 Hfd Hltn) as [Hl1 _].
  destruct (get_found _ fd _ Hfd Hl1) as [Hg1 _].
  unfold Hook.do_io. cbn [negb]. rewrite Hg1, Hg, Hcl1, Hsock1, Hun1, Hcl,
    Hsock, Hun, Ht1, Ht2. cbn [negb orb]. split; reflexivity.
Qed.

Lemma setsockopt_sets_io_timeout_witness :
  let c := FdManager.new_FdCtx 5 (Some true) in
  let m := FdOps.store 5 c FdManager.init in
  let env := Hook.mkEnv [(-1, 11)] [0] [110] in
  exists m',
    HookFd.setsockopt true 5 HookFd.SOL_SOCKET FdManager.SO_RCVTIMEO 2 500000 m
      = Ok m' /\
    FdOps.ok m' /\
    Hook.do_io true m' 5 1 FdManager.SO_RCVTIMEO 2 env =
      Hook.retry 2 5 1 (2 * 1000 + 500000 / 1000) env [] /\
    Hook.do_io true m' 5 1 FdManager.SO_SNDTIMEO 2 env =
      Hook.do_io true m 5 1 FdManager.SO_SNDTIMEO 2 env.
Proof.
  intros c m env.
  apply (setsockopt_sets_io_timeout m 5 c FdManager.SO_RCVTIMEO
           FdManager.SO_SNDTIMEO 2 500000 1 2 env).
  - apply (ok_store FdManager.init 5 c);
      [apply ok_init|vm_compute; lia|reflexivity|reflexivity].
  - vm_compute. split; discriminate.
  - reflexivity.
  - reflexivity.
  - reflexivity.
  - left. split; reflexivity.
  - lia.
  - lia.
  - vm_compute. reflexivity.
Defined.

(** ** The waiting loop of [do_io] *)

Lemma count_app f a b :
  HookFd.count f (a ++ b) = (HookFd.count f a + HookFd.count f b)%nat.
Proof. unfold HookFd.count. now rewrite List.filter_app, length_app. Qed.

Lemma count_replicate_call f k :
  f Hook.CallOriginal = false ->
  HookFd.count f (replicate k Hook.CallOriginal) = O.
Proof.
  intros Hf. unfold HookFd.count. induction k as [|k IH]; [reflexivity|].
  cbn. now rewrite Hf.
Qed.

Lemma retry_balanced fuel : forall fd event timeout env tr r,
  Hook.retry fuel fd event timeout env tr = Some r ->
  (HookFd.count HookFd.is_add_timer (Hook.trace r)
   + HookFd.count HookFd.is_cancel_timer tr =
   HookFd.count HookFd.is_cancel_timer (Hook.trace r)
   + HookFd.count HookFd.is_add_timer tr)%nat /\
  (timeout = UINT64_MAX ->
   HookFd.count HookFd.is_add_timer (Hook.trace r) =
   HookFd.count HookFd.is_add_timer tr).
Proof.
  induction fuel as [|fuel IH]; intros fd event timeout env tr r; [discriminate|].
  cbn [Hook.retry].
  destruct (Hook.call_retrying (Hook.original env)) as [[[[n e] rest] k]|];
    [|discriminate].
  pose proof (count_replicate_call HookFd.is_add_timer k eq_refl) as Hk1.
  pose proof (count_replicate_call HookFd.is_cancel_timer k eq_refl) as Hk2.
  destruct ((n =? -1) && (e =? Hook.EAGAIN)).
  2:{ intros [= <-]. cbn [Hook.trace]. repeat rewrite count_app. rewrite ?Hk1, ?Hk2.
      split; [|intros _]; lia. }
  destruct (Hook.addEvent_rt env) as [|rt rts]; [discriminate|].
  destruct (Z.eqb_spec timeout UINT64_MAX) as [Heq|Hne]; cbn [negb].
  - destruct (rt =? -1).
    { intros [= <-]. cbn [Hook.trace]. repeat rewrite count_app. rewrite ?Hk1, ?Hk2.
      cbn. lia. }
    destruct (Hook.cancelled env) as [|c cs]; [discriminate|].
    destruct (c =? Hook.ETIMEDOUT).
    { intros [= <-]. cbn [Hook.trace]. repeat rewrite count_app. rewrite ?Hk1, ?Hk2.
      cbn. lia. }
    intros Hr. apply IH in Hr as [H1 H2]. specialize (H2 Heq).
    repeat rewrite count_app in H1. repeat rewrite count_app in H2.
    rewrite ?Hk1, ?Hk2 in H1. rewrite ?Hk1, ?Hk2 in H2. cbn in H1, H2. split; [lia|].
    intros _. lia.
  - destruct (rt =? -1).
    { intros [= <-]. cbn [Hook.trace]. repeat rewrite count_app. rewrite ?Hk1, ?Hk2.
      cbn. split; [lia|contradiction]. }
    destruct (Hook.cancelled env) as [|c cs]; [discriminate|].
    destruct (c =? Hook.ETIMEDOUT).
    { intros [= <-]. cbn [Hook.trace]. repeat rewrite count_app. rewrite ?Hk1, ?Hk2.
      cbn. split; [lia|contradiction]. }
    intros Hr. apply IH in Hr as [H1 _].
    repeat rewrite count_app in H1. rewrite ?Hk1, ?Hk2 in H1. cbn in H1.
    split; [lia|contradiction].
Qed.

(** X16: Whenever [do_io] returns, every timer it has armed has been
    cancelled, and it arms none for a descriptor whose timeout is
    unset ([UINT64_MAX]). *)
Theorem do_io_timers_balanced hook m fd event timeout_so fuel env r :
  Hook.do_io hook m fd event timeout_so fuel env = Some r ->
  HookFd.count HookFd.is_add_timer (Hook.trace r) =
    HookFd.count HookFd.is_cancel_timer (Hook.trace r) /\
  (forall c, FdOps.lookup fd m = Ok (Some c) ->
     FdManager.getTimeout c timeout_so = UINT64_MAX ->
     HookFd.count HookFd.is_add_timer (Hook.trace r) = O).
Proof.
  intros Hio.
  assert (Hco : forall r, Hook.call_original env = Some r ->
            Hook.trace r = [Hook.CallOriginal]).
  { intros r0. unfold Hook.call_original.
    destruct (Hook.original env) as [|[n e] l]; [discriminate|].
    now intros [= <-]. }
  unfold Hook.do_io in Hio.
  destruct (negb hook); [rewrite (Hco r Hio); split; [reflexivity|auto]|].
  unfold FdOps.lookup.
  destruct (FdManager.get fd false None m) as [[[c|] m1]| |] eqn:Hg;
    try discriminate; [|rewrite (Hco r Hio); split; [reflexivity|auto]].
  destruct (FdManager.m_isClosed c).
  { injection Hio as <-. split; [reflexivity|auto]. }
  destruct (negb (FdManager.m_isSocket c) || FdManager.m_userNonblock c);
    [rewrite (Hco r Hio); split; [reflexivity|auto]|].
  apply retry_balanced in Hio as [H1 H2]. cbn in H1, H2. split; [lia|].
  cbn. intros c' [= <-] Ht. now apply H2.
Qed.

Lemma do_io_timers_balanced_witness :
  let c := FdOps.setTimeout FdManager.SO_RCVTIMEO 100
             (FdManager.new_FdCtx 5 (Some true)) in
  let m := FdOps.store 5 c FdManager.init in
  let r := Hook.mkResult (-1) (Some Hook.ETIMEDOUT)
             [Hook.CallOriginal; Hook.AddConditionTimer 100;
              Hook.AddEvent 5 1; Hook.Yield; Hook.CancelTimer] in
  HookFd.count HookFd.is_add_timer (Hook.trace r) =
    HookFd.count HookFd.is_cancel_timer (Hook.trace r) /\
  (forall c, FdOps.lookup 5 m = Ok (Some c) ->
     FdManager.getTimeout c FdManager.SO_RCVTIMEO = UINT64_MAX ->
     HookFd.count HookFd.is_add_timer (Hook.trace r) = O).
Proof.
  intros c m r.
  apply (do_io_timers_balanced true m 5 1 FdManager.SO_RCVTIMEO 2
           (Hook.mkEnv [(-1, 11)] [0] [110]) r).
  reflexivity.
Defined.

(** ** The sleeping hooks *)

(** The timer that [addTimer] creates, and its place in the set when
    no timer of the set has its deadline. *)
Lemma addTimer_member ms cb recurring now m :
  Timer.wf m ->
  Forall (fun y => Timer.deadline (Timer.objects m) y
                   <> now + Timer.milliseconds ms) (Timer._m_timers m) ->
  exists f m',
    Timer.addTimer ms cb recurring now m = (length (Timer.objects m), f, m') /\
    In (length (Timer.objects m)) (Timer._m_timers m') /\
    Timer.objects m' !! length (Timer.objects m) =
      Some (Timer.mkTimer recurring ms (now + Timer.milliseconds ms) cb).
Proof.
  intros [Hord Hlive] Hfresh. unfold Timer.addTimer, Timer.addTimer_ptr.
  cbn [Timer.set_objects Timer.objects Timer._m_timers Timer._m_tickled].
  set (t := Timer.mkTimer recurring ms (now + Timer.milliseconds ms) cb).
  set (o := Timer.objects m ++ [t]).
  set (h := length (Timer.objects m)).
  assert (Hold : forall y, In y (Timer._m_timers m) ->
                   Timer.deadline o y = Timer.deadline (Timer.objects m) y).
  { intros y Hy. unfold Timer.deadline. subst o. rewrite lookup_app_l;
      [reflexivity|]. unfold Timer.live in Hlive.
    rewrite Forall_forall in Hlive. apply Hlive. now apply list_elem_of_In. }
  assert (Hoh : o !! h = Some t).
  { subst o h. rewrite lookup_app_r by lia. now rewrite Nat.sub_diag. }
  assert (Hnew : Timer.deadline o h = now + Timer.milliseconds ms)
    by (now apply (deadline_lookup _ _ t)).
  assert (Hmap : map (Timer.deadline o) (Timer._m_timers m) =
                 map (Timer.deadline (Timer.objects m)) (Timer._m_timers m))
    by (apply map_ext_in; exact Hold).
  destruct (set_insert_fresh o h (Timer._m_timers m))
    as (l' & i & Hins & Hlk & _).
  { rewrite Hmap. exact Hord. }
  { rewrite Forall_forall in Hfresh |- *. intros y Hy.
    rewrite Hnew, Hold by (now apply list_elem_of_In). now apply Hfresh. }
  rewrite Hins.
  assert (Hin : In h l').
  { apply list_elem_of_In. eapply list_elem_of_lookup_2; eauto. }
  destruct (Nat.eqb i 0 && negb (Timer._m_tickled m));
    eexists; eexists; (split; [reflexivity|]); cbn; split; assumption.
Qed.

Lemma sleep_ms_small seconds :
  0 <= seconds < 4294968 -> HookSleep.sleep_ms seconds = seconds * 1000.
Proof. intros H. unfold HookSleep.sleep_ms. apply Z.mod_small. lia. Qed.

Lemma nanosleep_ms_small tv_sec tv_nsec :
  0 <= tv_sec -> 0 <= tv_nsec ->
  tv_sec * 1000 + tv_nsec / 1000000 <= INT_MAX ->
  HookSleep.nanosleep_ms tv_sec tv_nsec =
    Ok (tv_sec * 1000 + tv_nsec / 1000000).
Proof.
  intros Hs Hn Hle. unfold HookSleep.nanosleep_ms, HookFd.in_long.
  rewrite (Z.quot_div_nonneg tv_nsec) by lia.
  assert (0 <= tv_nsec / 1000) by (apply Z.div_pos; lia).
  rewrite Z.quot_div_nonneg by lia.
  rewrite Z.div_div by lia. change (1000 * 1000) with 1000000.
  assert (0 <= tv_nsec / 1000000) by (apply Z.div_pos; lia).
  unfold INT_MAX in Hle.
  destruct (Z.leb_spec (- 2 ^ 63) (tv_sec * 1000)); [|lia].
  destruct (Z.ltb_spec (tv_sec * 1000) (2 ^ 63)); [|lia]. cbn [andb negb].
  destruct (Z.leb_spec (- 2 ^ 63) (tv_sec * 1000 + tv_nsec / 1000000)); [|lia].
  destruct (Z.ltb_spec (tv_sec * 1000 + tv_nsec / 1000000) (2 ^ 63)); [|lia].
  cbn [andb negb]. f_equal. rewrite to_int_small by (unfold INT_MAX; lia).
  unfold wrap64, UINT64_MOD. apply Z.mod_small. lia.
Qed.

(** X17: With the hook enabled, [sleep], [usleep] and [nanosleep] arm a
    one-shot timer that carries the wake-up callback and is in the
    set when no timer of the set has the same deadline.  For
    [sleep(seconds)] with [seconds * 1000] below 2^32 the deadline is
    exactly [seconds] after the current time; [usleep] and
    [nanosleep] round the delay down to whole milliseconds, so the
    deadline is at most the time asked for and less than one
    millisecond before it. *)
Theorem sleep_hooks_arm_timer now cb m :
  Timer.wf m ->
  let fresh ms :=
    Forall (fun y => Timer.deadline (Timer.objects m) y
                     <> now + Timer.milliseconds ms) (Timer._m_timers m) in
  (forall seconds, 0 <= seconds < 4294968 ->
     fresh (HookSleep.sleep_ms seconds) ->
     exists p f m',
       HookSleep.sleep true seconds cb now m = Some (p, f, m') /\
       In p (Timer._m_timers m') /\
       Timer.objects m' !! p =
         Some (Timer.mkTimer false (seconds * 1000)
                 (now + seconds * 1000000000) (Some cb))) /\
  (forall usec, 0 <= usec ->
     fresh (HookSleep.usleep_ms usec) ->
     exists p f m' d,
       HookSleep.usleep true usec cb now m = Some (p, f, m') /\
       In p (Timer._m_timers m') /\
       Timer.objects m' !! p =
         Some (Timer.mkTimer false (usec / 1000) d (Some cb)) /\
       now + usec * 1000 - 1000000 < d <= now + usec * 1000) /\
  (forall tv_sec tv_nsec, 0 <= tv_sec -> 0 <= tv_nsec ->
     tv_sec * 1000 + tv_nsec / 1000000 <= INT_MAX ->
     fresh (tv_sec * 1000 + tv_nsec / 1000000) ->
     exists p f m' d,
       HookSleep.nanosleep true tv_sec tv_nsec cb now m = Some (Ok (p, f, m')) /\
       In p (Timer._m_timers m') /\
       Timer.objects m' !! p =
         Some (Timer.mkTimer false (tv_sec * 1000 + tv_nsec / 1000000) d
                 (Some cb)) /\
       now + (tv_sec * 1000000000 + tv_nsec) - 1000000 < d
         <= now + (tv_sec * 1000000000 + tv_nsec)).
Proof.
  intros Hwf fresh. split; [|split].
  - intros seconds Hs Hfresh. unfold HookSleep.sleep. cbn [negb].
    rewrite sleep_ms_small in * by exact Hs.
    destruct (addTimer_member (seconds * 1000) (Some cb) false now m Hwf Hfresh)
      as (f & m' & Hadd & Hin & Hobj).
    exists (length (Timer.objects m)), f, m'. rewrite Hadd.
    split; [reflexivity|]. split; [exact Hin|]. rewrite Hobj.
    unfold Timer.milliseconds. do 3 f_equal. lia.
  - intros usec Hu Hfresh. unfold HookSleep.usleep, HookSleep.usleep_ms in *.
    cbn [negb].
    destruct (addTimer_member (usec / 1000) (Some cb) false now m Hwf Hfresh)
      as (f & m' & Hadd & Hin & Hobj).
    exists (length (Timer.objects m)), f, m', (now + Timer.milliseconds (usec / 1000)).
    rewrite Hadd. split; [reflexivity|]. split; [exact Hin|].
    split; [exact Hobj|]. unfold Timer.milliseconds.
    pose proof (Z.div_mod usec 1000 ltac:(lia)).
    pose proof (Z.mod_pos_bound usec 1000 ltac:(lia)). lia.
  - intros tv_sec tv_nsec Hs Hn Hle Hfresh. unfold HookSleep.nanosleep.
    cbn [negb]. rewrite nanosleep_ms_small by assumption. cbn [obind].
    destruct (addTimer_member (tv_sec * 1000 + tv_nsec / 1000000) (Some cb)
                false now m Hwf Hfresh) as (f & m' & Hadd & Hin & Hobj).
    exists (length (Timer.objects m)), f, m',
      (now + Timer.milliseconds (tv_sec * 1000 + tv_nsec / 1000000)).
    rewrite Hadd. split; [reflexivity|]. split; [exact Hin|].
    split; [exact Hobj|]. unfold Timer.milliseconds.
    pose proof (Z.div_mod tv_nsec 1000000 ltac:(lia)).
    pose proof (Z.mod_pos_bound tv_nsec 1000000 ltac:(lia)). lia.
Qed.

Lemma sleep_hooks_arm_timer_witness :
  exists p f m',
    HookSleep.sleep true 2 7%nat 5 (Timer.init 0) = Some (p, f, m') /\
    In p (Timer._m_timers m') /\
    Timer.objects m' !! p =
      Some (Timer.mkTimer false (2 * 1000) (5 + 2 * 1000000000) (Some 7%nat)).
Proof.
  apply (proj1 (sleep_hooks_arm_timer 5 7%nat (Timer.init 0)
                  ltac:(split; repeat constructor)) 2).
  - lia.
  - constructor.
Defined.

(** ** The slots of the contexts *)

Lemma armed_set_EventContext e e' ec c :
  IOManager.armed e' (IOManager.set_EventContext e ec c) = IOManager.armed e' c.
Proof. unfold IOManager.armed. now rewrite events_set_EventContext. Qed.

Lemma get_set_EventContext_ne e e' ec c :
  e <> e' ->
  IOManager.getEventContext e' (IOManager.set_EventContext e ec c) =
  IOManager.getEventContext e' c.
Proof. destruct e, e'; intros H; try congruence; reflexivity. Qed.

Lemma get_set_events e x c :
  IOManager.getEventContext e (IOManager.set_events x c) =
  IOManager.getEventContext e c.
Proof. destruct e; reflexivity. Qed.

Lemma land_lnot5_arm x e :
  Z.land x (Z.lnot 5) = 0 ->
  Z.land (Z.lor x (IOManager.event_bits e)) (Z.lnot 5) = 0.
Proof.
  intros H. rewrite Z.land_lor_distr_l, H. destruct e; reflexivity.
Qed.

Lemma land_lnot5_clear x y :
  Z.land x (Z.lnot 5) = 0 -> Z.land (Z.land x y) (Z.lnot 5) = 0.
Proof.
  intros H. rewrite <- Z.land_assoc, (Z.land_comm y), Z.land_assoc, H.
  apply Z.land_0_l.
Qed.

Lemma slot_ok_new i : IOStop.slot_ok (IOManager.new_FdContext i).
Proof. split; [reflexivity|]. intros []; reflexivity. Qed.

(** Arming the direction [e] and filling its slot. *)
Lemma slot_ok_arm e ec c :
  IOStop.slot_ok c ->
  IOStop.slot_ok
    (IOManager.set_EventContext e ec
       (IOManager.set_events
          (Z.lor (IOManager.events c) (IOManager.event_bits e)) c)).
Proof.
  intros [Hm Hs]. split.
  - rewrite events_set_EventContext. cbn. now apply land_lnot5_arm.
  - intros e' Ha. rewrite armed_set_EventContext in Ha.
    rewrite armed_testbit in Ha. cbn [IOManager.set_events IOManager.events] in Ha.
    rewrite testbit_arm in Ha. apply orb_false_iff in Ha as [Ha He].
    apply bool_decide_eq_false in He.
    rewrite get_set_EventContext_ne by exact He.
    rewrite get_set_events. apply Hs. now rewrite armed_testbit.
Qed.

(** Clearing the direction [e] and emptying its slot. *)
Lemma slot_ok_clear e c :
  IOStop.slot_ok c ->
  IOStop.slot_ok
    (IOManager.resetEventContext e
       (IOManager.set_events
          (Z.land (IOManager.events c) (Z.lnot (IOManager.event_bits e))) c)).
Proof.
  intros [Hm Hs]. split.
  - rewrite events_reset. cbn. now apply land_lnot5_clear.
  - intros e' Ha. unfold IOManager.resetEventContext in *.
    rewrite armed_set_EventContext in Ha.
    destruct (decide (e = e')) as [<-|Hne].
    + apply get_set_EventContext.
    + rewrite get_set_EventContext_ne by exact Hne.
      rewrite armed_testbit in Ha.
      cbn [IOManager.set_events IOManager.events] in Ha.
      rewrite testbit_clear in Ha.
      rewrite (bool_decide_eq_false_2 _ Hne), andb_true_r in Ha.
      rewrite get_set_events. apply Hs. now rewrite armed_testbit.
Qed.

Lemma Slots_insert s s' p c' :
  IOStop.Slots s ->
  IOManager._m_fdContexts s' = <[p := c']> (IOManager._m_fdContexts s) ->
  IOStop.slot_ok c' -> IOStop.Slots s'.
Proof.
  unfold IOStop.Slots. intros Hs -> Hc. now apply Forall_insert.
Qed.

Lemma Slots_same s s' :
  IOStop.Slots s ->
  IOManager._m_fdContexts s' = IOManager._m_fdContexts s -> IOStop.Slots s'.
Proof. unfold IOStop.Slots. now intros Hs ->. Qed.

Lemma Slots_lookup s p c :
  IOStop.Slots s -> IOManager._m_fdContexts s !! p = Some c -> IOStop.slot_ok c.
Proof.
  unfold IOStop.Slots. rewrite Forall_forall. intros Hs Hp. apply Hs.
  eapply list_elem_of_lookup_2; eauto.
Qed.

Lemma Slots_contextResize size s :
  IOStop.Slots s -> IOStop.Slots (IOManager.contextResize size s).
Proof.
  unfold IOStop.Slots, IOManager.contextResize. cbn. intros Hs.
  apply Forall_app. split.
  - now apply Forall_take.
  - apply Forall_forall. intros c Hc. apply list_elem_of_In, in_map_iff in Hc
      as (i & <- & _). apply slot_ok_new.
Qed.

Lemma Slots_triggerEvent e p s s' :
  IOStop.Slots s -> IOManager.triggerEvent e p s = Ok s' -> IOStop.Slots s'.
Proof.
  intros Hs Ht. destruct (triggerEvent_spec _ _ _ _ Ht) as (c & Hc & _ & Hctx & _).
  eapply Slots_insert; [exact Hs|exact Hctx|].
  apply slot_ok_clear. eapply Slots_lookup; eauto.
Qed.

Lemma Slots_fire_if mask e p s s' :
  IOStop.Slots s -> IOManager.fire_if mask e p s = Ok s' -> IOStop.Slots s'.
Proof.
  intros Hs. unfold IOManager.fire_if.
  destruct (negb (Z.land mask (IOManager.event_bits e) =? 0));
    [|now intros [= <-]].
  destruct (IOManager.triggerEvent e p s) as [s1| |] eqn:Ht; try discriminate.
  cbn. intros [= <-]. apply (Slots_same s1); [|reflexivity].
  eapply Slots_triggerEvent; eauto.
Qed.

Lemma Slots_addEvent_locked n e cb0 th s r s' :
  IOStop.Slots s -> IOManager.addEvent_locked n e cb0 th s = Ok (r, s') ->
  IOStop.Slots s'.
Proof.
  intros Hs. unfold IOManager.addEvent_locked.
  destruct (IOManager._m_fdContexts s !! index_of n) as [c|] eqn:Hc;
    [|discriminate].
  destruct (IOManager.armed e c); [now intros [= _ <-]|].
  destruct (IOManager.epoll_ctl _ _ _ _) as [rt k].
  destruct (negb (rt =? 0)); [intros [= _ <-]; now apply (Slots_same s)|].
  destruct (assert _) as [[]| |]; try discriminate. cbn [obind].
  pose proof (Slots_lookup _ _ _ Hs Hc) as Hok.
  destruct cb0 as [f|].
  - intros [= _ <-]. eapply (Slots_insert s); [exact Hs|reflexivity|].
    now apply slot_ok_arm.
  - destruct (assert _) as [[]| |]; try discriminate. cbn [obind].
    intros [= _ <-]. eapply (Slots_insert s); [exact Hs|reflexivity|].
    now apply slot_ok_arm.
Qed.

Lemma Slots_addEvent n e cb0 th s r s' :
  IOStop.Slots s -> IOManager.addEvent n e cb0 th s = Ok (r, s') ->
  IOStop.Slots s'.
Proof.
  intros Hs. unfold IOManager.addEvent.
  destruct (IOManager.size_gt_fd s n); cbn [obind].
  - now apply Slots_addEvent_locked.
  - destruct (one_and_a_half n) as [size| |]; try discriminate. cbn [obind].
    apply Slots_addEvent_locked. now apply Slots_contextResize.
Qed.

Lemma unregister_contexts who n e s r :
  IOManager.unregister who n e s = Ok r ->
  match r with
  | inl (_, s') => IOManager._m_fdContexts s' = IOManager._m_fdContexts s
  | inr (p, new_events, s1) =>
      IOManager._m_fdContexts s1 = IOManager._m_fdContexts s /\
      p = index_of n /\
      exists c, IOManager._m_fdContexts s !! p = Some c /\
        new_events =
          Z.land (IOManager.events c) (Z.lnot (IOManager.event_bits e))
  end.
Proof.
  unfold IOManager.unregister.
  destruct (IOManager.size_gt_fd s n); [|now intros [= <-]].
  destruct (IOManager._m_fdContexts s !! index_of n) as [c|] eqn:Hc;
    [|discriminate].
  destruct (negb (IOManager.armed e c)); [now intros [= <-]|].
  destruct (IOManager.epoll_ctl _ _ _ _) as [rt k].
  destruct (negb (rt =? 0)); intros [= <-]; [reflexivity|].
  split; [reflexivity|]. split; [reflexivity|]. eauto.
Qed.

Lemma Slots_delEvent n e s r s' :
  IOStop.Slots s -> IOManager.delEvent n e s = Ok (r, s') -> IOStop.Slots s'.
Proof.
  intros Hs. unfold IOManager.delEvent.
  destruct (IOManager.unregister _ n e s) as [[[b s0]|[[p ne] s1]]| |] eqn:Hu;
    try discriminate; cbn [obind]; apply unregister_contexts in Hu.
  - intros [= _ <-]. now apply (Slots_same s).
  - destruct Hu as (Hctx & -> & c & Hc & ->). rewrite Hctx, Hc.
    intros [= _ <-]. eapply (Slots_insert s); [exact Hs|reflexivity|].
    apply slot_ok_clear. eapply Slots_lookup; eauto.
Qed.

Lemma Slots_cancelEvent n e s r s' :
  IOStop.Slots s -> IOManager.cancelEvent n e s = Ok (r, s') -> IOStop.Slots s'.
Proof.
  intros Hs. unfold IOManager.cancelEvent.
  destruct (IOManager.unregister _ n e s) as [[[b s0]|[[p ne] s1]]| |] eqn:Hu;
    try discriminate; cbn [obind]; apply unregister_contexts in Hu.
  - intros [= _ <-]. now apply (Slots_same s).
  - destruct Hu as (Hctx & _).
    destruct (IOManager.triggerEvent e p s1) as [s2| |] eqn:Ht; try discriminate.
    cbn. intros [= _ <-]. eapply Slots_triggerEvent; [|exact Ht].
    now apply (Slots_same s).
Qed.

Lemma Slots_cancelAll n s r s' :
  IOStop.Slots s -> IOManager.cancelAll n s = Ok (r, s') -> IOStop.Slots s'.
Proof.
  intros Hs. unfold IOManager.cancelAll.
  destruct (IOManager.size_gt_fd s n); [|now intros [= _ <-]].
  destruct (IOManager._m_fdContexts s !! index_of n) as [c|]; [|discriminate].
  destruct (IOManager.events c =? 0); [now intros [= _ <-]|].
  destruct (IOManager.epoll_ctl _ _ _ _) as [rt k].
  destruct (negb (rt =? 0)); [intros [= _ <-]; now apply (Slots_same s)|].
  destruct (IOManager.events_at _ _) as [e1| |]; try discriminate. cbn [obind].
  destruct (IOManager.fire_if e1 _ _ _) as [s2| |] eqn:H2; try discriminate.
  cbn [obind].
  destruct (IOManager.events_at _ s2) as [e2| |]; try discriminate. cbn [obind].
  destruct (IOManager.fire_if e2 _ _ _) as [s3| |] eqn:H3; try discriminate.
  cbn [obind].
  destruct (IOManager.events_at _ s3) as [e3| |]; try discriminate. cbn [obind].
  destruct (assert _) as [[]| |]; try discriminate. cbn [obind].
  intros [= _ <-]. eapply Slots_fire_if; [|exact H3].
  eapply Slots_fire_if; [|exact H2]. now apply (Slots_same s).
Qed.

Lemma Slots_idle_event data revents s s' :
  IOStop.Slots s -> IOManager.idle_event data revents s = Ok s' ->
  IOStop.Slots s'.
Proof.
  intros Hs. unfold IOManager.idle_event. destruct data as [n|p].
  - destruct (n =? _); [|discriminate]. intros [= <-]. now apply (Slots_same s).
  - destruct (IOManager._m_fdContexts s !! p) as [c|]; [|discriminate].
    cbv zeta. destruct (Z.land (IOManager.events c) _ =? IOManager.NONE);
      [now intros [= <-]|].
    destruct (IOManager.epoll_ctl _ _ _ _) as [rt k].
    destruct (negb (rt =? 0)); [intros [= <-]; now apply (Slots_same s)|].
    destruct (IOManager.fire_if _ IOManager.READ _ _) as [s2| |] eqn:H2;
      try discriminate. cbn [obind]. intros H3.
    eapply Slots_fire_if; [|exact H3].
    eapply Slots_fire_if; [|exact H2]. now apply (Slots_same s).
Qed.

Lemma Slots_idle_events evs : forall s s',
  IOStop.Slots s -> IOManager.idle_events evs s = Ok s' -> IOStop.Slots s'.
Proof.
  induction evs as [|[data revents] evs IH]; intros s s' Hs;
    [now intros [= <-]|]. cbn [IOManager.idle_events].
  destruct (IOManager.idle_event data revents s) as [s1| |] eqn:H1;
    try discriminate. cbn [obind]. apply IH. eapply Slots_idle_event; eauto.
Qed.

Lemma Slots_init b fds opened : IOStop.Slots (IOManager.init b fds opened).
Proof.
  unfold IOManager.init. apply Slots_contextResize. constructor.
Qed.

Lemma run_Slots c s s' :
  IOStop.Slots s -> IOManager.run c s = Ok s' -> IOStop.Slots s'.
Proof.
  intros Hs. destruct c as [n e cb0 th|n e|n e|n|evs]; cbn [IOManager.run].
  - destruct (IOManager.addEvent n e cb0 th s) as [[r s1]| |] eqn:H;
      try discriminate. cbn. intros [= <-]. eapply Slots_addEvent; eauto.
  - destruct (IOManager.delEvent n e s) as [[r s1]| |] eqn:H;
      try discriminate. cbn. intros [= <-]. eapply Slots_delEvent; eauto.
  - destruct (IOManager.cancelEvent n e s) as [[r s1]| |] eqn:H;
      try discriminate. cbn. intros [= <-]. eapply Slots_cancelEvent; eauto.
  - destruct (IOManager.cancelAll n s) as [[r s1]| |] eqn:H;
      try discriminate. cbn. intros [= <-]. eapply Slots_cancelAll; eauto.
  - now apply Slots_idle_events.
Qed.

Lemma reachable_Slots s0 s :
  IOStop.Slots s0 -> IOManager.reachable s0 s -> IOStop.Slots s.
Proof.
  intros H0. induction 1 as [|s c s' _ IH _ Hrun|s s' _ IH Hsame].
  - exact H0.
  - eapply run_Slots; eauto.
  - apply (Slots_same s); [exact IH|]. now destruct Hsame as (_ & _ & _ & ->).
Qed.

Lemma testbit_5 i : 0 <= i -> Z.testbit 5 i = (i =? 0) || (i =? 2).
Proof.
  intros Hi. change 5 with (Z.lor (2 ^ 0) (2 ^ 2)).
  rewrite Z.lor_spec, !Z.pow2_bits_eqb by lia.
  now rewrite (Z.eqb_sym 0), (Z.eqb_sym 2).
Qed.

Lemma mask_bits x i :
  Z.land x (Z.lnot 5) = 0 -> 0 <= i -> i <> 0 -> i <> 2 ->
  Z.testbit x i = false.
Proof.
  intros H Hi H0 H2. apply (f_equal (fun z => Z.testbit z i)) in H.
  rewrite Z.land_spec, Z.lnot_spec, testbit_5, Z.bits_0 in H by exact Hi.
  destruct (Z.eqb_spec i 0); [lia|]. destruct (Z.eqb_spec i 2); [lia|].
  cbn in H. now rewrite andb_true_r in H.
Qed.

(** A mask within [READ | WRITE] with both bits cleared is empty. *)
Lemma mask_cleared x y :
  Z.land x (Z.lnot 5) = 0 ->
  Z.testbit y 0 = false -> Z.testbit y 2 = false ->
  (forall i, 0 <= i -> Z.testbit y i = true -> Z.testbit x i = true) ->
  y = 0.
Proof.
  intros H H0 H2 Hsub. apply Z.bits_inj'. intros i Hi. rewrite Z.bits_0.
  destruct (Z.eq_dec i 0) as [->|Hn0]; [exact H0|].
  destruct (Z.eq_dec i 2) as [->|Hn2]; [exact H2|].
  destruct (Z.testbit y i) eqn:Hy; [|reflexivity].
  rewrite <- (mask_bits x i H Hi Hn0 Hn2). symmetry. now apply Hsub.
Qed.

Lemma slot_assert_passes e c x :
  IOStop.slot_ok c -> IOManager.armed e c = false ->
  let event_ctx := IOManager.getEventContext e (IOManager.set_events x c) in
  assert (negb (bool_decide (is_Some (IOManager.scheduler event_ctx)))
          && negb (bool_decide (is_Some (IOManager.fiber event_ctx)))
          && negb (bool_decide (is_Some (IOManager.cb event_ctx)))) = Ok tt.
Proof.
  intros [_ Hs] Ha. cbv zeta. rewrite get_set_events, (Hs e Ha). reflexivity.
Qed.

Lemma addEvent_locked_no_assert n e f th s :
  IOStop.Slots s ->
  IOManager.addEvent_locked n e (Some f) th s <> AssertFail.
Proof.
  intros Hs. unfold IOManager.addEvent_locked.
  destruct (IOManager._m_fdContexts s !! index_of n) as [c|] eqn:Hc;
    [|discriminate].
  destruct (IOManager.armed e c) eqn:Ha; [discriminate|].
  destruct (IOManager.epoll_ctl _ _ _ _) as [rt k].
  destruct (negb (rt =? 0)); [discriminate|].
  rewrite (slot_assert_passes e c _ (Slots_lookup _ _ _ Hs Hc) Ha).
  discriminate.
Qed.

Lemma triggerEvent_no_assert e p s c :
  IOManager._m_fdContexts s !! p = Some c -> IOManager.armed e c = true ->
  IOManager.triggerEvent e p s <> AssertFail.
Proof.
  intros Hc Ha. unfold IOManager.triggerEvent. rewrite Hc, Ha. cbn [assert obind].
  destruct (IOManager.scheduler _) as [[|k]|]; try discriminate.
  - unfold IOManager.scheduleLock, Scheduler.scheduleLock, IOManager.tickle.
    destruct (Scheduler.is_empty _); [|discriminate].
    destruct (negb _); discriminate.
  - destruct (Scheduler.task_present _); discriminate.
Qed.

Lemma fire_if_no_assert mask e p s c :
  IOManager._m_fdContexts s !! p = Some c ->
  (Z.testbit mask (IOManager.bit_of e) = true -> IOManager.armed e c = true) ->
  IOManager.fire_if mask e p s <> AssertFail.
Proof.
  intros Hc Ha. unfold IOManager.fire_if.
  rewrite event_bits_pow, land_pow2_eqb, negb_involutive by (destruct e; cbn; lia).
  destruct (Z.testbit mask (IOManager.bit_of e)); [|discriminate].
  pose proof (triggerEvent_no_assert e p s c Hc (Ha eq_refl)) as Ht.
  destruct (IOManager.triggerEvent e p s); [discriminate|contradiction|discriminate].
Qed.

(** The context after [fire_if], explicitly. *)
Lemma fire_if_ctx mask e p s s' c :
  IOManager.fire_if mask e p s = Ok s' ->
  IOManager._m_fdContexts s !! p = Some c ->
  IOManager._m_fdContexts s' =
    <[p := if Z.testbit mask (IOManager.bit_of e)
           then IOManager.resetEventContext e
                  (IOManager.set_events
                     (Z.land (IOManager.events c)
                        (Z.lnot (IOManager.event_bits e))) c)
           else c]> (IOManager._m_fdContexts s).
Proof.
  unfold IOManager.fire_if.
  rewrite event_bits_pow, land_pow2_eqb, negb_involutive by (destruct e; cbn; lia).
  rewrite <- event_bits_pow.
  destruct (Z.testbit mask (IOManager.bit_of e)).
  - destruct (IOManager.triggerEvent e p s) as [s1| |] eqn:Ht; try discriminate.
    cbn. intros [= <-] Hc.
    destruct (triggerEvent_spec _ _ _ _ Ht) as (c' & Hc' & _ & Hctx & _).
    rewrite Hc in Hc'. injection Hc' as <-. exact Hctx.
  - intros [= <-] Hc. now rewrite list_insert_id.
Qed.

(** After [cancelAll] has fired both directions, the mask is empty. *)
Lemma fire_both_empty s s2 s3 p c c2 :
  IOStop.slot_ok c ->
  Z.of_nat (IOManager.armed_count c) <= IOManager._m_pendingEventCount s
    <= 2 * INT_MAX ->
  IOManager._m_fdContexts s !! p = Some c ->
  IOManager.fire_if (IOManager.events c) IOManager.READ p s = Ok s2 ->
  IOManager._m_fdContexts s2 !! p = Some c2 ->
  IOManager.fire_if (IOManager.events c2) IOManager.WRITE p s2 = Ok s3 ->
  exists c3,
    IOManager._m_fdContexts s3 = <[p := c3]> (IOManager._m_fdContexts s) /\
    IOManager._m_fdContexts s3 !! p = Some c3 /\
    IOManager.events c3 = 0 /\
    IOManager.fd c3 = IOManager.fd c /\
    IOManager.epoll s3 = IOManager.epoll s /\
    IOManager._m_tickleFds s3 = IOManager._m_tickleFds s /\
    IOManager._m_pendingEventCount s3 =
      IOManager._m_pendingEventCount s - Z.of_nat (IOManager.armed_count c).
Proof.
  intros [Hm _] Hb Hc H2 Hc2 H3.
  destruct (fire_twice _ _ _ s s2 s3 c Hb Hc H2 H3)
    as (c3 & Hctx & Hc3 & Hfd & Hep & Htk & Hev & Hpend).
  assert (He2 : IOManager.events c2 =
                Z.land (IOManager.events c)
                  (if Z.testbit (IOManager.events c) 0 then Z.lnot 1 else -1)).
  { pose proof (fire_if_ctx _ _ _ _ _ c H2 Hc) as Hctx2.
    rewrite Hctx2, list_lookup_insert_eq in Hc2
      by (eapply lookup_lt_Some; eauto).
    apply (inj Some) in Hc2. rewrite <- Hc2. cbn [IOManager.bit_of].
    destruct (Z.testbit (IOManager.events c) 0); cbv iota.
    - now rewrite events_reset.
    - now rewrite Z.land_m1_r. }
  assert (He3 : IOManager.events c3 = 0).
  { apply (mask_cleared (IOManager.events c)); [exact Hm| | |].
    - rewrite Hev, !Z.land_spec.
      destruct (Z.testbit (IOManager.events c) 0); reflexivity.
    - rewrite Hev, <- He2, Z.land_spec.
      destruct (Z.testbit (IOManager.events c2) 2); reflexivity.
    - intros i Hi. rewrite Hev, !Z.land_spec. intros Ht.
      apply andb_true_iff in Ht as [Ht _].
      now apply andb_true_iff in Ht as [Ht _]. }
  exists c3. repeat (split; [assumption|]).
  rewrite Hpend, (armed_count_zero c3 He3). lia.
Qed.

Lemma cancelAll_no_assert n s :
  IOManager.Inv s -> IOStop.Slots s -> IOManager.cancelAll n s <> AssertFail.
Proof.
  intros Hinv Hs. unfold IOManager.cancelAll.
  destruct (IOManager.size_gt_fd s n); [|discriminate].
  destruct (IOManager._m_fdContexts s !! index_of n) as [c|] eqn:Hc;
    [|discriminate].
  destruct (IOManager.events c =? 0); [discriminate|].
  destruct (IOManager.epoll_ctl _ _ _ _) as [rt k].
  destruct (negb (rt =? 0)); [discriminate|].
  set (s1 := IOManager.set_epoll k s).
  assert (Hc1 : IOManager._m_fdContexts s1 !! index_of n = Some c) by exact Hc.
  rewrite (events_at_lookup _ _ _ Hc1). cbn [obind].
  pose proof (fire_if_no_assert (IOManager.events c) IOManager.READ _ s1 c Hc1)
    as Hf1.
  destruct (IOManager.fire_if (IOManager.events c) IOManager.READ _ s1)
    as [s2| |] eqn:H2; [|exfalso; apply Hf1; [|reflexivity]|discriminate].
  2:{ intros Hb. now rewrite armed_testbit. }
  cbn [obind].
  pose proof (fire_if_ctx _ _ _ _ _ c H2 Hc1) as Hctx2.
  set (c2 := if Z.testbit (IOManager.events c) (IOManager.bit_of IOManager.READ)
             then _ else c) in Hctx2.
  assert (Hc2 : IOManager._m_fdContexts s2 !! index_of n = Some c2).
  { rewrite Hctx2. apply list_lookup_insert_eq. eapply lookup_lt_Some; eauto. }
  rewrite (events_at_lookup _ _ _ Hc2). cbn [obind].
  pose proof (fire_if_no_assert (IOManager.events c2) IOManager.WRITE _ s2 c2 Hc2)
    as Hf2.
  destruct (IOManager.fire_if (IOManager.events c2) IOManager.WRITE _ s2)
    as [s3| |] eqn:H3; [|exfalso; apply Hf2; [|reflexivity]|discriminate].
  2:{ intros Hb. now rewrite armed_testbit. }
  cbn [obind].
  destruct (fire_both_empty s1 s2 s3 _ c c2 (Slots_lookup _ _ _ Hs Hc)
              (pending_bounds s _ c Hinv Hc) Hc1 H2 Hc2 H3)
    as (c3 & _ & Hc3 & He3 & _).
  rewrite (events_at_lookup _ _ _ Hc3), He3. discriminate.
Qed.

(** X18: In every state that the calls of the manager can reach, the mask
    of a context holds no bit besides [READ] and [WRITE] and the slot
    of a direction that is not armed is empty.  Hence the assertion of
    [addEvent] that the slot it fills is empty never fails, nor does
    the final assertion of [cancelAll] that the mask is empty. *)
Theorem slots_kept b fds opened s :
  IOManager.reachable (IOManager.init b fds opened) s ->
  IOStop.Slots s /\
  (forall n e f th, IOManager.addEvent n e (Some f) th s <> AssertFail) /\
  (forall n, IOManager.cancelAll n s <> AssertFail).
Proof.
  intros Hr.
  pose proof (reachable_Slots _ _ (Slots_init b fds opened) Hr) as Hs.
  pose proof (reachable_Inv _ _ (Inv_init b fds opened) Hr) as Hinv.
  split; [exact Hs|]. split; [|intros n; now apply cancelAll_no_assert].
  intros n e f th. unfold IOManager.addEvent.
  destruct (IOManager.size_gt_fd s n); cbn [obind].
  - now apply addEvent_locked_no_assert.
  - unfold one_and_a_half. destruct (n <? 0); [discriminate|]. cbn [obind].
    apply addEvent_locked_no_assert. now apply Slots_contextResize.
Qed.

Lemma slots_kept_witness :
  let b := Scheduler.mk [] 1 0 0 None false [] in
  let th := IOManager.mkThread (Some IOManager.This) 1%nat true in
  let s0 := IOManager.init b (3, 4) {[3; 4; 5]} in
  exists s,
    IOManager.run (IOManager.CallAddEvent 5 IOManager.READ (Some 7%nat) th) s0
      = Ok s /\
    IOStop.Slots s /\
    (forall n e f th, IOManager.addEvent n e (Some f) th s <> AssertFail) /\
    (forall n, IOManager.cancelAll n s <> AssertFail).
Proof.
  intros b th s0.
  destruct (IOManager.run
              (IOManager.CallAddEvent 5 IOManager.READ (Some 7%nat) th) s0)
    as [s| |] eqn:Hrun; [|vm_compute in Hrun; discriminate..].
  exists s. split; [reflexivity|].
  apply (slots_kept b (3, 4) {[3; 4; 5]} s).
  eapply IOManager.reach_call; [apply IOManager.reach_init| |exact Hrun].
  split; [split|]; vm_compute; discriminate.
Defined.

(** ** Waking up the waiters of a descriptor *)

(** The task that [triggerEvent] submits for a slot. *)
Lemma scheduleLock_tasks fc thr s :
  exists s',
    IOManager.scheduleLock fc thr s = Ok s' /\
    IOManager.same_io s s' /\
    IOManager.elsewhere s' = IOManager.elsewhere s /\
    IOStop.tasks s' =
      if Scheduler.task_present (Scheduler.make_task fc thr)
      then IOStop.tasks s ++ [Scheduler.make_task fc thr]
      else IOStop.tasks s.
Proof.
  unfold IOManager.scheduleLock, Scheduler.scheduleLock, IOManager.tickle,
    IOStop.tasks.
  destruct (Scheduler.task_present _);
    destruct (Scheduler.is_empty _);
    try destruct (negb (Scheduler.hasIdleThreads _));
    eexists; (split; [reflexivity|]); repeat split; reflexivity.
Qed.

Lemma triggerEvent_This e p s c :
  IOManager._m_fdContexts s !! p = Some c ->
  IOManager.armed e c = true ->
  IOManager.scheduler (IOManager.getEventContext e c) = Some IOManager.This ->
  exists s',
    IOManager.triggerEvent e p s = Ok s' /\
    IOStop.tasks s' =
      let ctx := IOManager.getEventContext e c in
      let task :=
        Scheduler.make_task
          (match IOManager.cb ctx with
           | Some f => Scheduler.ByCb (Some f)
           | None => Scheduler.ByFiber (IOManager.fiber ctx)
           end) (-1) in
      if Scheduler.task_present task then IOStop.tasks s ++ [task]
      else IOStop.tasks s.
Proof.
  intros Hc Ha Hsch. unfold IOManager.triggerEvent. rewrite Hc, Ha.
  cbn [assert obind]. cbv zeta. rewrite get_set_events, Hsch.
  match goal with
  | |- context [IOManager.scheduleLock ?fc ?thr ?s1] =>
      destruct (scheduleLock_tasks fc thr s1) as (s' & Hs' & _ & _ & Ht)
  end.
  exists s'. split; [exact Hs'|]. exact Ht.
Qed.

Lemma triggerEvent_ok e p s c :
  IOManager._m_fdContexts s !! p = Some c ->
  IOManager.armed e c = true ->
  is_Some (IOManager.scheduler (IOManager.getEventContext e c)) ->
  exists s', IOManager.triggerEvent e p s = Ok s'.
Proof.
  intros Hc Ha [sp Hsch]. unfold IOManager.triggerEvent. rewrite Hc, Ha.
  cbn [assert obind]. cbv zeta. rewrite get_set_events, Hsch.
  destruct sp as [|k].
  - match goal with
    | |- context [IOManager.scheduleLock ?fc ?thr ?s1] =>
        destruct (scheduleLock_tasks fc thr s1) as (s' & Hs' & _)
    end. eauto.
  - destruct (Scheduler.task_present _); eauto.
Qed.

Lemma fire_if_ok mask e p s c :
  IOManager._m_fdContexts s !! p = Some c ->
  (Z.testbit mask (IOManager.bit_of e) = true ->
   IOManager.armed e c = true /\
   is_Some (IOManager.scheduler (IOManager.getEventContext e c))) ->
  exists s', IOManager.fire_if mask e p s = Ok s'.
Proof.
  intros Hc Ha. unfold IOManager.fire_if.
  rewrite event_bits_pow, land_pow2_eqb, negb_involutive by (destruct e; cbn; lia).
  destruct (Z.testbit mask (IOManager.bit_of e)); [|eauto].
  destruct (Ha eq_refl) as [Harm Hsch].
  destruct (triggerEvent_ok e p s c Hc Harm Hsch) as [s' ->]. cbn. eauto.
Qed.

Lemma armed_mask_other s s' p c' n :
  IOManager._m_fdContexts s' = <[p := c']> (IOManager._m_fdContexts s) ->
  n <> Z.of_nat p ->
  IOManager.armed_mask s' n = IOManager.armed_mask s n.
Proof.
  intros Hctx Hne. unfold IOManager.armed_mask. rewrite Hctx.
  destruct (n <? 0) eqn:Hn; [reflexivity|]. apply Z.ltb_ge in Hn.
  rewrite list_lookup_insert_ne by lia. reflexivity.
Qed.

(** [cancelAll] on a descriptor that is open, when the armed slots of
    its context name a scheduler. *)
Lemma cancelAll_total n s :
  IOManager.Inv s -> IOStop.Slots s -> 0 <= n <= INT_MAX ->
  n ∈ IOManager.open_fds (IOManager.epoll s) ->
  (forall c e, IOManager._m_fdContexts s !! Z.to_nat n = Some c ->
     IOManager.armed e c = true ->
     is_Some (IOManager.scheduler (IOManager.getEventContext e c))) ->
  exists s',
    IOManager.cancelAll n s = Ok (negb (IOManager.armed_mask s n =? 0), s') /\
    IOManager.armed_mask s' n = 0 /\
    (forall n', n' <> n ->
       IOManager.armed_mask s' n' = IOManager.armed_mask s n') /\
    IOManager._m_pendingEventCount s' =
      IOManager._m_pendingEventCount s
      - match IOManager._m_fdContexts s !! Z.to_nat n with
        | Some c => Z.of_nat (IOManager.armed_count c)
        | None => 0
        end /\
    (IOManager.armed_mask s n <> 0 -> IOManager.registration s' n = None).
Proof.
  intros Hinv Hs Hn Hopen Hsch. unfold IOManager.cancelAll.
  rewrite size_gt_fd_Inv by exact Hinv.
  assert (Hidx : index_of n = Z.to_nat n).
  { apply index_of_int. exact Hn. }
  rewrite Hidx.
  destruct (Z.gtb_spec (Z.of_nat (length (IOManager._m_fdContexts s))) n)
    as [Hlt|Hge].
  2:{ assert (Hnone : IOManager._m_fdContexts s !! Z.to_nat n = None)
        by (apply lookup_ge_None_2; lia).
      assert (Hm : IOManager.armed_mask s n = 0).
      { unfold IOManager.armed_mask. rewrite Hnone.
        now destruct (n <? 0). }
      rewrite Hm, Hnone. exists s. cbn. repeat split; auto; try lia. }
  destruct (lookup_lt_is_Some_2 (IOManager._m_fdContexts s) (Z.to_nat n))
    as [c Hc]; [lia|].
  rewrite Hc. rewrite (armed_mask_lookup s n c) by (lia || exact Hc).
  destruct (Z.eqb_spec (IOManager.events c) 0) as [Hz|Hnz].
  { exists s. cbn [negb]. split; [reflexivity|].
    split; [now rewrite (armed_mask_lookup s n c) by (lia || exact Hc)|].
    split; [reflexivity|]. rewrite (armed_count_zero c Hz).
    split; [lia|]. intros H; contradiction. }
  cbn [negb].
  assert (Hnp : n <> fst (IOManager._m_tickleFds s))
    by (apply (armed_not_pipe s n c); auto; lia).
  pose proof (IOManager.inv_mirror s Hinv n Hnp) as Hmir.
  rewrite (armed_mask_lookup s n c) in Hmir by (lia || exact Hc).
  unfold IOManager.mirror in Hmir.
  destruct (Z.eqb_spec (IOManager.events c) 0) as [?|_]; [contradiction|].
  unfold IOManager.registration in Hmir.
  unfold IOManager.epoll_ctl. rewrite bool_decide_eq_true_2 by exact Hopen.
  cbn [negb]. rewrite Hmir. cbn [Z.eqb negb].
  set (k := IOManager.mkEpoll _ _).
  set (s1 := IOManager.set_epoll k s).
  assert (Hc1 : IOManager._m_fdContexts s1 !! Z.to_nat n = Some c) by exact Hc.
  rewrite (events_at_lookup _ _ _ Hc1). cbn [obind].
  destruct (fire_if_ok (IOManager.events c) IOManager.READ (Z.to_nat n) s1 c Hc1)
    as [s2 H2].
  { intros Hb. rewrite armed_testbit. split; [exact Hb|].
    apply (Hsch c); [exact Hc|now rewrite armed_testbit]. }
  rewrite H2. cbn [obind].
  pose proof (fire_if_ctx _ _ _ _ _ c H2 Hc1) as Hctx2.
  set (c2 := if Z.testbit (IOManager.events c) (IOManager.bit_of IOManager.READ)
             then _ else c) in Hctx2.
  assert (Hc2 : IOManager._m_fdContexts s2 !! Z.to_nat n = Some c2).
  { rewrite Hctx2. apply list_lookup_insert_eq. eapply lookup_lt_Some; eauto. }
  rewrite (events_at_lookup _ _ _ Hc2). cbn [obind].
  destruct (fire_if_ok (IOManager.events c2) IOManager.WRITE (Z.to_nat n) s2 c2 Hc2)
    as [s3 H3].
  { intros Hb.
    assert (Hw : IOManager.armed IOManager.WRITE c = true /\
                 IOManager.getEventContext IOManager.WRITE c2 =
                 IOManager.getEventContext IOManager.WRITE c).
    { subst c2. cbn [IOManager.bit_of] in *.
      destruct (Z.testbit (IOManager.events c) 0).
      - rewrite events_reset in Hb.
        cbn [IOManager.set_events IOManager.events] in Hb.
        rewrite Z.land_spec in Hb. apply andb_true_iff in Hb as [Hb _].
        split; [now rewrite armed_testbit|reflexivity].
      - split; [now rewrite armed_testbit|reflexivity]. }
    destruct Hw as [Hw Hslot]. rewrite armed_testbit. split; [exact Hb|].
    rewrite Hslot. now apply (Hsch c). }
  rewrite H3. cbn [obind].
  destruct (fire_both_empty s1 s2 s3 _ c c2 (Slots_lookup _ _ _ Hs Hc)
              (pending_bounds s _ c Hinv Hc) Hc1 H2 Hc2 H3)
    as (c3 & Hctx3 & Hc3 & He3 & _ & Hep3 & _ & Hp3).
  rewrite (events_at_lookup _ _ _ Hc3), He3. cbn [Z.eqb assert obind].
  exists s3. split; [reflexivity|].
  split; [now rewrite (armed_mask_lookup s3 n c3) by (lia || exact Hc3)|].
  split; [intros n' Hne; apply (armed_mask_other s1 s3 _ c3 n' Hctx3); lia|].
  split; [exact Hp3|]. intros _. unfold IOManager.registration.
  rewrite Hep3. subst s1 k. cbn. apply lookup_delete_eq.
Qed.

(** X19: [cancelAll(fd)] on an open descriptor whose armed slots name a
    scheduler returns; it tells whether an event was armed, leaves no
    event of [fd] armed and no registration of [fd] in the interest
    list, lowers the pending counter by the number of events that
    were armed, and leaves the other descriptors as they were. *)
Theorem cancelAll_clears n s :
  IOManager.Inv s -> IOStop.Slots s -> 0 <= n <= INT_MAX ->
  n ∈ IOManager.open_fds (IOManager.epoll s) ->
  (forall c e, IOManager._m_fdContexts s !! Z.to_nat n = Some c ->
     IOManager.armed e c = true ->
     is_Some (IOManager.scheduler (IOManager.getEventContext e c))) ->
  exists s',
    IOManager.cancelAll n s = Ok (negb (IOManager.armed_mask s n =? 0), s') /\
    IOManager.Inv s' /\ IOStop.Slots s' /\
    IOManager.armed_mask s' n = 0 /\
    (forall n', n' <> n ->
       IOManager.armed_mask s' n' = IOManager.armed_mask s n') /\
    IOManager._m_pendingEventCount s' =
      IOManager._m_pendingEventCount s
      - match IOManager._m_fdContexts s !! Z.to_nat n with
        | Some c => Z.of_nat (IOManager.armed_count c)
        | None => 0
        end /\
    (IOManager.armed_mask s n <> 0 -> IOManager.registration s' n = None).
Proof.
  intros Hinv Hs Hn Hopen Hsch.
  destruct (cancelAll_total n s Hinv Hs Hn Hopen Hsch)
    as (s' & Hc & Hm & Ho & Hp & Hr).
  exists s'. split; [exact Hc|].
  split; [eapply (cancelAll_Inv n s); [exact Hinv| |exact Hc];
          unfold IOManager.is_int, INT_MAX in *; lia|].
  split; [eapply (Slots_cancelAll n s); [exact Hs|exact Hc]|]. auto.
Qed.

Lemma cancelAll_clears_witness :
  let b := Scheduler.mk [] 1 0 0 None false [] in
  let th := IOManager.mkThread (Some IOManager.This) 1%nat true in
  let s0 := IOManager.init b (3, 4) {[3; 4; 5]} in
  let s := match IOManager.addEvent 5 IOManager.READ (Some 7%nat) th s0 with
           | Ok r => snd r
           | _ => s0
           end in
  exists s',
    IOManager.cancelAll 5 s = Ok (negb (IOManager.armed_mask s 5 =? 0), s') /\
    IOManager.Inv s' /\ IOStop.Slots s' /\
    IOManager.armed_mask s' 5 = 0 /\
    (forall n', n' <> 5 ->
       IOManager.armed_mask s' n' = IOManager.armed_mask s n') /\
    IOManager._m_pendingEventCount s' =
      IOManager._m_pendingEventCount s
      - match IOManager._m_fdContexts s !! Z.to_nat 5 with
        | Some c => Z.of_nat (IOManager.armed_count c)
        | None => 0
        end /\
    (IOManager.armed_mask s 5 <> 0 -> IOManager.registration s' 5 = None).
Proof.
  intros b th s0 s.
  assert (Hadd : exists r,
            IOManager.addEvent 5 IOManager.READ (Some 7%nat) th s0 = Ok (r, s)).
  { subst s. destruct (IOManager.addEvent 5 IOManager.READ (Some 7%nat) th s0)
      as [[r s1]| |] eqn:Ha; [|vm_compute in Ha; discriminate..].
    now exists r. }
  destruct Hadd as [r Hadd].
  apply (cancelAll_clears 5 s).
  - apply (addEvent_Inv 5 IOManager.READ (Some 7%nat) th s0 r s);
      [apply Inv_init|split; vm_compute; discriminate|vm_compute; discriminate
      |exact Hadd].
  - apply (Slots_addEvent 5 IOManager.READ (Some 7%nat) th s0 r s);
      [apply Slots_init|exact Hadd].
  - split; vm_compute; discriminate.
  - assert (H : Is_true (bool_decide
                  (5 ∈ IOManager.open_fds (IOManager.epoll s))))
      by (vm_compute; exact I).
    exact (bool_decide_unpack _ H).
  - intros c e Hc Ha. vm_compute in Hc. injection Hc as <-.
    destruct e; [eexists; reflexivity|vm_compute in Ha; discriminate].
Defined.

(** X20: [close(fd)] with the hook enabled, on a descriptor that the
    registry holds: every event armed on [fd] is cancelled in the I/O
    manager of the thread and the context of [fd] leaves the registry,
    so that a later [get(fd)] finds nothing; the other descriptors
    keep their contexts and their armed events. *)
Theorem close_unregisters fd s m ctx :
  FdOps.ok m -> IOManager.Inv s -> IOStop.Slots s ->
  0 <= fd <= INT_MAX ->
  FdOps.lookup fd m = Ok (Some ctx) ->
  fd ∈ IOManager.open_fds (IOManager.epoll s) ->
  (forall c e, IOManager._m_fdContexts s !! Z.to_nat fd = Some c ->
     IOManager.armed e c = true ->
     is_Some (IOManager.scheduler (IOManager.getEventContext e c))) ->
  exists s' m',
    HookFd.close true fd (Some s) m = Ok (Some s', m') /\
    FdOps.ok m' /\ IOManager.Inv s' /\
    FdOps.lookup fd m' = Ok None /\
    IOManager.armed_mask s' fd = 0 /\
    (forall fd', 0 <= fd' <= INT_MAX -> fd' <> fd ->
       FdOps.lookup fd' m' = FdOps.lookup fd' m /\
       IOManager.armed_mask s' fd' = IOManager.armed_mask s fd').
Proof.
  intros Hok Hinv Hs Hfd Hlk Hopen Hsch.
  destruct (get_found m fd ctx Hfd Hlk) as [Hg _].
  destruct (cancelAll_total fd s Hinv Hs Hfd Hopen Hsch)
    as (s' & Hc & Hm & Ho & _).
  destruct (del_lookup m fd Hok Hfd) as (Hok' & Hl' & Hothers).
  exists s', (FdManager.del fd m). unfold HookFd.close. cbn [negb].
  rewrite Hg. cbn [obind fst snd]. rewrite Hc. cbn [obind snd].
  split; [reflexivity|]. split; [exact Hok'|].
  split; [eapply (cancelAll_Inv fd s); [exact Hinv| |exact Hc];
          unfold IOManager.is_int, INT_MAX in *; lia|].
  split; [exact Hl'|]. split; [exact Hm|].
  intros fd' Hfd' Hne. split; [now apply Hothers|now apply Ho].
Qed.

Lemma close_unregisters_witness :
  let b := Scheduler.mk [] 1 0 0 None false [] in
  let th := IOManager.mkThread (Some IOManager.This) 1%nat true in
  let s0 := IOManager.init b (3, 4) {[3; 4; 5]} in
  let s := match IOManager.addEvent 5 IOManager.READ (Some 7%nat) th s0 with
           | Ok r => snd r
           | _ => s0
           end in
  let ctx := FdManager.new_FdCtx 5 (Some true) in
  let m := FdOps.store 5 ctx FdManager.init in
  exists s' m',
    HookFd.close true 5 (Some s) m = Ok (Some s', m') /\
    FdOps.ok m' /\ IOManager.Inv s' /\
    FdOps.lookup 5 m' = Ok None /\
    IOManager.armed_mask s' 5 = 0 /\
    (forall fd', 0 <= fd' <= INT_MAX -> fd' <> 5 ->
       FdOps.lookup fd' m' = FdOps.lookup fd' m /\
       IOManager.armed_mask s' fd' = IOManager.armed_mask s fd').
Proof.
  intros b th s0 s ctx m.
  assert (Hadd : exists r,
            IOManager.addEvent 5 IOManager.READ (Some 7%nat) th s0 = Ok (r, s)).
  { subst s. destruct (IOManager.addEvent 5 IOManager.READ (Some 7%nat) th s0)
      as [[r s1]| |] eqn:Ha; [|vm_compute in Ha; discriminate..].
    now exists r. }
  destruct Hadd as [r Hadd].
  apply (close_unregisters 5 s m ctx).
  - apply (ok_store FdManager.init 5 ctx);
      [apply ok_init|vm_compute; lia|reflexivity|reflexivity].
  - apply (addEvent_Inv 5 IOManager.READ (Some 7%nat) th s0 r s);
      [apply Inv_init|split; vm_compute; discriminate|vm_compute; discriminate
      |exact Hadd].
  - apply (Slots_addEvent 5 IOManager.READ (Some 7%nat) th s0 r s);
      [apply Slots_init|exact Hadd].
  - split; vm_compute; discriminate.
  - reflexivity.
  - assert (H : Is_true (bool_decide
                  (5 ∈ IOManager.open_fds (IOManager.epoll s))))
      by (vm_compute; exact I).
    exact (bool_decide_unpack _ H).
  - intros c e Hc Ha. vm_compute in Hc. injection Hc as <-.
    destruct e; [eexists; reflexivity|vm_compute in Ha; discriminate].
Defined.

(** ** Arming an event, then cancelling it *)

Lemma tasks_same_sched s s' :
  IOManager.sched s' = IOManager.sched s -> IOStop.tasks s' = IOStop.tasks s.
Proof. unfold IOStop.tasks. now intros ->. Qed.

Lemma addEvent_locked_sched n e cb0 th s s' :
  IOManager.addEvent_locked n e cb0 th s = Ok (0, s') ->
  IOManager.sched s' = IOManager.sched s.
Proof.
  unfold IOManager.addEvent_locked.
  destruct (IOManager._m_fdContexts s !! index_of n) as [c|]; [|discriminate].
  destruct (IOManager.armed e c); [discriminate|].
  destruct (IOManager.epoll_ctl _ _ _ _) as [rt k].
  destruct (negb (rt =? 0)); [discriminate|].
  destruct (assert _) as [[]| |]; try discriminate. cbn [obind].
  destruct cb0 as [f|].
  - now intros [= <-].
  - destruct (assert _) as [[]| |]; try discriminate. cbn [obind].
    now intros [= <-].
Qed.

(** X21: After [addEvent(fd, event, cb)] has succeeded on a thread whose
    scheduler is the manager itself, [cancelEvent(fd, event)]
    succeeds and submits the continuation that was stored, the
    callback or else the fiber of the caller, at the end of the task
    queue, for any thread; the mask of [fd], its registration and the
    pending counter are again what they were before the [addEvent]. *)
Theorem addEvent_cancelEvent_runs_continuation b fds opened s n e cb0 th s1 :
  IOManager.reachable (IOManager.init b fds opened) s ->
  IOManager.is_int n -> Z.quot (n * 3) 2 <= INT_MAX ->
  IOManager.t_scheduler th = Some IOManager.This ->
  IOManager.addEvent n e cb0 th s = Ok (0, s1) ->
  exists s2,
    IOManager.cancelEvent n e s1 = Ok (true, s2) /\
    IOStop.tasks s2 =
      IOStop.tasks s1 ++
        [match cb0 with
         | Some f => Scheduler.mkTask None (Some f) (-1)
         | None => Scheduler.mkTask (Some (IOManager.t_fiber th)) None (-1)
         end] /\
    IOManager.armed_mask s2 n = IOManager.armed_mask s n /\
    IOManager.registration s2 n = IOManager.registration s n /\
    IOManager._m_pendingEventCount s2 = IOManager._m_pendingEventCount s.
Proof.
  intros Hr Hint Hq Hth Hadd.
  pose proof (reachable_Inv _ _ (Inv_init b fds opened) Hr) as Hinv.
  destruct (addEvent_unfold n e cb0 th s Hinv Hq)
    as (s0 & Heq & Hinv0 & Hp0 & Hep0 & _ & Hm0).
  rewrite Heq in Hadd.
  destruct (addEvent_locked_spec n e cb0 th s0 0 s1 Hinv0 Hint Hadd)
    as [[Hbad _]|(_ & c & c' & Hn & Hc & Harm & Hctx & Hfd & Hev & Hslot & Htk
                  & Hnp & Hopen & Hopen' & Hfirst & Hint' & Hpend)];
    [discriminate|].
  assert (Hinv1 : IOManager.Inv s1)
    by (eapply addEvent_Inv; [exact Hinv| | |rewrite Heq; exact Hadd]; assumption).
  assert (Hlt : (Z.to_nat n < length (IOManager._m_fdContexts s0))%nat)
    by (eapply lookup_lt_Some; eauto).
  assert (Hc1 : IOManager._m_fdContexts s1 !! Z.to_nat n = Some c')
    by (rewrite Hctx; now apply list_lookup_insert_eq).
  assert (Harm' : IOManager.armed e c' = true).
  { rewrite armed_testbit, Hev, testbit_arm.
    rewrite bool_decide_eq_true_2 by reflexivity. apply orb_true_r. }
  pose proof (unregister_ok "cancelEvent" n e s1 c'
                (IOManager.inv_size s1 Hinv1) Hn Hc1 Harm') as Hun.
  rewrite Hopen' in Hun. specialize (Hun Hopen).
  rewrite Hint', lookup_insert_eq in Hun. specialize (Hun (mk_is_Some _ _ eq_refl)).
  cbv zeta in Hun. unfold IOManager.cancelEvent. rewrite Hun. cbn [obind].
  set (s1' := IOManager.decr_pending _).
  assert (Hc1' : IOManager._m_fdContexts s1' !! Z.to_nat n = Some c') by exact Hc1.
  destruct (triggerEvent_This e (Z.to_nat n) s1' c' Hc1' Harm')
    as (s2 & Ht & Htasks).
  { now rewrite Hslot. }
  rewrite Ht. cbn [obind]. exists s2. split; [reflexivity|].
  destruct (triggerEvent_spec _ _ _ _ Ht)
    as (c1 & Hc1'' & _ & Hctx2 & Hep2 & _ & Hp2).
  rewrite Hc1' in Hc1''. injection Hc1'' as <-.
  assert (Hevc : Z.land (IOManager.events c')
                   (Z.lnot (IOManager.event_bits e)) = IOManager.events c).
  { rewrite Hev. apply land_lor_lnot. now rewrite <- armed_testbit. }
  split; [|split; [|split]].
  - cbv zeta in Htasks. rewrite Hslot in Htasks.
    cbn [IOManager.cb IOManager.fiber] in Htasks.
    rewrite Htasks. destruct cb0; reflexivity.
  - rewrite <- Hm0.
    rewrite (armed_mask_lookup s0 n c) by assumption.
    assert (Hl2 : IOManager._m_fdContexts s2 !! Z.to_nat n =
              Some (IOManager.resetEventContext e
                      (IOManager.set_events
                         (Z.land (IOManager.events c')
                            (Z.lnot (IOManager.event_bits e))) c'))).
    { rewrite Hctx2. apply list_lookup_insert_eq.
      eapply lookup_lt_Some; eauto. }
    rewrite (armed_mask_lookup s2 n _ Hn Hl2), events_reset. exact Hevc.
  - unfold IOManager.registration. rewrite Hep2. subst s1'. cbn.
    rewrite Hevc, <- Hep0. unfold IOManager.mirror.
    destruct (Z.eqb_spec (IOManager.events c) 0) as [Hz|Hnz].
    + rewrite lookup_delete_eq. symmetry. now apply Hfirst.
    + rewrite lookup_insert_eq.
      pose proof (IOManager.inv_mirror s0 Hinv0 n Hnp) as Hmir.
      rewrite (armed_mask_lookup s0 n c) in Hmir by assumption.
      unfold IOManager.mirror, IOManager.registration in Hmir.
      destruct (Z.eqb_spec (IOManager.events c) 0); [contradiction|].
      now rewrite Hmir.
  - rewrite Hp2. subst s1'. cbn. rewrite Hpend, Hp0.
    replace (IOManager._m_pendingEventCount s + 1 - 1)
      with (IOManager._m_pendingEventCount s) by lia.
    apply wrap64_small.
    pose proof (IOManager.inv_count s Hinv) as Hcnt.
    pose proof (armed_total_bound s) as Hb.
    pose proof (IOManager.inv_size s Hinv) as Hsz.
    unfold UINT64_MOD, INT_MAX in *. lia.
Qed.

Lemma addEvent_cancelEvent_runs_continuation_witness :
  let b := Scheduler.mk [] 1 0 0 None false [] in
  let th := IOManager.mkThread (Some IOManager.This) 1%nat true in
  let s0 := IOManager.init b (3, 4) {[3; 4; 5]} in
  exists s1,
    IOManager.addEvent 5 IOManager.WRITE None th s0 = Ok (0, s1) /\
    exists s2,
      IOManager.cancelEvent 5 IOManager.WRITE s1 = Ok (true, s2) /\
      IOStop.tasks s2 =
        IOStop.tasks s1 ++ [Scheduler.mkTask (Some 1%nat) None (-1)] /\
      IOManager.armed_mask s2 5 = IOManager.armed_mask s0 5 /\
      IOManager.registration s2 5 = IOManager.registration s0 5 /\
      IOManager._m_pendingEventCount s2 = IOManager._m_pendingEventCount s0.
Proof.
  intros b th s0.
  destruct (IOManager.addEvent 5 IOManager.WRITE None th s0)
    as [[r s1]| |] eqn:Hadd; [|vm_compute in Hadd; discriminate..].
  assert (r = 0) as -> by (vm_compute in Hadd; congruence).
  exists s1. split; [reflexivity|].
  apply (addEvent_cancelEvent_runs_continuation b (3, 4) {[3; 4; 5]} s0 5
           IOManager.WRITE None th s1).
  - apply IOManager.reach_init.
  - split; vm_compute; discriminate.
  - vm_compute. discriminate.
  - reflexivity.
  - exact Hadd.
Defined.

(** ** Stopping *)

(** X22: [IOManager::stopping()] clears the tickled flag of the timer
    manager and changes nothing else.  When it answers true, the set
    of timers is empty, no direction of any descriptor is armed, the
    task queue is empty and no worker is running a task.  (The time
    points are counts of nanoseconds in 64 bits.) *)
Theorem stopping_means_idle now tm s :
  Timer.wf tm -> IOManager.Inv s ->
  Forall (fun d => d - now < 2 ^ 63) (Timer.deadlines tm) ->
  exists r,
    IOStop.stopping now tm s = Ok (r, Timer.set_tickled false tm) /\
    (r = true ->
     Timer._m_timers tm = [] /\
     (forall p c e, IOManager._m_fdContexts s !! p = Some c ->
        IOManager.armed e c = false) /\
     IOStop.tasks s = [] /\
     Scheduler._m_activeThreadCount (IOManager.sched s) = 0 /\
     Scheduler._m_stopping (IOManager.sched s) = true).
Proof.
  intros Hwf Hinv Hrange. unfold IOStop.stopping, Timer.getNextTimer.
  cbn [Timer.set_tickled Timer._m_timers Timer.objects].
  destruct (Timer._m_timers tm) as [|p rest] eqn:Hl.
  - cbn [obind fst snd]. eexists. split; [reflexivity|].
    rewrite Z.eqb_refl. cbn [andb]. intros Hr.
    apply andb_true_iff in Hr as [Hp Hst]. apply Z.eqb_eq in Hp.
    unfold Scheduler.stopping in Hst.
    apply andb_true_iff in Hst as [Hst Hact].
    apply andb_true_iff in Hst as [Hstop Hemp].
    split; [reflexivity|]. split; [|split; [|split]].
    + intros q c e Hc. pose proof (IOManager.inv_count s Hinv) as Hcnt.
      rewrite Hp in Hcnt. unfold IOManager.armed_total in Hcnt.
      pose proof (sum_list_lookup IOManager.armed_count _ _ _ Hc) as Hle.
      assert (Hz : IOManager.armed_count c = O) by lia.
      unfold IOManager.armed_count in Hz.
      destruct e; destruct (IOManager.armed IOManager.READ c),
        (IOManager.armed IOManager.WRITE c); try reflexivity; cbn in Hz; lia.
    + unfold IOStop.tasks.
      destruct (Scheduler._m_tasks (IOManager.sched s)); [reflexivity|discriminate].
    + now apply Z.eqb_eq.
    + exact Hstop.
  - destruct (wf_head_live tm p rest Hwf Hl) as (t & Ht & Hear).
    rewrite Ht. destruct (Z.leb_spec (Timer._m_next t) now) as [Hle|Hgt];
      cbn [obind fst snd]; eexists; (split; [reflexivity|]).
    + cbn. discriminate.
    + destruct Hear as [Hin _]. rewrite Forall_forall in Hrange.
      specialize (Hrange _ (proj2 (list_elem_of_In _ _) Hin)).
      rewrite to_milliseconds_pos by lia.
      assert (Hlt : (Timer._m_next t - now) / 1000000 < UINT64_MAX).
      { apply Z.div_lt_upper_bound; [lia|]. unfold UINT64_MAX. lia. }
      destruct (Z.eqb_spec ((Timer._m_next t - now) / 1000000) UINT64_MAX);
        [lia|]. cbn. discriminate.
Qed.

Lemma stopping_means_idle_witness :
  let b := Scheduler.mk [] 1 0 0 None true [] in
  let s := IOManager.init b (3, 4) {[3; 4; 5]} in
  exists r,
    IOStop.stopping 7 (Timer.init 0) s
      = Ok (r, Timer.set_tickled false (Timer.init 0)) /\
    (r = true ->
     Timer._m_timers (Timer.init 0) = [] /\
     (forall p c e, IOManager._m_fdContexts s !! p = Some c ->
        IOManager.armed e c = false) /\
     IOStop.tasks s = [] /\
     Scheduler._m_activeThreadCount (IOManager.sched s) = 0 /\
     Scheduler._m_stopping (IOManager.sched s) = true).
Proof.
  intros b s. apply (stopping_means_idle 7 (Timer.init 0) s).
  - apply wf_init.
  - apply Inv_init.
  - constructor.
Defined.

(** ** The interest list *)

(** X23: In every state that the calls of the manager can reach, the
    interest list of the epoll instance mirrors the armed masks: a
    descriptor other than the read end of the self-pipe is registered
    exactly when an event is armed on it, and then with its armed
    mask, edge-triggered, and its context as user data; the read end
    of the pipe stays registered. *)
Theorem interest_mirrors_masks b fds opened s n :
  IOManager.reachable (IOManager.init b fds opened) s ->
  n <> fst (IOManager._m_tickleFds s) ->
  IOManager.registration s n =
    (if IOManager.armed_mask s n =? 0 then None
     else Some (Z.lor IOManager.EPOLLET (IOManager.armed_mask s n),
                IOManager.DataPtr (Z.to_nat n))) /\
  is_Some (IOManager.registration s (fst (IOManager._m_tickleFds s))).
Proof.
  intros Hr Hn.
  pose proof (reachable_Inv _ _ (Inv_init b fds opened) Hr) as Hinv.
  split; [exact (IOManager.inv_mirror s Hinv n Hn)|].
  exact (IOManager.inv_pipe s Hinv).
Qed.

Lemma interest_mirrors_masks_witness :
  let b := Scheduler.mk [] 1 0 0 None false [] in
  let th := IOManager.mkThread (Some IOManager.This) 1%nat true in
  let s0 := IOManager.init b (3, 4) {[3; 4; 5]} in
  exists s,
    IOManager.run (IOManager.CallAddEvent 5 IOManager.READ (Some 7%nat) th) s0
      = Ok s /\
    IOManager.registration s 5 =
      (if IOManager.armed_mask s 5 =? 0 then None
       else Some (Z.lor IOManager.EPOLLET (IOManager.armed_mask s 5),
                  IOManager.DataPtr (Z.to_nat 5))) /\
    is_Some (IOManager.registration s (fst (IOManager._m_tickleFds s))).
Proof.
  intros b th s0.
  destruct (IOManager.run
              (IOManager.CallAddEvent 5 IOManager.READ (Some 7%nat) th) s0)
    as [s| |] eqn:Hrun; [|vm_compute in Hrun; discriminate..].
  exists s. split; [reflexivity|].
  apply (interest_mirrors_masks b (3, 4) {[3; 4; 5]} s 5).
  - eapply IOManager.reach_call; [apply IOManager.reach_init| |exact Hrun].
    split; [split|]; vm_compute; discriminate.
  - vm_compute in Hrun. injection Hrun as <-. vm_compute. discriminate.
Defined.

(** ** A failed [addEvent] *)

(** X24: [addEvent] answers 0 or -1; when it answers -1 no event has been
    armed: the masks, the interest list and the pending counter are
    what they were. *)
Theorem addEvent_failure_arms_nothing b fds opened s n e cb0 th r s' :
  IOManager.reachable (IOManager.init b fds opened) s ->
  IOManager.is_int n -> Z.quot (n * 3) 2 <= INT_MAX ->
  IOManager.addEvent n e cb0 th s = Ok (r, s') ->
  (r = 0 \/ r = -1) /\
  (r = -1 ->
   (forall m, IOManager.armed_mask s' m = IOManager.armed_mask s m) /\
   IOManager.epoll s' = IOManager.epoll s /\
   IOManager._m_pendingEventCount s' = IOManager._m_pendingEventCount s).
Proof.
  intros Hr Hint Hq Hadd.
  pose proof (reachable_Inv _ _ (Inv_init b fds opened) Hr) as Hinv.
  destruct (addEvent_unfold n e cb0 th s Hinv Hq)
    as (s0 & Heq & Hinv0 & Hp0 & Hep0 & _ & Hm0).
  rewrite Heq in Hadd.
  destruct (addEvent_locked_spec n e cb0 th s0 r s' Hinv0 Hint Hadd)
    as [[-> Hsame]|[-> _]].
  - split; [now right|]. intros _.
    destruct Hsame as (Hep & _ & Hp & Hctx).
    split; [|split; congruence].
    intros m. rewrite <- Hm0. now apply armed_mask_eq.
  - split; [now left|]. discriminate.
Qed.

Lemma addEvent_failure_arms_nothing_witness :
  let b := Scheduler.mk [] 1 0 0 None false [] in
  let th := IOManager.mkThread (Some IOManager.This) 1%nat true in
  let s0 := IOManager.init b (3, 4) {[3; 4; 5]} in
  exists r s',
    IOManager.addEvent 9 IOManager.READ (Some 7%nat) th s0 = Ok (r, s') /\
    (r = 0 \/ r = -1) /\
    (r = -1 ->
     (forall m, IOManager.armed_mask s' m = IOManager.armed_mask s0 m) /\
     IOManager.epoll s' = IOManager.epoll s0 /\
     IOManager._m_pendingEventCount s' = IOManager._m_pendingEventCount s0).
Proof.
  intros b th s0.
  destruct (IOManager.addEvent 9 IOManager.READ (Some 7%nat) th s0)
    as [[r s']| |] eqn:Hadd; [|vm_compute in Hadd; discriminate..].
  exists r, s'. split; [reflexivity|].
  apply (addEvent_failure_arms_nothing b (3, 4) {[3; 4; 5]} s0 9
           IOManager.READ (Some 7%nat) th r s').
  - apply IOManager.reach_init.
  - split; vm_compute; discriminate.
  - vm_compute. discriminate.
  - exact Hadd.
Defined.

(** ** Events reported to the idle loop *)

Lemma testbit_1 i : 0 <= i -> Z.testbit 1 i = (i =? 0).
Proof.
  intros Hi. change 1 with (2 ^ 0). rewrite Z.pow2_bits_eqb by lia.
  apply Z.eqb_sym.
Qed.

Lemma testbit_4 i : 0 <= i -> Z.testbit 4 i = (i =? 2).
Proof.
  intros Hi. change 4 with (2 ^ 2). rewrite Z.pow2_bits_eqb by lia.
  apply Z.eqb_sym.
Qed.

(** [real_events] holds the [READ] and [WRITE] bits of the report. *)
Lemma real_events_eq r :
  Z.lor (if negb (Z.land r IOManager.EPOLLIN =? 0)
         then IOManager.event_bits IOManager.READ else IOManager.NONE)
        (if negb (Z.land r IOManager.EPOLLOUT =? 0)
         then IOManager.event_bits IOManager.WRITE else IOManager.NONE)
  = Z.land r 5.
Proof.
  change IOManager.EPOLLIN with (2 ^ 0). change IOManager.EPOLLOUT with (2 ^ 2).
  rewrite !land_pow2_eqb, !negb_involutive by lia.
  cbn [IOManager.event_bits]. unfold IOManager.NONE.
  apply Z.bits_inj'. intros i Hi.
  rewrite Z.lor_spec, Z.land_spec, testbit_5 by exact Hi.
  destruct (Z.eqb_spec i 0) as [->|H0].
  - destruct (Z.testbit r 0), (Z.testbit r 2); reflexivity.
  - destruct (Z.eqb_spec i 2) as [->|H2].
    + destruct (Z.testbit r 0), (Z.testbit r 2); reflexivity.
    + cbn [orb]. rewrite andb_false_r.
      destruct (Z.testbit r 0), (Z.testbit r 2);
        rewrite ?testbit_1, ?testbit_4, ?Z.bits_0 by exact Hi;
        destruct (Z.eqb_spec i 0); destruct (Z.eqb_spec i 2);
        try lia; reflexivity.
Qed.

(** Clearing the reported directions one after the other clears the
    reported mask. *)
Lemma clear_both x real :
  Z.land real (Z.lnot 5) = 0 ->
  Z.land (Z.land x (if Z.testbit real 0 then Z.lnot 1 else -1))
         (if Z.testbit real 2 then Z.lnot 4 else -1)
  = Z.land x (Z.lnot real).
Proof.
  intros Hreal. apply Z.bits_inj'. intros i Hi.
  rewrite !Z.land_spec, Z.lnot_spec by exact Hi.
  destruct (Z.eq_dec i 0) as [->|H0]; [|destruct (Z.eq_dec i 2) as [->|H2]].
  - destruct (Z.testbit real 0), (Z.testbit real 2), (Z.testbit x 0);
      reflexivity.
  - destruct (Z.testbit real 0), (Z.testbit real 2), (Z.testbit x 2);
      reflexivity.
  - rewrite (mask_bits real i Hreal Hi H0 H2). cbn [negb].
    assert (Ha : Z.testbit (if Z.testbit real 0 then Z.lnot 1 else -1) i = true).
    { destruct (Z.testbit real 0); [|apply Z.bits_m1; exact Hi].
      rewrite Z.lnot_spec, testbit_1 by exact Hi.
      now destruct (Z.eqb_spec i 0). }
    assert (Hb : Z.testbit (if Z.testbit real 2 then Z.lnot 4 else -1) i = true).
    { destruct (Z.testbit real 2); [|apply Z.bits_m1; exact Hi].
      rewrite Z.lnot_spec, testbit_4 by exact Hi.
      now destruct (Z.eqb_spec i 2). }
    rewrite Ha, Hb. now rewrite !andb_true_r.
Qed.

Lemma land_sub_testbit a b i :
  Z.land a (Z.lnot b) = 0 -> 0 <= i ->
  Z.testbit a i = true -> Z.testbit b i = true.
Proof.
  intros H Hi Ha. apply (f_equal (fun z => Z.testbit z i)) in H.
  rewrite Z.land_spec, Z.lnot_spec, Z.bits_0, Ha in H by exact Hi.
  now destruct (Z.testbit b i).
Qed.

(** X25: One event reported by [epoll_wait] for a context.  The
    directions woken are [READ] for [EPOLLIN] and [WRITE] for
    [EPOLLOUT], and on [EPOLLERR] or [EPOLLHUP] every armed direction.
    When they are among the armed ones (the kernel reports only what
    was registered), the descriptor is open and the armed slots name a
    scheduler, the round returns, exactly the woken directions are
    disarmed, and the other descriptors keep their masks. *)
Theorem idle_event_wakes p revents s c :
  IOManager.Inv s -> IOStop.Slots s ->
  IOManager._m_fdContexts s !! p = Some c ->
  Z.of_nat p ∈ IOManager.open_fds (IOManager.epoll s) ->
  (forall e, IOManager.armed e c = true ->
     is_Some (IOManager.scheduler (IOManager.getEventContext e c))) ->
  let report :=
    if negb (Z.land revents (Z.lor IOManager.EPOLLERR IOManager.EPOLLHUP) =? 0)
    then Z.lor revents
           (Z.land (Z.lor IOManager.EPOLLIN IOManager.EPOLLOUT)
              (IOManager.events c))
    else revents in
  let woken := Z.land report 5 in
  Z.land woken (Z.lnot (IOManager.events c)) = 0 ->
  exists s',
    IOManager.idle_event (IOManager.DataPtr p) revents s = Ok s' /\
    IOManager.Inv s' /\ IOStop.Slots s' /\
    IOManager.armed_mask s' (Z.of_nat p) =
      Z.land (IOManager.events c) (Z.lnot woken) /\
    (forall n', n' <> Z.of_nat p ->
       IOManager.armed_mask s' n' = IOManager.armed_mask s n') /\
    (Z.land revents (Z.lor IOManager.EPOLLERR IOManager.EPOLLHUP) <> 0 ->
     IOManager.armed_mask s' (Z.of_nat p) = 0).
Proof.
  intros Hinv Hs Hc Hopen Hsch report woken Hsub.
  pose proof (Slots_lookup _ _ _ Hs Hc) as Hok. destruct Hok as [Hm5 _].
  assert (Hw5 : Z.land woken (Z.lnot 5) = 0).
  { subst woken. now rewrite <- Z.land_assoc, Z.land_lnot_diag, Z.land_0_r. }
  assert (Hsup :
    Z.land revents (Z.lor IOManager.EPOLLERR IOManager.EPOLLHUP) <> 0 ->
    Z.land (IOManager.events c) (Z.lnot woken) = 0).
  { intros Herr. apply Z.bits_inj'. intros i Hi.
    rewrite Z.land_spec, Z.lnot_spec, Z.bits_0 by exact Hi.
    destruct (Z.testbit (IOManager.events c) i) eqn:Hx; [|reflexivity].
    cbn [andb]. apply negb_false_iff. subst woken report.
    destruct (Z.eqb_spec (Z.land revents
                (Z.lor IOManager.EPOLLERR IOManager.EPOLLHUP)) 0);
      [contradiction|]. cbn [negb].
    change (Z.lor IOManager.EPOLLIN IOManager.EPOLLOUT) with 5.
    rewrite Z.land_spec, Z.lor_spec, Z.land_spec, Hx.
    assert (H5 : Z.testbit 5 i = true).
    { rewrite testbit_5 by exact Hi.
      destruct (Z.eq_dec i 0) as [->|H0]; [reflexivity|].
      destruct (Z.eq_dec i 2) as [->|H2]; [reflexivity|].
      now rewrite (mask_bits _ i Hm5 Hi H0 H2) in Hx. }
    rewrite H5. now rewrite orb_true_r. }
  assert (Hmask0 : IOManager.armed_mask s (Z.of_nat p) = IOManager.events c).
  { apply armed_mask_lookup; [lia|]. now rewrite Nat2Z.id. }
  assert (Hfinish : forall s',
    IOManager.idle_event (IOManager.DataPtr p) revents s = Ok s' ->
    IOManager.armed_mask s' (Z.of_nat p) =
      Z.land (IOManager.events c) (Z.lnot woken) ->
    (forall n', n' <> Z.of_nat p ->
       IOManager.armed_mask s' n' = IOManager.armed_mask s n') ->
    exists s',
      IOManager.idle_event (IOManager.DataPtr p) revents s = Ok s' /\
      IOManager.Inv s' /\ IOStop.Slots s' /\
      IOManager.armed_mask s' (Z.of_nat p) =
        Z.land (IOManager.events c) (Z.lnot woken) /\
      (forall n', n' <> Z.of_nat p ->
         IOManager.armed_mask s' n' = IOManager.armed_mask s n') /\
      (Z.land revents (Z.lor IOManager.EPOLLERR IOManager.EPOLLHUP) <> 0 ->
       IOManager.armed_mask s' (Z.of_nat p) = 0)).
  { intros s' Hrun Hmask Hoth. exists s'. split; [exact Hrun|].
    split; [eapply idle_event_Inv; eauto|].
    split; [eapply Slots_idle_event; eauto|].
    split; [exact Hmask|]. split; [exact Hoth|].
    intros Herr. rewrite Hmask. now apply Hsup. }
  assert (Hrun : exists s',
    IOManager.idle_event (IOManager.DataPtr p) revents s = Ok s' /\
    IOManager.armed_mask s' (Z.of_nat p) =
      Z.land (IOManager.events c) (Z.lnot woken) /\
    (forall n', n' <> Z.of_nat p ->
       IOManager.armed_mask s' n' = IOManager.armed_mask s n')).
  2:{ destruct Hrun as (s' & H1 & H2 & H3). now apply (Hfinish s'). }
  clear Hfinish. unfold IOManager.idle_event. rewrite Hc. cbv zeta.
  rewrite real_events_eq. fold report. fold woken.
  destruct (Z.eqb_spec (Z.land (IOManager.events c) woken) IOManager.NONE)
    as [Hnone|Hsome].
  { exists s. split; [reflexivity|]. split; [|reflexivity].
    rewrite Hmask0. symmetry.
    assert (Hw0 : woken = 0).
    { apply Z.bits_inj'. intros i Hi. rewrite Z.bits_0.
      destruct (Z.testbit woken i) eqn:Hw; [|reflexivity].
      pose proof (land_sub_testbit _ _ i Hsub Hi Hw) as Hx.
      apply (f_equal (fun z => Z.testbit z i)) in Hnone.
      unfold IOManager.NONE in Hnone.
      rewrite Z.land_spec, Z.bits_0, Hx, Hw in Hnone. discriminate. }
    rewrite Hw0. change (Z.lnot 0) with (-1). apply Z.land_m1_r. }
  unfold IOManager.NONE in Hsome.
  assert (Hnz : IOManager.events c <> 0).
  { intros Hz. apply Hsome. now rewrite Hz. }
  assert (Hnp : Z.of_nat p <> fst (IOManager._m_tickleFds s)).
  { apply (armed_not_pipe s _ c); auto; [lia|now rewrite Nat2Z.id]. }
  pose proof (IOManager.inv_mirror s Hinv _ Hnp) as Hmir.
  rewrite Hmask0 in Hmir. unfold IOManager.mirror in Hmir.
  destruct (Z.eqb_spec (IOManager.events c) 0) as [?|_]; [contradiction|].
  unfold IOManager.registration in Hmir.
  rewrite (IOManager.inv_fd s Hinv p c Hc).
  unfold IOManager.epoll_ctl. rewrite bool_decide_eq_true_2 by exact Hopen.
  cbn [negb]. rewrite Hmir.
  set (left_events := Z.land (IOManager.events c) (Z.lnot woken)).
  assert (Hkernel : exists k,
    (if negb (left_events =? 0) then
       (0, IOManager.mkEpoll
             (<[Z.of_nat p := (Z.lor IOManager.EPOLLET left_events,
                               IOManager.DataPtr p)]>
                (IOManager.interest (IOManager.epoll s)))
             (IOManager.open_fds (IOManager.epoll s)))
     else
       (0, IOManager.mkEpoll
             (delete (Z.of_nat p) (IOManager.interest (IOManager.epoll s)))
             (IOManager.open_fds (IOManager.epoll s)))) = (0, k))
    by (destruct (negb (left_events =? 0)); eauto).
  destruct Hkernel as [k Hk].
  replace (let '(rt2, k0) :=
             match (if negb (left_events =? 0) then IOManager.EPOLL_CTL_MOD
                    else IOManager.EPOLL_CTL_DEL) with
             | IOManager.EPOLL_CTL_ADD => (-1, IOManager.epoll s)
             | IOManager.EPOLL_CTL_DEL =>
                 (0, IOManager.mkEpoll
                       (delete (Z.of_nat p)
                          (IOManager.interest (IOManager.epoll s)))
                       (IOManager.open_fds (IOManager.epoll s)))
             | IOManager.EPOLL_CTL_MOD =>
                 (0, IOManager.mkEpoll
                       (<[Z.of_nat p := (Z.lor IOManager.EPOLLET left_events,
                                         IOManager.DataPtr p)]>
                          (IOManager.interest (IOManager.epoll s)))
                       (IOManager.open_fds (IOManager.epoll s)))
             end in
           if negb (rt2 =? 0)
           then Ok (IOManager.log_cerr "idle::epoll_ctl failed" s)
           else
             do s1 <- IOManager.fire_if woken IOManager.READ p
                        (IOManager.set_epoll k0 s);
             IOManager.fire_if woken IOManager.WRITE p s1)
    with (do s1 <- IOManager.fire_if woken IOManager.READ p
                     (IOManager.set_epoll k s);
          IOManager.fire_if woken IOManager.WRITE p s1)
    by (destruct (negb (left_events =? 0)); injection Hk as <-; reflexivity).
  set (s1 := IOManager.set_epoll k s).
  assert (Hc1 : IOManager._m_fdContexts s1 !! p = Some c) by exact Hc.
  destruct (fire_if_ok woken IOManager.READ p s1 c Hc1) as [s2 H2].
  { intros Hb. cbn [IOManager.bit_of] in Hb.
    assert (Ha : IOManager.armed IOManager.READ c = true).
    { rewrite armed_testbit. apply (land_sub_testbit woken); [exact Hsub|cbn; lia|exact Hb]. }
    split; [exact Ha|now apply Hsch]. }
  rewrite H2. cbn [obind].
  pose proof (fire_if_ctx _ _ _ _ _ c H2 Hc1) as Hctx2.
  set (c2 := if Z.testbit woken (IOManager.bit_of IOManager.READ)
             then _ else c) in Hctx2.
  assert (Hc2 : IOManager._m_fdContexts s2 !! p = Some c2).
  { rewrite Hctx2. apply list_lookup_insert_eq. eapply lookup_lt_Some; eauto. }
  destruct (fire_if_ok woken IOManager.WRITE p s2 c2 Hc2) as [s3 H3].
  { intros Hb. cbn [IOManager.bit_of] in Hb.
    assert (Ha : IOManager.armed IOManager.WRITE c = true).
    { rewrite armed_testbit. apply (land_sub_testbit woken); [exact Hsub|cbn; lia|exact Hb]. }
    assert (Hw : IOManager.armed IOManager.WRITE c2 = true /\
                 IOManager.getEventContext IOManager.WRITE c2 =
                 IOManager.getEventContext IOManager.WRITE c).
    { subst c2. destruct (Z.testbit woken (IOManager.bit_of IOManager.READ)).
      - split; [|reflexivity]. rewrite armed_testbit, events_reset.
        cbn [IOManager.set_events IOManager.events].
        rewrite testbit_clear, <- armed_testbit, Ha. reflexivity.
      - now split. }
    destruct Hw as [Hw Hslot]. split; [exact Hw|].
    rewrite Hslot. now apply Hsch. }
  rewrite H3.
  destruct (fire_twice _ _ _ s1 s2 s3 c (pending_bounds s _ c Hinv Hc) Hc1 H2 H3)
    as (c3 & Hctx3 & Hc3 & _ & _ & _ & Hev & _).
  exists s3. split; [reflexivity|]. split.
  - rewrite (armed_mask_lookup s3 (Z.of_nat p) c3)
      by (lia || now rewrite Nat2Z.id).
    rewrite Hev. now apply clear_both.
  - intros n' Hne. apply (armed_mask_other s1 s3 p c3 n' Hctx3 Hne).
Qed.

Lemma idle_event_wakes_witness :
  let b := Scheduler.mk [] 1 0 0 None false [] in
  let th := IOManager.mkThread (Some IOManager.This) 1%nat true in
  let s0 := IOManager.init b (3, 4) {[3; 4; 5]} in
  let s := match IOManager.addEvent 5 IOManager.READ (Some 7%nat) th s0 with
           | Ok r => snd r
           | _ => s0
           end in
  let c := IOManager.mkFdContext
             (IOManager.mkEventContext (Some IOManager.This) None (Some 7%nat))
             IOManager.no_EventContext 5 1 in
  exists s',
    IOManager.idle_event (IOManager.DataPtr 5) IOManager.EPOLLHUP s = Ok s' /\
    IOManager.Inv s' /\ IOStop.Slots s' /\
    IOManager.armed_mask s' (Z.of_nat 5) = Z.land 1 (Z.lnot 1) /\
    (forall n', n' <> Z.of_nat 5 ->
       IOManager.armed_mask s' n' = IOManager.armed_mask s n') /\
    (Z.land IOManager.EPOLLHUP (Z.lor IOManager.EPOLLERR IOManager.EPOLLHUP)
       <> 0 ->
     IOManager.armed_mask s' (Z.of_nat 5) = 0).
Proof.
  intros b th s0 s c.
  assert (Hadd : exists r,
            IOManager.addEvent 5 IOManager.READ (Some 7%nat) th s0 = Ok (r, s)).
  { subst s. destruct (IOManager.addEvent 5 IOManager.READ (Some 7%nat) th s0)
      as [[r s1]| |] eqn:Ha; [|vm_compute in Ha; discriminate..].
    now exists r. }
  destruct Hadd as [r Hadd].
  apply (idle_event_wakes 5 IOManager.EPOLLHUP s c).
  - apply (addEvent_Inv 5 IOManager.READ (Some 7%nat) th s0 r s);
      [apply Inv_init|split; vm_compute; discriminate|vm_compute; discriminate
      |exact Hadd].
  - apply (Slots_addEvent 5 IOManager.READ (Some 7%nat) th s0 r s);
      [apply Slots_init|exact Hadd].
  - vm_compute. reflexivity.
  - assert (H : Is_true (bool_decide
                  (Z.of_nat 5 ∈ IOManager.open_fds (IOManager.epoll s))))
      by (vm_compute; exact I).
    exact (bool_decide_unpack _ H).
  - intros e Ha. destruct e; [eexists; reflexivity|discriminate].
  - vm_compute. reflexivity.
Defined.

(** ** Expired timers in the idle loop *)




(** ** Descriptors created through the hooks *)

(** X27: With the hook enabled, the descriptor that [socket] returns and
    the one that [accept] returns are in the registry afterwards; a
    failed call (-1) leaves the registry as it is. *)
Theorem socket_accept_register m fd st sockfd fuel env :
  FdOps.ok m ->
  (fd = -1 -> HookFd.socket true fd st m = Ok (fd, m)) /\
  (0 <= fd <= INT_MAX ->
   exists c m',
     HookFd.socket true fd st m = Ok (fd, m') /\ FdOps.ok m' /\
     FdOps.lookup fd m' = Ok (Some c)) /\
  (forall r, HookFd.read_like true m sockfd fuel env = Some r ->
     (Hook.ret r < 0 ->
      HookFd.accept true m sockfd st fuel env = Some (r, Ok m)) /\
     (0 <= Hook.ret r <= INT_MAX ->
      exists c m',
        HookFd.accept true m sockfd st fuel env = Some (r, Ok m') /\
        FdOps.ok m' /\ FdOps.lookup (Hook.ret r) m' = Ok (Some c))).
Proof.
  intros Hok. split; [|split].
  - intros ->. reflexivity.
  - intros Hfd. unfold HookFd.socket. cbn [negb].
    destruct (Z.eqb_spec fd (-1)); [lia|].
    destruct (get_create_ok m fd st Hok Hfd) as (c & m' & -> & Hok' & Hl).
    exists c, m'. cbn. auto.
  - intros r Hr. unfold HookFd.accept. rewrite Hr. split.
    + intros Hneg. destruct (Z.geb_spec (Hook.ret r) 0); [lia|reflexivity].
    + intros Hfd. destruct (Z.geb_spec (Hook.ret r) 0); [|lia].
      destruct (get_create_ok m (Hook.ret r) st Hok Hfd)
        as (c & m' & -> & Hok' & Hl).
      exists c, m'. cbn. auto.
Qed.

Lemma socket_accept_register_witness :
  exists c m',
    HookFd.socket true 70 (Some true) FdManager.init = Ok (70, m') /\
    FdOps.ok m' /\ FdOps.lookup 70 m' = Ok (Some c).
Proof.
  apply (proj1 (proj2 (socket_accept_register FdManager.init 70 (Some true)
                         0 O (Hook.mkEnv [] [] []) ok_init))).
  vm_compute. split; discriminate.
Defined.

(** ** Fibers *)

Lemma fiber_lookup_set this f th :
  (this < length (Fiber.fibers th))%nat ->
  Fiber.fibers (Fiber.set_fiber this f th) !! this = Some f.
Proof. intros H. cbn. now apply list_lookup_insert_eq. Qed.

(** X28: The life of a fiber with a stack that is ready, on a thread whose
    main and scheduler fibers exist: [resume] makes it the running,
    current fiber; [yield] makes it ready again and hands the thread
    back to its partner, so that it can be resumed once more; the end
    of its main function leaves it terminated with its callback
    cleared.  A terminated fiber cannot be resumed: the assertion of
    [resume] fails until [reset] has given it a new callback, and
    [reset] is refused (by its assertion) while the fiber is not
    terminated. *)
Theorem fiber_lifecycle this th cb ris cb' main sched :
  Fiber.fibers th !! this = Some (Fiber.mkFiber Fiber.READY cb ris true) ->
  Fiber.t_thread_fiber th = Some main ->
  Fiber.t_scheduler_fiber th = Some sched ->
  let back := if ris then sched else main in
  exists th1 th2 th3 th4,
    Fiber.resume this th = Ok th1 /\
    Fiber.t_fiber th1 = Some this /\
    Fiber.state_of this th1 = Some Fiber.RUNNING /\
    Fiber.reset this cb' th1 = AssertFail /\
    Fiber.yield this th1 = Ok th2 /\
    Fiber.t_fiber th2 = Some back /\
    Fiber.fibers th2 = Fiber.fibers th /\
    Fiber.MainFunc_end this th1 = Ok th3 /\
    Fiber.t_fiber th3 = Some back /\
    Fiber.fibers th3 !! this = Some (Fiber.mkFiber Fiber.TERM None ris true) /\
    Fiber.resume this th3 = AssertFail /\
    Fiber.reset this cb' th3 = Ok th4 /\
    Fiber.fibers th4 !! this = Some (Fiber.mkFiber Fiber.READY cb' ris true).
Proof.
  intros Hf Hmain Hsched back.
  assert (Hlt : (this < length (Fiber.fibers th))%nat)
    by (eapply lookup_lt_Some; eauto).
  assert (Hp : forall st c th',
            Fiber.t_thread_fiber th' = Some main ->
            Fiber.t_scheduler_fiber th' = Some sched ->
            Fiber.partner (Fiber.mkFiber st c ris true) th' = Ok back).
  { intros st c th' H1 H2. unfold Fiber.partner. cbn. rewrite H1, H2.
    subst back. now destruct ris. }
  set (f1 := Fiber.mkFiber Fiber.RUNNING cb ris true).
  set (th1 := Fiber.SetThis (Some this) (Fiber.set_fiber this f1 th)).
  assert (Hf1 : Fiber.fibers th1 !! this = Some f1)
    by (apply fiber_lookup_set; exact Hlt).
  assert (Hlt1 : (this < length (Fiber.fibers th1))%nat)
    by (eapply lookup_lt_Some; eauto).
  assert (Hresume : Fiber.resume this th = Ok th1).
  { unfold Fiber.resume. rewrite Hf.
    cbn -[Fiber.partner Fiber.set_fiber Fiber.SetThis].
    fold f1. fold th1. unfold f1 at 1. rewrite Hp by assumption. reflexivity. }
  set (fR := Fiber.mkFiber Fiber.READY cb ris true).
  set (th2 := Fiber.SetThis (Some back) (Fiber.set_fiber this fR th1)).
  set (fT := Fiber.mkFiber Fiber.TERM None ris true).
  set (thT := Fiber.set_fiber this fT th1).
  set (th3 := Fiber.SetThis (Some back) (Fiber.set_fiber this fT thT)).
  set (th4 := Fiber.set_fiber this (Fiber.mkFiber Fiber.READY cb' ris true) th3).
  exists th1, th2, th3, th4.
  split; [exact Hresume|]. split; [reflexivity|].
  split; [unfold Fiber.state_of; now rewrite Hf1|].
  split; [unfold Fiber.reset; rewrite Hf1; reflexivity|].
  split.
  { unfold Fiber.yield. rewrite Hf1. unfold f1.
    cbn -[Fiber.partner Fiber.set_fiber Fiber.SetThis].
    rewrite (bool_decide_eq_true_2 (Fiber.RUNNING = Fiber.RUNNING)) by reflexivity.
    rewrite (bool_decide_eq_false_2 (Fiber.RUNNING = Fiber.TERM)) by discriminate.
    cbn -[Fiber.partner Fiber.set_fiber Fiber.SetThis].
    fold fR. unfold fR at 1. rewrite Hp by assumption. reflexivity. }
  split; [reflexivity|]. split.
  { subst th2 th1 fR. cbn. rewrite list_insert_insert_eq.
    now apply list_insert_id. }
  assert (HfT : Fiber.fibers thT !! this = Some fT)
    by (apply fiber_lookup_set; exact Hlt1).
  split.
  { unfold Fiber.MainFunc_end.
    rewrite Hf1. unfold f1. cbn [Fiber._m_runInScheduler Fiber._m_stack].
    fold fT. fold thT. unfold Fiber.yield. rewrite HfT. unfold fT.
    cbn -[Fiber.partner Fiber.set_fiber Fiber.SetThis].
    rewrite (bool_decide_eq_true_2 (Fiber.TERM = Fiber.TERM)) by reflexivity.
    rewrite (bool_decide_eq_false_2 (Fiber.TERM = Fiber.RUNNING)) by discriminate.
    cbn -[Fiber.partner Fiber.set_fiber Fiber.SetThis].
    fold fT. unfold fT at 1. rewrite Hp by assumption. reflexivity. }
  split; [reflexivity|].
  assert (Hf3 : Fiber.fibers th3 !! this = Some fT).
  { subst th3. cbn. apply list_lookup_insert_eq.
    rewrite !length_insert. exact Hlt. }
  split; [exact Hf3|].
  split; [unfold Fiber.resume; rewrite Hf3; reflexivity|].
  split; [unfold Fiber.reset; rewrite Hf3; reflexivity|].
  subst th4. cbn. apply list_lookup_insert_eq. rewrite !length_insert. exact Hlt.
Qed.

Lemma fiber_lifecycle_witness :
  let th0 := Fiber.mkThread [] None None None in
  let th := snd (Fiber.create (Some 5%nat) true
                   (match Fiber.GetThis th0 with
                    | Ok r => snd r
                    | _ => th0
                    end)) in
  exists th1 th2 th3 th4,
    Fiber.resume 1 th = Ok th1 /\
    Fiber.t_fiber th1 = Some 1%nat /\
    Fiber.state_of 1 th1 = Some Fiber.RUNNING /\
    Fiber.reset 1 (Some 6%nat) th1 = AssertFail /\
    Fiber.yield 1 th1 = Ok th2 /\
    Fiber.t_fiber th2 = Some O /\
    Fiber.fibers th2 = Fiber.fibers th /\
    Fiber.MainFunc_end 1 th1 = Ok th3 /\
    Fiber.t_fiber th3 = Some O /\
    Fiber.fibers th3 !! 1%nat = Some (Fiber.mkFiber Fiber.TERM None true true) /\
    Fiber.resume 1 th3 = AssertFail /\
    Fiber.reset 1 (Some 6%nat) th3 = Ok th4 /\
    Fiber.fibers th4 !! 1%nat =
      Some (Fiber.mkFiber Fiber.READY (Some 6%nat) true true).
Proof.
  intros th0 th.
  apply (fiber_lifecycle 1 th (Some 5%nat) true (Some 6%nat) O O);
    reflexivity.
Defined.
